(** * igs-remote-admin: session registry and admin command protocol

    A shallow embedding of [remote-admin.js]: the device connection handler
    ([handleRemoteConnection] and the socket callbacks it installs), the
    admin command processor ([processAdminCommand]), and the admin
    connection handler ([handleAdminConnection]) with the broadcast of
    [logToAdmins] to the admins, together with the JavaScript primitives
    they rest on (string methods, [parseInt], and the backtracking
    regular-expression matcher behind [String.prototype.match]).

    Conventions of the model.
    - A JavaScript string is a [list ascii]: a sequence of code units in the
      range 0..255.  White space and line terminators are the members of the
      ECMAScript sets that fall in that range.
    - An integer-valued JavaScript Number is the [Z] it denotes, [NaN] is
      [None], and [2^1024], which is no Number, stands for [Infinity].
      Numbers are binary64: [parseInt] rounds the integer it has read to
      the nearest Number ([to_double]), and a template literal prints the
      shortest decimal digits that denote the Number ([dec]).  The session
      counter is incremented in [Z]; it stays far below 2^53, where the
      increment of Numbers is exact.
    - [logToAdmins], [socket.write], [socket.end], [socket.destroy] and
      [clearTimeout] are recorded, in program order, as a list of [effect]s
      returned next to the new state.  Node reports a failed [socket.write]
      of a string through the ['error'] event and does not throw, so the
      [catch] blocks around the writes are unreachable and have no
      counterpart here.
    - [state.sessions] is a JavaScript [Map]; its iteration order is the
      insertion order, so it is an association list kept in that order.
    - Time enters through [moment()] only: the functions that read the
      clock take its value, in milliseconds, as the argument [now]. *)

From Stdlib Require Import List Ascii String ZArith Lia Bool Arith Sorted.
From Stdlib Require Import DecimalString DecimalPos.
Import ListNotations.

Set Implicit Arguments.

(** ** JavaScript strings *)

Module JS.

Definition jstr := list ascii.

Definition str (s : string) : jstr := list_ascii_of_string s.

Definition code (c : ascii) : nat := nat_of_ascii c.

Definition in_range (lo hi : nat) (c : ascii) : bool :=
  Nat.leb lo (code c) && Nat.leb (code c) hi.

(** LineTerminator: LF, CR (U+2028 and U+2029 lie outside the code units
    modelled). *)
Definition is_lt (c : ascii) : bool :=
  Nat.eqb (code c) 10 || Nat.eqb (code c) 13.

(** WhiteSpace and LineTerminator, the set of [\s] and of [trim]:
    TAB, LF, VT, FF, CR, SP, NBSP. *)
Definition is_ws (c : ascii) : bool :=
  in_range 9 13 c || Nat.eqb (code c) 32 || Nat.eqb (code c) 160.

(** [.] without the [s] flag: anything but a line terminator. *)
Definition dot (c : ascii) : bool := negb (is_lt c).

Definition is_digit (c : ascii) : bool := in_range 48 57 c.

(** [[0-9A-Fa-f]] *)
Definition is_hex (c : ascii) : bool :=
  in_range 48 57 c || in_range 65 70 c || in_range 97 102 c.

(** [[A-Fa-f]] *)
Definition is_hex_letter (c : ascii) : bool :=
  in_range 65 70 c || in_range 97 102 c.

Definition to_upper (c : ascii) : ascii :=
  if in_range 97 122 c then ascii_of_nat (code c - 32) else c.

Fixpoint jstr_eqb (a b : jstr) : bool :=
  match a, b with
  | [], [] => true
  | x :: a', y :: b' => Ascii.eqb x y && jstr_eqb a' b'
  | _, _ => false
  end.

Fixpoint drop_ws (s : jstr) : jstr :=
  match s with
  | c :: s' => if is_ws c then drop_ws s' else s
  | [] => []
  end.

(** [String.prototype.trim] *)
Definition trim (s : jstr) : jstr := rev (drop_ws (rev (drop_ws s))).

(** [String.prototype.split] with a one-character separator. *)
Fixpoint split (sep : ascii) (s : jstr) : list jstr :=
  match s with
  | [] => [[]]
  | c :: s' =>
      if Ascii.eqb c sep then [] :: split sep s'
      else match split sep s' with
           | h :: t => (c :: h) :: t
           | [] => [[c]]
           end
  end.

(** [String.prototype.startsWith] *)
Fixpoint startsWith (p s : jstr) : bool :=
  match p, s with
  | [], _ => true
  | x :: p', y :: s' => Ascii.eqb x y && startsWith p' s'
  | _ :: _, [] => false
  end.

(** [s.indexOf(p) >= 0] *)
Fixpoint includes (p s : jstr) : bool :=
  startsWith p s ||
  match s with
  | [] => false
  | _ :: s' => includes p s'
  end.

(** [s.replace(/c/g, "")] for a one-character pattern. *)
Definition remove_all (c : ascii) (s : jstr) : jstr :=
  filter (fun x => negb (Ascii.eqb x c)) s.

(** *** Numbers

    The Number value for an integer: the integer itself up to 2^53, and
    beyond it the nearest integer with a significand of 53 bits, the even
    one of two that are as near.  From [2^1024 - 2^970] on it is infinite. *)
Definition infinity : Z := (2 ^ 1024)%Z.

Definition round53 (a : Z) : Z :=
  let e := (Z.log2 a - 52)%Z in
  if (e <=? 0)%Z then a
  else
    let q := Z.shiftr a e in
    let r := Z.land a (Z.ones e) in
    let half := Z.shiftl 1 (e - 1) in
    let q' :=
      if (half <? r)%Z || ((r =? half)%Z && Z.odd q) then (q + 1)%Z else q in
    Z.shiftl q' e.

Definition to_double (z : Z) : Z :=
  let v := round53 (Z.abs z) in
  (Z.sgn z * (if (infinity <=? v)%Z then infinity else v))%Z.

(** The decimal digits of an integer, with a minus sign before those of a
    negative one. *)
Definition digits10 (z : Z) : jstr := str (NilZero.string_of_int (Z.to_int z)).

Definition pow10 (n : nat) : Z := (10 ^ Z.of_nat n)%Z.

(** Number::toString picks [k] digits of value [s] and an exponent [n]
    such that [s * 10^(n-k)] rounds to the Number [v], with [k] as small
    as can be and [s * 10^(n-k)] as near to [v] as can be, [s] even if two
    are as near.  [candidates v nd k] are the choices with [k] digits,
    each with its distance to [v]; [nd] is the number of digits of [v]. *)
Definition candidates (v : Z) (nd k : nat) : list (Z * nat * Z) :=
  flat_map
    (fun n =>
       if (k <=? n)%nat then
         let p := pow10 (n - k) in
         let s0 := (v / p)%Z in
         filter
           (fun c =>
              let s := fst (fst c) in
              (pow10 (k - 1) <=? s)%Z && (s <? pow10 k)%Z
              && (to_double (s * p) =? v)%Z)
           [(s0, n, Z.abs (s0 * p - v));
            ((s0 + 1)%Z, n, Z.abs ((s0 + 1) * p - v))]
       else [])
    [nd; S nd].

Definition better (a b : Z * nat * Z) : Z * nat * Z :=
  if (snd b <? snd a)%Z then b
  else if (snd b =? snd a)%Z && Z.even (fst (fst b)) then b
  else a.

Fixpoint shortest (fuel k : nat) (v : Z) (nd : nat) : option (nat * Z * nat) :=
  match fuel with
  | O => None
  | S f =>
      match candidates v nd k with
      | [] => shortest f (S k) v nd
      | c :: cs =>
          let b := fold_left better cs c in
          Some (k, fst (fst b), snd (fst b))
      end
  end.

(** Number::toString of a Number that is an integer and not negative.
    Below 2^53 the digits are those of the integer.  Up to 21 digits are
    written out, the shortest ones followed by zeros; a larger Number is
    written with an exponent. *)
Definition number_to_string (v : Z) : jstr :=
  if (v <? 2 ^ 53)%Z then digits10 v
  else if (infinity <=? v)%Z then str "Infinity"
  else
    match shortest 17 1 v (List.length (digits10 v)) with
    | Some (k, s, n) =>
        if (n <=? 21)%nat then digits10 s ++ repeat "0"%char (n - k)
        else
          match digits10 s with
          | d :: rest =>
              d :: match rest with [] => [] | _ :: _ => "."%char :: rest end
              ++ str "e+" ++ digits10 (Z.of_nat (n - 1))
          | [] => []
          end
    | None => digits10 v
    end.

(** Template-literal conversion of a Number that is an integer. *)
Definition dec (z : Z) : jstr :=
  if (z <? 0)%Z then "-"%char :: number_to_string (- z)
  else number_to_string z.

(** *** parseInt *)

Definition digit_val (c : ascii) : option Z :=
  if in_range 48 57 c then Some (Z.of_nat (code c) - 48)%Z
  else if in_range 97 122 c then Some (Z.of_nat (code c) - 87)%Z
  else if in_range 65 90 c then Some (Z.of_nat (code c) - 55)%Z
  else None.

(** The value of the longest prefix of [s] made of digits of the radix;
    [acc] is the value read so far, [None] while no digit has been read. *)
Fixpoint digits (radix : Z) (s : jstr) (acc : option Z) : option Z :=
  match s with
  | [] => acc
  | c :: s' =>
      match digit_val c with
      | Some d =>
          if (d <? radix)%Z
          then digits radix s'
                 (Some (radix * match acc with Some a => a | None => 0 end + d)%Z)
          else acc
      | None => acc
      end
  end.

Definition strip_sign (s : jstr) : Z * jstr :=
  match s with
  | c :: t =>
      if Ascii.eqb c "-" then ((-1)%Z, t)
      else if Ascii.eqb c "+" then (1%Z, t)
      else (1%Z, s)
  | [] => (1%Z, s)
  end.

Definition strip_0x (s : jstr) : jstr :=
  match s with
  | c :: x :: t =>
      if Ascii.eqb c "0" && (Ascii.eqb x "x" || Ascii.eqb x "X") then t else s
  | _ => s
  end.

(** [parseInt(s, radix)] for radix 10 or 16: leading white space, an
    optional sign, for radix 16 an optional [0x], then the longest run of
    digits; the result is the Number value for the integer read, [None]
    is [NaN]. *)
Definition parseInt (s : jstr) (radix : Z) : option Z :=
  let '(sign, s1) := strip_sign (drop_ws s) in
  let s2 := if (radix =? 16)%Z then strip_0x s1 else s1 in
  option_map (fun mathInt => to_double (sign * mathInt))
    (digits radix s2 None).

End JS.

Import JS.

(** ** Regular expressions

    The backtracking matcher of ECMAScript, in continuation-passing style:
    a matcher receives the rest of the input, the index reached and the
    captures so far, and a continuation that decides whether the rest of
    the pattern matches from there. *)

Module Regex.

Inductive re : Type :=
| Eps
| Chr (c : ascii)              (* a literal character *)
| Cls (p : ascii -> bool)      (* a class: [...], \s or . *)
| Bol                          (* ^ *)
| Eol                          (* $ *)
| Seq (r1 r2 : re)
| Alt (r1 r2 : re)             (* r1|r2, r1 tried first *)
| Star (r : re)                (* r*, greedy *)
| Grp (n : nat) (r : re).      (* the n-th capturing group *)

Definition caps := list (nat * jstr).

Definition cont := jstr -> nat -> caps -> option (nat * caps).

Definition matcher := jstr -> nat -> caps -> cont -> option (nat * caps).

(** Canonicalize of the [i] flag: the literals and classes of this program
    are ASCII, where it is [toUpperCase]. *)
Definition chr_eq (ic : bool) (c a : ascii) : bool :=
  if ic then Ascii.eqb (to_upper c) (to_upper a) else Ascii.eqb c a.

Definition to_lower (c : ascii) : ascii :=
  if in_range 65 90 c then ascii_of_nat (code c + 32) else c.

Definition cls_in (ic : bool) (p : ascii -> bool) (a : ascii) : bool :=
  if ic then p a || p (to_upper a) || p (to_lower a) else p a.

(** RepeatMatcher for [r*]: try one more iteration, which must consume
    input, and fall back to the continuation.  Every iteration consumes a
    character, so the length of the input bounds their number. *)
Fixpoint mstar (fuel : nat) (body : matcher) (s : jstr) (i : nat) (cs : caps)
    (k : cont) : option (nat * caps) :=
  match fuel with
  | O => k s i cs
  | S f =>
      match body s i cs
              (fun s' i' cs' =>
                 if Nat.eqb i' i then None else mstar f body s' i' cs' k) with
      | Some x => Some x
      | None => k s i cs
      end
  end.

Fixpoint m (ic : bool) (r : re) (s : jstr) (i : nat) (cs : caps) (k : cont)
    {struct r} : option (nat * caps) :=
  match r with
  | Eps => k s i cs
  | Chr c =>
      match s with
      | a :: s' => if chr_eq ic c a then k s' (S i) cs else None
      | [] => None
      end
  | Cls p =>
      match s with
      | a :: s' => if cls_in ic p a then k s' (S i) cs else None
      | [] => None
      end
  | Bol => if Nat.eqb i 0 then k s i cs else None
  | Eol => match s with [] => k s i cs | _ :: _ => None end
  | Seq r1 r2 => m ic r1 s i cs (fun s' i' cs' => m ic r2 s' i' cs' k)
  | Alt r1 r2 =>
      match m ic r1 s i cs k with
      | Some x => Some x
      | None => m ic r2 s i cs k
      end
  | Star r1 => mstar (List.length s) (m ic r1) s i cs k
  | Grp n r1 =>
      m ic r1 s i cs (fun s' i' cs' => k s' i' ((n, firstn (i' - i) s) :: cs'))
  end.

Record regex := { pattern : re; ignoreCase : bool }.

(** The result of a successful match: [m_text] is element 0 of the match
    array, [group n] element [n]. *)
Record match_result := { m_text : jstr; m_caps : caps }.

Fixpoint lookup (n : nat) (cs : caps) : option jstr :=
  match cs with
  | [] => None
  | (k, v) :: cs' => if Nat.eqb k n then Some v else lookup n cs'
  end.

Definition group (n : nat) (r : match_result) : jstr :=
  match lookup n (m_caps r) with Some v => v | None => [] end.

(** RegExpBuiltinExec without the [g] and [y] flags: the first start index,
    from 0 upwards, at which the pattern matches. *)
Fixpoint exec_from (ic : bool) (r : re) (s : jstr) (i : nat)
  : option match_result :=
  match m ic r s i [] (fun _ i' cs => Some (i', cs)) with
  | Some (e, cs) => Some {| m_text := firstn (e - i) s; m_caps := cs |}
  | None =>
      match s with
      | [] => None
      | _ :: s' => exec_from ic r s' (S i)
      end
  end.

(** [s.match(rx)] *)
Definition exec (rx : regex) (s : jstr) : option match_result :=
  exec_from (ignoreCase rx) (pattern rx) s 0.

(** Derived forms. *)
Definition opt (r : re) : re := Alt r Eps.          (* r? *)
Definition plus (r : re) : re := Seq r (Star r).    (* r+ *)

Fixpoint rep (n : nat) (r : re) : re :=             (* r{n} *)
  match n with
  | O => Eps
  | S n' => Seq r (rep n' r)
  end.

Fixpoint lit_chars (s : jstr) : re :=
  match s with
  | [] => Eps
  | c :: s' => Seq (Chr c) (lit_chars s')
  end.

Definition lit (s : string) : re := lit_chars (str s).

End Regex.

Import Regex.

Declare Scope re_scope.
Delimit Scope re_scope with re.
Infix "+++" := Seq (at level 60, right associativity) : re_scope.

(** ** CONFIG *)

Module CONFIG.

Module SESSION_DEFAULTS.
Definition TOKEN : jstr := str "NA".
Definition MAC : jstr := str "NA".
Definition TRACE : jstr := str "NA".
Definition FW_VER : jstr := str "NA".
Definition BLE_MAC : jstr := str "NA".
Definition WIFI_MAC : jstr := str "NA".
Definition WLAN_FW_VER : jstr := str "NA".
End SESSION_DEFAULTS.

Inductive STATUS : Type := CONNECT | CLOSE.

Module LOG_PREFIX.
Definition CONN : jstr := str "[CONN]".
Definition DEV_NOT_VALID : jstr := str "[DEV NOT VALID]".
Definition MSG_LINE : jstr := str "[MGS LINE]".
Definition MAC : jstr := str "[MAC]".
Definition ERROR : jstr := str "[ERROR]".
Definition CLOSE : jstr := str "[CLOSE]".
Definition TIMEOUT : jstr := str "[TIMEOUT]".
Definition END : jstr := str "[END]".
Definition ADMIN_CONN : jstr := str "[ADMIN CONN]".
Definition ADMIN_CLOSE : jstr := str "[ADMIN CLOSE]".
Definition ADMIN_ERROR : jstr := str "[ADMIN ERROR]".
Definition ADMIN_TIMEOUT : jstr := str "[ADMIN TIMEOUT]".
Definition ADMIN_END : jstr := str "[ADMIN END]".
Definition ADMIN_CMD : jstr := str "[ADMIN]".
Definition CMD : jstr := str "[CMD]".
Definition CMD_ERROR : jstr := str "[CMD ERROR]".
Definition DROP : jstr := str "[DROP]".
Definition SESS_INFO : jstr := str "[SESS]".
End LOG_PREFIX.

Module COMMANDS.

Definition ws : re := Cls is_ws.                      (* \s *)
Definition any : re := Cls dot.                       (* . *)
Definition hex : re := Cls is_hex.                    (* [0-9a-fA-F] *)

(** [[:-]] *)
Definition is_colon_dash (c : ascii) : bool :=
  Ascii.eqb c ":" || Ascii.eqb c "-".

(** [[0-9A-Fa-f,]] *)
Definition is_hex_comma (c : ascii) : bool :=
  is_hex c || Ascii.eqb c ",".

(** [(?:[0-9a-fA-F]{2}[:-]?){5}[0-9a-fA-F]{2}] *)
Definition mac_target : re :=
  (rep 5 (rep 2 hex +++ opt (Cls is_colon_dash)) +++ rep 2 hex)%re.

(** The pattern of [LS], written with blanks between its parts:
    [^ ls \s* ( .* ) $], flag [i]. *)
Definition LS : regex :=
  {| pattern := (Bol +++ lit "ls" +++ Star ws +++ Grp 1 (Star any) +++ Eol)%re;
     ignoreCase := true |}.

(** [^ cmd \s+ ( MAC (?: , MAC )* ) \s+ ( .+ ) $], flag [i], with [MAC]
    standing for [mac_target]. *)
Definition CMD_MAC : regex :=
  {| pattern :=
       (Bol +++ lit "cmd" +++ plus ws
        +++ Grp 1 (mac_target +++ Star (Chr "," +++ mac_target))
        +++ plus ws +++ Grp 2 (plus any) +++ Eol)%re;
     ignoreCase := true |}.

(** [/^cmd\s+([0-9A-Fa-f,]+)\s+(.+)/i] *)
Definition CMD_ID : regex :=
  {| pattern :=
       (Bol +++ lit "cmd" +++ plus ws +++ Grp 1 (plus (Cls is_hex_comma))
        +++ plus ws +++ Grp 2 (plus any))%re;
     ignoreCase := true |}.

(** [/^cmdall\s+(.+)$/i] *)
Definition CMDALL : regex :=
  {| pattern := (Bol +++ lit "cmdall" +++ plus ws +++ Grp 1 (plus any) +++ Eol)%re;
     ignoreCase := true |}.

(** [/^drop\s+([0-9A-Fa-f]+)$/i] *)
Definition DROP : regex :=
  {| pattern := (Bol +++ lit "drop" +++ plus ws +++ Grp 1 (plus hex) +++ Eol)%re;
     ignoreCase := true |}.

End COMMANDS.

End CONFIG.

(** The [patterns] object of the ['data'] callback. *)
Module patterns.

(** [/([0-9A-Fa-f]{2}[:]?){5}([0-9A-Fa-f]{2})/] *)
Definition mac : regex :=
  {| pattern :=
       (rep 5 (Grp 1 (rep 2 (Cls is_hex) +++ opt (Chr ":")))
        +++ Grp 2 (rep 2 (Cls is_hex)))%re;
     ignoreCase := false |}.

(** [/FIRMWARE_VERSION=(.+)/] *)
Definition firmwareVersion : regex :=
  {| pattern := (lit "FIRMWARE_VERSION=" +++ Grp 1 (plus (Cls dot)))%re;
     ignoreCase := false |}.

(** [/BLE_MAC=(.+)/] *)
Definition bleMac : regex :=
  {| pattern := (lit "BLE_MAC=" +++ Grp 1 (plus (Cls dot)))%re;
     ignoreCase := false |}.

(** [/WIFI_MAC=(.+)/] *)
Definition wifiMac : regex :=
  {| pattern := (lit "WIFI_MAC=" +++ Grp 1 (plus (Cls dot)))%re;
     ignoreCase := false |}.

(** [/WLAN_VERSION=(.+)/] *)
Definition wlanFwVer : regex :=
  {| pattern := (lit "WLAN_VERSION=" +++ Grp 1 (plus (Cls dot)))%re;
     ignoreCase := false |}.

(** [/^TRACE=(.+)/] *)
Definition trace : regex :=
  {| pattern := (Bol +++ lit "TRACE=" +++ Grp 1 (plus (Cls dot)))%re;
     ignoreCase := false |}.

End patterns.

(** ** State *)

(** What the program reads of a device socket: its [writable] flag, and
    whether [destroy()] has been called, after which Node emits ['close']. *)
Record socket_state : Type := {
  writable : bool;
  destroyed : bool
}.

(** The session object of [handleRemoteConnection].  [wifiMac] is not a
    property of the object literal: it is [None] (undefined) until a
    [WIFI_MAC=] line assigns it.  [timer] is the [validationTimeout] handle
    of the closure: [true] while the timer is pending. *)
Record session : Type := {
  id : Z;
  status : CONFIG.STATUS;
  token : jstr;
  mac : jstr;
  trace : jstr;
  fwVer : jstr;
  addr : jstr;
  socket : socket_state;
  start : Z;                    (* moment(), in milliseconds *)
  bleMac : jstr;
  wlanFwVer : jstr;
  wifiMac : option jstr;
  timer : bool
}.

Record state : Type := {
  sessions : list (Z * session);
  sessionIdCounter : Z
}.

Definition initial_state : state :=
  {| sessions := []; sessionIdCounter := 1000 |}.

Inductive effect : Type :=
| Log (msg : jstr)                    (* logToAdmins(msg) *)
| SockWrite (sid : Z) (data : jstr)   (* socket.write(data) on session sid *)
| SockEnd (sid : Z) (data : jstr)     (* socket.end(data) *)
| SockDestroy (sid : Z)               (* socket.destroy() *)
| ClearTimeout (sid : Z).             (* clearTimeout(validationTimeout) *)

(** *** Map operations *)

Fixpoint map_get (k : Z) (l : list (Z * session)) : option session :=
  match l with
  | [] => None
  | (k', v) :: l' => if (k' =? k)%Z then Some v else map_get k l'
  end.

(** [Map.prototype.set]: a present key keeps its place, a new key goes to
    the end. *)
Fixpoint map_set (k : Z) (v : session) (l : list (Z * session))
  : list (Z * session) :=
  match l with
  | [] => [(k, v)]
  | (k', v') :: l' =>
      if (k' =? k)%Z then (k, v) :: l' else (k', v') :: map_set k v l'
  end.

Definition map_delete (k : Z) (l : list (Z * session)) : list (Z * session) :=
  filter (fun p => negb (fst p =? k)%Z) l.

Definition values (l : list (Z * session)) : list session := map snd l.

(** An assignment to a property of the session object registered under
    [sid]: the object is shared between the closure and the map. *)
Definition update (sid : Z) (f : session -> session) (st : state) : state :=
  {| sessions :=
       map (fun p => if (fst p =? sid)%Z then (fst p, f (snd p)) else p)
           (sessions st);
     sessionIdCounter := sessionIdCounter st |}.

(** ** Helper functions *)

Definition findSessionById (id0 : Z) (st : state) : option session :=
  map_get id0 (sessions st).

Definition findSessionByMac (mac0 : jstr) (st : state) : option session :=
  find (fun s => jstr_eqb (mac s) mac0) (values (sessions st)).

Definition parseId (idStr : jstr) : option Z :=
  let isHex := startsWith (str "0x") idStr || existsb is_hex_letter idStr in
  parseInt idStr (if isHex then 16 else 10).

Definition pad2 (z : Z) : jstr :=
  if (z <? 10)%Z then "0"%char :: dec z else dec z.

(** [formatUptime(startTime)] at the instant [now]: [moment().diff] is the
    difference in milliseconds, [Math.floor(asDays())] its quotient by a
    day, and [moment.utc(ms).format("HH:mm:ss")] the time of day of [ms]. *)
Definition formatUptime (now startTime : Z) : jstr :=
  let ms := (now - startTime)%Z in
  let days := (ms / 86400000)%Z in
  let tod := (ms mod 86400000)%Z in
  dec days ++ str " days, "
  ++ pad2 (tod / 3600000) ++ str ":"
  ++ pad2 ((tod / 60000) mod 60) ++ str ":"
  ++ pad2 ((tod / 1000) mod 60).

(** ** Remote device connection handler *)

Definition nl : jstr := str "
".

Definition sp : jstr := str " ".

Definition is_empty (s : jstr) : bool :=
  match s with [] => true | _ :: _ => false end.

(** The body of [handleRemoteConnection(socket)]: [addr] is
    [socket.remoteAddress] and [now] the value of [moment()]. *)
Definition handleRemoteConnection (addr0 : jstr) (now : Z) (st : state)
  : state * list effect :=
  let sessionId := (sessionIdCounter st + 1)%Z in
  let session0 :=
    {| id := sessionId;
       status := CONFIG.CONNECT;
       token := CONFIG.SESSION_DEFAULTS.TOKEN;
       mac := CONFIG.SESSION_DEFAULTS.MAC;
       trace := CONFIG.SESSION_DEFAULTS.TRACE;
       fwVer := CONFIG.SESSION_DEFAULTS.FW_VER;
       addr := addr0;
       socket := {| writable := true; destroyed := false |};
       start := now;
       bleMac := str "NA";
       wlanFwVer := str "NA";
       wifiMac := None;
       timer := true |} in
  ({| sessions := map_set sessionId session0 (sessions st);
      sessionIdCounter := sessionId |},
   [Log (CONFIG.LOG_PREFIX.CONN ++ str " ID:" ++ dec sessionId ++ sp ++ addr0)]).

Definition set_socket (k : socket_state) (s : session) : session :=
  {| id := id s; status := status s; token := token s; mac := mac s;
     trace := trace s; fwVer := fwVer s; addr := addr s; socket := k;
     start := start s; bleMac := bleMac s; wlanFwVer := wlanFwVer s;
     wifiMac := wifiMac s; timer := timer s |}.

Definition set_timer (b : bool) (s : session) : session :=
  {| id := id s; status := status s; token := token s; mac := mac s;
     trace := trace s; fwVer := fwVer s; addr := addr s; socket := socket s;
     start := start s; bleMac := bleMac s; wlanFwVer := wlanFwVer s;
     wifiMac := wifiMac s; timer := b |}.

Definition set_status (b : CONFIG.STATUS) (s : session) : session :=
  {| id := id s; status := b; token := token s; mac := mac s;
     trace := trace s; fwVer := fwVer s; addr := addr s; socket := socket s;
     start := start s; bleMac := bleMac s; wlanFwVer := wlanFwVer s;
     wifiMac := wifiMac s; timer := timer s |}.

(** [session.mac = m; session.token = t] *)
Definition set_mac_token (m t : jstr) (s : session) : session :=
  {| id := id s; status := status s; token := t; mac := m;
     trace := trace s; fwVer := fwVer s; addr := addr s; socket := socket s;
     start := start s; bleMac := bleMac s; wlanFwVer := wlanFwVer s;
     wifiMac := wifiMac s; timer := timer s |}.

Definition set_fwVer (v : jstr) (s : session) : session :=
  {| id := id s; status := status s; token := token s; mac := mac s;
     trace := trace s; fwVer := v; addr := addr s; socket := socket s;
     start := start s; bleMac := bleMac s; wlanFwVer := wlanFwVer s;
     wifiMac := wifiMac s; timer := timer s |}.

Definition set_bleMac (v : jstr) (s : session) : session :=
  {| id := id s; status := status s; token := token s; mac := mac s;
     trace := trace s; fwVer := fwVer s; addr := addr s; socket := socket s;
     start := start s; bleMac := v; wlanFwVer := wlanFwVer s;
     wifiMac := wifiMac s; timer := timer s |}.

Definition set_wifiMac (v : jstr) (s : session) : session :=
  {| id := id s; status := status s; token := token s; mac := mac s;
     trace := trace s; fwVer := fwVer s; addr := addr s; socket := socket s;
     start := start s; bleMac := bleMac s; wlanFwVer := wlanFwVer s;
     wifiMac := Some v; timer := timer s |}.

Definition set_wlanFwVer (v : jstr) (s : session) : session :=
  {| id := id s; status := status s; token := token s; mac := mac s;
     trace := trace s; fwVer := fwVer s; addr := addr s; socket := socket s;
     start := start s; bleMac := bleMac s; wlanFwVer := v;
     wifiMac := wifiMac s; timer := timer s |}.

Definition set_trace (v : jstr) (s : session) : session :=
  {| id := id s; status := status s; token := token s; mac := mac s;
     trace := v; fwVer := fwVer s; addr := addr s; socket := socket s;
     start := start s; bleMac := bleMac s; wlanFwVer := wlanFwVer s;
     wifiMac := wifiMac s; timer := timer s |}.

(** [socket.end(data)] then [socket.destroy()]: the socket is no longer
    writable and its ['close'] event is due. *)
Definition end_destroy (s : session) : session :=
  set_socket {| writable := false; destroyed := true |} s.

(** The callback given to [setTimeout]. *)
Definition validationTimeout (sid : Z) (st : state) : state * list effect :=
  match findSessionById sid st with
  | None => (st, [])
  | Some s =>
      if jstr_eqb (mac s) CONFIG.SESSION_DEFAULTS.MAC then
        (update sid end_destroy st,
         [Log (CONFIG.LOG_PREFIX.DEV_NOT_VALID ++ sp ++ addr s ++ sp ++ mac s);
          SockEnd sid (str "Not Valid" ++ nl);
          SockDestroy sid])
      else (st, [])
  end.

(** One of the telemetry entries of the loop over [Object.entries(patterns)]:
    [match = line.match(pattern); if (match) session[key] = match[1]]. *)
Definition telemetry (pattern0 : regex) (assign : jstr -> session -> session)
    (line : jstr) (s : session) : session :=
  match exec pattern0 line with
  | Some mt => assign (group 1 mt) s
  | None => s
  end.

(** The loop, in the order of the keys of [patterns], [mac] skipped. *)
Definition telemetry_all (line : jstr) (s : session) : session :=
  let s1 := telemetry patterns.firmwareVersion set_fwVer line s in
  let s2 := telemetry patterns.bleMac set_bleMac line s1 in
  let s3 := telemetry patterns.wifiMac set_wifiMac line s2 in
  let s4 := telemetry patterns.wlanFwVer set_wlanFwVer line s3 in
  telemetry patterns.trace set_trace line s4.

(** [socket.on("data", chunk => ...)]; [chunk] is the text of
    [chunk.toString()]. *)
Definition onData (sid : Z) (chunk : jstr) (st : state) : state * list effect :=
  match findSessionById sid st with
  | None => (st, [])
  | Some s =>
      let line := trim chunk in
      if is_empty line then (st, [])
      else
        let echo :=
          Log (CONFIG.LOG_PREFIX.MSG_LINE ++ str "[" ++ dec (id s) ++ str "]["
               ++ token s ++ str "] " ++ line) in
        let '(s1, eff) :=
          match exec patterns.mac line with
          | Some mt =>
              if jstr_eqb (mac s) CONFIG.SESSION_DEFAULTS.MAC then
                let s' :=
                  set_timer false
                    (set_mac_token (m_text mt) (remove_all ":" (m_text mt)) s) in
                (s',
                 [Log (CONFIG.LOG_PREFIX.MAC ++ sp ++ mac s' ++ sp ++ addr s');
                  SockWrite sid (str "SYS " ++ nl);
                  SockWrite sid (str "SYS DBG " ++ nl);
                  ClearTimeout sid])
              else (s, [])
          | None => (s, [])
          end in
        (update sid (fun _ => telemetry_all line s1) st, echo :: eff)
  end.

(** [socket.on("close", ...)] *)
Definition onClose (sid : Z) (st : state) : state * list effect :=
  match findSessionById sid st with
  | None => (st, [])
  | Some s =>
      let st1 := update sid (fun x => set_status CONFIG.CLOSE (set_timer false x)) st in
      ({| sessions := map_delete sid (sessions st1);
          sessionIdCounter := sessionIdCounter st1 |},
       [ClearTimeout sid;
        Log (CONFIG.LOG_PREFIX.CLOSE ++ str " ID:" ++ dec (id s) ++ sp ++ mac s
             ++ sp ++ addr s)])
  end.

(** [socket.on("timeout", ...)] *)
Definition onTimeout (sid : Z) (st : state) : state * list effect :=
  match findSessionById sid st with
  | None => (st, [])
  | Some s =>
      (update sid end_destroy st,
       [Log (CONFIG.LOG_PREFIX.TIMEOUT ++ str " ID:" ++ dec (id s) ++ sp ++ mac s
             ++ sp ++ addr s);
        SockEnd sid (str "Idle Timeout" ++ nl);
        SockDestroy sid])
  end.

(** The socket of a session whose peer has ended.  The server creates its
    sockets without [allowHalfOpen], so Node ends the writable side as soon
    as the readable side has ended: [writable] is false from the ['end']
    event on, and ['close'] follows without a call of [destroy] by the
    program. *)
Definition half_closed (s : session) : session :=
  set_socket {| writable := false; destroyed := destroyed (socket s) |} s.

(** [socket.on("end", ...)] *)
Definition onEnd (sid : Z) (st : state) : state * list effect :=
  match findSessionById sid st with
  | None => (st, [])
  | Some s =>
      (update sid half_closed st,
       [Log (CONFIG.LOG_PREFIX.END ++ str " ID:" ++ dec (id s) ++ sp ++ mac s
             ++ sp ++ addr s)])
  end.

(** [socket.on("error", e => ...)]; [e] is the text of the error. *)
Definition onError (sid : Z) (e : jstr) (st : state) : state * list effect :=
  match findSessionById sid st with
  | None => (st, [])
  | Some s =>
      (st,
       [Log (CONFIG.LOG_PREFIX.ERROR ++ str " ID:" ++ dec (id s) ++ sp ++ e
             ++ sp ++ mac s ++ sp ++ addr s)])
  end.

(** ** Admin commands *)

(** The line that [ls] prints for a session. *)
Definition sess_line (now : Z) (s : session) : jstr :=
  str "[SESS][" ++ dec (id s) ++ str "][" ++ token s ++ str "] "
  ++ formatUptime now (start s)
  ++ str " trace: " ++ trace s ++ str (String "009" "") ++ fwVer s
  ++ str (String "009" "") ++ str "-- " ++ addr s.

(** The callback of [macs.forEach] in the CMD-by-MAC branch. *)
Definition cmdByMac (cmd : jstr) (st : state) (mac0 : jstr) : list effect :=
  let mac1 := trim mac0 in
  match findSessionByMac mac1 st with
  | Some s =>
      if writable (socket s) then
        [Log (CONFIG.LOG_PREFIX.CMD ++ sp ++ cmd); SockWrite (id s) (cmd ++ nl)]
      else
        [Log (CONFIG.LOG_PREFIX.CMD_ERROR ++ str " Device MAC " ++ mac1
              ++ str " socket not writable.")]
  | None =>
      [Log (CONFIG.LOG_PREFIX.CMD_ERROR ++ str " Device MAC " ++ mac1
            ++ str " not found.")]
  end.

(** The callback of [ids.forEach] in the CMD-by-ID branch. *)
Definition cmdById (cmd : jstr) (st : state) (idStr : jstr) : list effect :=
  match parseId idStr with
  | None =>
      [Log (CONFIG.LOG_PREFIX.CMD_ERROR ++ str " Invalid ID format: " ++ idStr)]
  | Some id0 =>
      match findSessionById id0 st with
      | Some s =>
          if writable (socket s) then
            [Log (CONFIG.LOG_PREFIX.CMD ++ sp ++ cmd);
             SockWrite (id s) (cmd ++ nl)]
          else
            [Log (CONFIG.LOG_PREFIX.CMD_ERROR ++ str " Device ID " ++ dec id0
                  ++ str " socket not writable.")]
      | None =>
          [Log (CONFIG.LOG_PREFIX.CMD_ERROR ++ str " Device ID " ++ dec id0
                ++ str " not found.")]
      end
  end.

(** The DROP branch, from the captured [idStr] on. *)
Definition dropById (idStr : jstr) (st : state) : state * list effect :=
  match parseId idStr with
  | None => (st, [])
  | Some id0 =>
      match findSessionById id0 st with
      | Some s =>
          (update id0 end_destroy st,
           [Log (CONFIG.LOG_PREFIX.DROP ++ sp ++ dec id0);
            SockEnd (id s) (str "Connection dropped by admin." ++ nl);
            SockDestroy (id s)])
      | None => (st, [])
      end
  end.

Definition processAdminCommand (now : Z) (line : jstr) (st : state)
  : state * list effect :=
  match exec CONFIG.COMMANDS.LS line with
  | Some listMatch =>
      let opt0 := group 1 listMatch in
      (st,
       flat_map
         (fun s =>
            let out := sess_line now s in
            if is_empty opt0 || includes opt0 out then [Log out] else [])
         (values (sessions st)))
  | None =>
  match exec CONFIG.COMMANDS.CMD_MAC line with
  | Some cmdByMacMatch =>
      let macs := split "," (group 1 cmdByMacMatch) in
      let cmd := group 2 cmdByMacMatch in
      (st, flat_map (cmdByMac cmd st) macs)
  | None =>
  match exec CONFIG.COMMANDS.CMD_ID line with
  | Some cmdByIdMatch =>
      let ids := split "," (group 1 cmdByIdMatch) in
      let cmd := group 2 cmdByIdMatch in
      (st, flat_map (cmdById cmd st) ids)
  | None =>
  match exec CONFIG.COMMANDS.CMDALL line with
  | Some cmdAllMatch =>
      let cmd := group 1 cmdAllMatch in
      (st,
       flat_map
         (fun s =>
            if writable (socket s) then
              [Log (CONFIG.LOG_PREFIX.CMD ++ sp ++ dec (id s) ++ sp ++ addr s
                    ++ sp ++ cmd);
               SockWrite (id s) (cmd ++ nl)]
            else [])
         (values (sessions st)))
  | None =>
  match exec CONFIG.COMMANDS.DROP line with
  | Some dropMatch => dropById (group 1 dropMatch) st
  | None => (st, [])
  end end end end end.

(** [rl.on("line", ...)] of [handleAdminConnection]. *)
Definition onAdminLine (now : Z) (line : jstr) (st : state)
  : state * list effect :=
  let trimmedLine := trim line in
  if is_empty trimmedLine then (st, [])
  else
    let '(st', eff) := processAdminCommand now trimmedLine st in
    (st', Log (CONFIG.LOG_PREFIX.ADMIN_CMD ++ sp ++ trimmedLine) :: eff).

(** ** The event loop

    What Node delivers to the callbacks above.  A cleared or fired timer
    does not fire; ['close'] reaches a socket once. *)
Inductive event : Type :=
| Connect (addr0 : jstr) (now : Z)
| Data (sid : Z) (chunk : jstr)
| ValidationTimer (sid : Z)
| IdleTimeout (sid : Z)
| PeerEnd (sid : Z)
| SockError (sid : Z) (e : jstr)
| Close (sid : Z)
| AdminLine (now : Z) (line : jstr)     (* a line of an admin connection *)
| CliLine (now : Z) (line : jstr).      (* a line of the local console *)

Definition onValidationTimer (sid : Z) (st : state) : state * list effect :=
  match findSessionById sid st with
  | Some s =>
      if timer s then validationTimeout sid (update sid (set_timer false) st)
      else (st, [])
  | None => (st, [])
  end.

Definition handle (e : event) (st : state) : state * list effect :=
  match e with
  | Connect a now => handleRemoteConnection a now st
  | Data sid chunk => onData sid chunk st
  | ValidationTimer sid => onValidationTimer sid st
  | IdleTimeout sid => onTimeout sid st
  | PeerEnd sid => onEnd sid st
  | SockError sid e0 => onError sid e0 st
  | Close sid => onClose sid st
  | AdminLine now line => onAdminLine now line st
  | CliLine now line => processAdminCommand now line st
  end.

Fixpoint run (es : list event) (st : state) : state * list effect :=
  match es with
  | [] => (st, [])
  | e :: es' =>
      let '(st1, eff1) := handle e st in
      let '(st2, eff2) := run es' st1 in
      (st2, eff1 ++ eff2)
  end.

(** ** Definitions used in the statements *)

(** The continuation at the end of a pattern: the match is complete. *)
Definition k0 : cont := fun _ i cs => Some (i, cs).

(** The output of a plain [ls]. *)
Definition ls_lines (now : Z) (l : list (Z * session)) : list effect :=
  map (fun s => Log (sess_line now s)) (values l).

(** The value of a digit, 0 for a character that is none. *)
Definition dval (c : ascii) : Z :=
  match digit_val c with Some d => d | None => 0%Z end.

(** The number that the digits [s] denote in base [radix]. *)
Definition numeral (radix : Z) (s : jstr) : Z :=
  fold_left (fun a c => (radix * a + dval c)%Z) s 0%Z.

(** The digits of a base. *)
Definition digit_of (radix : Z) (c : ascii) : bool :=
  match digit_val c with Some d => (d <? radix)%Z | None => false end.

(** States for the examples: two identified sessions; one session just
    connected. *)
Definition demo_session (k : Z) (m0 : jstr) : session :=
  {| id := k; status := CONFIG.CONNECT; token := remove_all ":" m0; mac := m0;
     trace := str "NA"; fwVer := str "NA"; addr := str "10.0.0.7";
     socket := {| writable := true; destroyed := false |}; start := 0%Z;
     bleMac := str "NA"; wlanFwVer := str "NA"; wifiMac := None;
     timer := false |}.

Definition demo_state : state :=
  {| sessions :=
       [(1001%Z, demo_session 1001 (str "AA:BB:CC:DD:EE:FF"));
        (1002%Z, demo_session 1002 (str "112233445566"))];
     sessionIdCounter := 1002 |}.

Definition fresh_state : state :=
  fst (handleRemoteConnection (str "10.0.0.7") 0 initial_state).

Definition fresh_session : session :=
  {| id := 1001; status := CONFIG.CONNECT; token := str "NA"; mac := str "NA";
     trace := str "NA"; fwVer := str "NA"; addr := str "10.0.0.7";
     socket := {| writable := true; destroyed := false |}; start := 0%Z;
     bleMac := str "NA"; wlanFwVer := str "NA"; wifiMac := None;
     timer := true |}.

(** The identifiers given to the sessions that the [Connect] events of a
    run create, in the order of creation. *)
Fixpoint created (es : list event) (st : state) : list Z :=
  match es with
  | [] => []
  | e :: es' =>
      let st1 := fst (handle e st) in
      match e with
      | Connect _ _ => sessionIdCounter st1 :: created es' st1
      | _ => created es' st1
      end
  end.

(** The identifier of the n-th session created after the counter stood at
    [base]. *)
Definition nth_id (base : Z) (n : nat) : Z := (base + 1 + Z.of_nat n)%Z.

(** A line of text with its new line. *)
Definition line_of (s : string) : jstr := str s ++ nl.

(** The length of the shortest word of a pattern. *)
Fixpoint minlen (r : re) : nat :=
  match r with
  | Eps | Bol | Eol => 0
  | Chr _ | Cls _ => 1
  | Seq r1 r2 => minlen r1 + minlen r2
  | Alt r1 r2 => Nat.min (minlen r1) (minlen r2)
  | Star _ => 0
  | Grp _ r1 => minlen r1
  end.

(** The continuation is entered on a suffix [s'] of the input, at least
    [n] characters further, and the index has moved as far as the input. *)
Definition consumes (n : nat) (body : matcher) : Prop :=
  forall s i cs k x,
    body s i cs k = Some x ->
    exists s' i' cs',
      k s' i' cs' = Some x /\
      List.length s' + n <= List.length s /\
      i' + List.length s' = i + List.length s.

(** The echo of an inbound line, as opposed to what identification adds. *)
Definition is_echo (e : effect) : bool :=
  match e with
  | Log msg => startsWith CONFIG.LOG_PREFIX.MSG_LINE msg
  | _ => false
  end.

(** The effects of a run that are not echoes: identification broadcasts,
    writes to the device, timer operations. *)
Definition beyond_echo (eff : list effect) : list effect :=
  filter (fun e => negb (is_echo e)) eff.

(** The ['data'] events of one connection. *)
Definition data_events (sid : Z) (chunks : list jstr) : list event :=
  map (Data sid) chunks.


(** The text after the first target of a list: a comma before each of the
    further targets. *)
Definition more_targets (ts : list jstr) : jstr :=
  List.concat (map (cons ","%char) ts).

(** [[t; ...ts].join(",")] *)
Definition join_targets (t : jstr) (ts : list jstr) : jstr :=
  t ++ more_targets ts.

(** Twelve hexadecimal digits. *)
Definition bare_mac (t : jstr) : bool :=
  Nat.eqb (List.length t) 12 && forallb is_hex t.

(** A registered session whose identifier is the number that the twelve
    digits spell in hexadecimal, and whose MAC address is written with
    colons. *)
Definition id_lookalike_state : state :=
  {| sessions :=
       [(187723572702975%Z,
         demo_session 187723572702975 (str "AA:BB:CC:DD:EE:FF"))];
     sessionIdCounter := 187723572702975 |}.

(** The reading that takes each element of a target list by its own
    kind, a MAC address by [findSessionByMac] and an identifier by
    [findSessionById]: an element is a MAC address when the MAC target
    pattern takes the whole of it. *)
Definition is_mac_shaped (t : jstr) : bool :=
  match exec {| pattern := (Bol +++ CONFIG.COMMANDS.mac_target +++ Eol)%re;
                ignoreCase := true |} t with
  | Some _ => true
  | None => false
  end.

(** The effects that reading asks of one element. *)
Definition cmdByKind (cmd : jstr) (st : state) (t : jstr) : list effect :=
  if is_mac_shaped t then cmdByMac cmd st t else cmdById cmd st t.

(** In every state that a run reaches, the keys of the registry increase
    along it, do not exceed the counter, and are the identifiers of the
    sessions they map to: the order of the registry is the order in which
    the sessions were created. *)
Definition registry_ok (st : state) : Prop :=
  StronglySorted Z.lt (map fst (sessions st)) /\
  Forall (fun p => (fst p <= sessionIdCounter st)%Z /\ id (snd p) = fst p)
         (sessions st).

(** A line can only be a command when it begins, in either case, with the
    first letter of a keyword. *)
Definition starts_like_command (line : jstr) : bool :=
  match line with
  | a :: _ =>
      existsb (Ascii.eqb (to_upper a)) ["L"%char; "C"%char; "D"%char]
  | [] => false
  end.

(** The writes to device sockets among some effects. *)
Definition writes (eff : list effect) : list (Z * jstr) :=
  flat_map (fun e => match e with SockWrite k d => [(k, d)] | _ => [] end) eff.

(** The broadcasts among some effects. *)
Definition logs (eff : list effect) : list jstr :=
  flat_map (fun e => match e with Log msg => [msg] | _ => [] end) eff.

Definition unwritable_state : state :=
  {| sessions :=
       [(1001%Z, end_destroy (demo_session 1001 (str "AA:BB:CC:DD:EE:FF")));
        (1002%Z, demo_session 1002 (str "112233445566"))];
     sessionIdCounter := 1002 |}.

Definition twin_state : state :=
  {| sessions :=
       [(1001%Z, demo_session 1001 (str "112233445566"));
        (1002%Z, demo_session 1002 (str "112233445566"))];
     sessionIdCounter := 1002 |}.

(** The characters that a pattern can take from the input. *)
Fixpoint may_consume (ic : bool) (r : re) (c : ascii) : bool :=
  match r with
  | Eps | Bol | Eol => false
  | Chr c' => chr_eq ic c' c
  | Cls p => cls_in ic p c
  | Seq r1 r2 | Alt r1 r2 => may_consume ic r1 c || may_consume ic r2 c
  | Star r1 | Grp _ r1 => may_consume ic r1 c
  end.

(** The continuation is entered after a word [w] of the input made of
    characters of [ok]. *)
Definition consumes_only (ok : ascii -> bool) (body : matcher) : Prop :=
  forall s i cs k x,
    body s i cs k = Some x ->
    exists w s' cs',
      s = w ++ s' /\ forallb ok w = true /\
      k s' (i + List.length w) cs' = Some x.

Definition is_hex_colon (c : ascii) : bool := is_hex c || Ascii.eqb c ":".

(** A session is unidentified, [mac] and [token] at the sentinel, or its
    [mac] is a text of at least twelve hexadecimal digits and colons and
    its [token] that text without the colons. *)
Definition identity_ok (s : session) : Prop :=
  (mac s = str "NA" /\ token s = str "NA") \/
  (12 <= List.length (mac s) /\ forallb is_hex_colon (mac s) = true /\
   token s = remove_all ":" (mac s)).

Definition identities_ok (st : state) : Prop :=
  Forall (fun p => identity_ok (snd p)) (sessions st).

(** The number that the decimal digits [d] denote after the digits read so
    far, of value [a]. *)
Fixpoint uacc (d : Decimal.uint) (a : Z) : Z :=
  match d with
  | Decimal.Nil => a
  | Decimal.D0 d' => uacc d' (10 * a + 0)
  | Decimal.D1 d' => uacc d' (10 * a + 1)
  | Decimal.D2 d' => uacc d' (10 * a + 2)
  | Decimal.D3 d' => uacc d' (10 * a + 3)
  | Decimal.D4 d' => uacc d' (10 * a + 4)
  | Decimal.D5 d' => uacc d' (10 * a + 5)
  | Decimal.D6 d' => uacc d' (10 * a + 6)
  | Decimal.D7 d' => uacc d' (10 * a + 7)
  | Decimal.D8 d' => uacc d' (10 * a + 8)
  | Decimal.D9 d' => uacc d' (10 * a + 9)
  end%Z.

(** The two digits of a field of the time of day. *)
Definition two_digits (z : Z) (t : jstr) : bool :=
  Nat.eqb (List.length t) 2 && forallb is_digit t && Z.eqb (numeral 10 t) z.

(** The value of a report: the characters after the key, up to the end of
    the text or to the first line terminator. *)
Definition value_ends (post : jstr) : bool :=
  match post with [] => true | c :: _ => negb (dot c) end.

(** * Admin connections

    [logToAdmins] is an effect [Log] of the handlers above.  Here it is
    carried out: the text goes to the console and to the admins.
    [state.admins] is a [Set] of the admin objects that
    [handleAdminConnection] creates, one for each connection; a [Set]
    keeps objects by identity and in the order of insertion, so it is an
    association list from the rank of the connection to the object.  The
    text of [moment().format()] is read at every call of [logToAdmins];
    a handler receives it as an argument. *)

Record admin : Type := {
  adm_addr : jstr;
  adm_socket : socket_state;
  adm_status : CONFIG.STATUS
}.

Record server : Type := {
  core : state;                   (* sessions and sessionIdCounter *)
  admins : list (nat * admin);    (* state.admins *)
  adminCount : nat                (* admin connections accepted so far *)
}.

Definition initial_server : server :=
  {| core := initial_state; admins := []; adminCount := 0 |}.

Inductive output : Type :=
| ConsoleLog (text : jstr)              (* console.log *)
| ConsoleError (text : jstr)            (* console.error *)
| AdmWrite (a : nat) (data : jstr)      (* admin.socket.write(data) *)
| AdmEnd (a : nat) (data : jstr)        (* socket.end(data) of an admin *)
| AdmDestroy (a : nat)                  (* socket.destroy() of an admin *)
| ReadlineClose (a : nat)               (* rl.close() *)
| Device (e : effect).                  (* an operation on a device socket *)

(** [logToAdmins(message)], [now] the text of [moment().format()]. *)
Definition logToAdmins (now message : jstr) (ads : list (nat * admin))
  : list output :=
  let timestamp := str "[" ++ now ++ str "]" in
  let fullMessage := timestamp ++ message in
  ConsoleLog fullMessage
  :: flat_map
       (fun p =>
          if writable (adm_socket (snd p))
          then [AdmWrite (fst p) (fullMessage ++ nl)]
          else [])
       ads.

(** The effects of a handler carried out; [clock n] is the text of
    [moment().format()] at the call of [logToAdmins] of rank [n]. *)
Fixpoint deliver (clock : nat -> jstr) (n : nat) (ads : list (nat * admin))
    (eff : list effect) : list output :=
  match eff with
  | [] => []
  | Log msg :: eff' =>
      logToAdmins (clock n) msg ads ++ deliver clock (S n) ads eff'
  | e :: eff' => Device e :: deliver clock n ads eff'
  end.

Fixpoint adm_get (k : nat) (l : list (nat * admin)) : option admin :=
  match l with
  | [] => None
  | (k', v) :: l' => if Nat.eqb k' k then Some v else adm_get k l'
  end.

Definition adm_delete (k : nat) (l : list (nat * admin))
  : list (nat * admin) :=
  filter (fun p => negb (Nat.eqb (fst p) k)) l.

Definition adm_update (k : nat) (f : admin -> admin) (l : list (nat * admin))
  : list (nat * admin) :=
  map (fun p => if Nat.eqb (fst p) k then (fst p, f (snd p)) else p) l.

Definition adm_set_socket (ss : socket_state) (a : admin) : admin :=
  {| adm_addr := adm_addr a; adm_socket := ss; adm_status := adm_status a |}.

(** [handleAdminConnection(socket)], to the end of its body. *)
Definition handleAdminConnection (addr0 now : jstr) (sv : server)
  : server * list output :=
  let admin0 :=
    {| adm_addr := addr0;
       adm_socket := {| writable := true; destroyed := false |};
       adm_status := CONFIG.CONNECT |} in
  let ads := admins sv ++ [(adminCount sv, admin0)] in
  ({| core := core sv; admins := ads; adminCount := S (adminCount sv) |},
   logToAdmins now (CONFIG.LOG_PREFIX.ADMIN_CONN ++ sp ++ adm_addr admin0) ads).

(** [socket.on("error", e => ...)] of an admin. *)
Definition onAdminError (k : nat) (e : jstr) (sv : server)
  : server * list output :=
  match adm_get k (admins sv) with
  | None => (sv, [])
  | Some a =>
      (sv,
       [ConsoleError (CONFIG.LOG_PREFIX.ADMIN_ERROR ++ sp ++ e ++ sp
                      ++ adm_addr a)])
  end.

(** [socket.on("close", ...)] of an admin. *)
Definition onAdminClose (k : nat) (now : jstr) (sv : server)
  : server * list output :=
  match adm_get k (admins sv) with
  | None => (sv, [])
  | Some a =>
      let ads := adm_delete k (admins sv) in
      ({| core := core sv; admins := ads; adminCount := adminCount sv |},
       ReadlineClose k
       :: logToAdmins now (CONFIG.LOG_PREFIX.ADMIN_CLOSE ++ sp ++ adm_addr a)
            ads)
  end.

(** [socket.on("timeout", ...)] of an admin. *)
Definition onAdminTimeout (k : nat) (now : jstr) (sv : server)
  : server * list output :=
  match adm_get k (admins sv) with
  | None => (sv, [])
  | Some a =>
      ({| core := core sv;
          admins :=
            adm_update k
              (adm_set_socket {| writable := false; destroyed := true |})
              (admins sv);
          adminCount := adminCount sv |},
       logToAdmins now (CONFIG.LOG_PREFIX.ADMIN_TIMEOUT ++ sp ++ adm_addr a)
         (admins sv)
       ++ [AdmEnd k (str "Admin Idle Timeout" ++ nl); AdmDestroy k])
  end.

(** [socket.on("end", ...)] of an admin. *)
Definition onAdminEnd (k : nat) (now : jstr) (sv : server)
  : server * list output :=
  match adm_get k (admins sv) with
  | None => (sv, [])
  | Some a =>
      (sv,
       logToAdmins now (CONFIG.LOG_PREFIX.ADMIN_END ++ sp ++ adm_addr a)
         (admins sv))
  end.

(** What Node delivers to the server.  [Core] is an event of the device
    side, a line of an admin or of the console.  [AdminSockDown] is Node
    clearing the [writable] flag of an admin socket, which it does when
    the peer has ended or the socket has failed; the flag is never set
    again. *)
Inductive server_event : Type :=
| Core (e : event) (clock : nat -> jstr)
| AdminConnected (addr0 now : jstr)
| AdminSockError (k : nat) (e : jstr)
| AdminClosed (k : nat) (now : jstr)
| AdminTimedOut (k : nat) (now : jstr)
| AdminPeerEnd (k : nat) (now : jstr)
| AdminSockDown (k : nat).

Definition step (ev : server_event) (sv : server) : server * list output :=
  match ev with
  | Core e clock =>
      let '(st', eff) := handle e (core sv) in
      ({| core := st'; admins := admins sv; adminCount := adminCount sv |},
       deliver clock 0 (admins sv) eff)
  | AdminConnected a now => handleAdminConnection a now sv
  | AdminSockError k e => onAdminError k e sv
  | AdminClosed k now => onAdminClose k now sv
  | AdminTimedOut k now => onAdminTimeout k now sv
  | AdminPeerEnd k now => onAdminEnd k now sv
  | AdminSockDown k =>
      ({| core := core sv;
          admins :=
            adm_update k
              (fun a =>
                 adm_set_socket
                   {| writable := false;
                      destroyed := destroyed (adm_socket a) |} a)
              (admins sv);
          adminCount := adminCount sv |}, [])
  end.

Fixpoint serve (evs : list server_event) (sv : server) : server * list output :=
  match evs with
  | [] => (sv, [])
  | ev :: evs' =>
      let '(sv1, out1) := step ev sv in
      let '(sv2, out2) := serve evs' sv1 in
      (sv2, out1 ++ out2)
  end.

(** What an admin receives, what the console shows, and what is done to
    the device sockets. *)
Definition sent (k : nat) (outs : list output) : list jstr :=
  flat_map
    (fun o =>
       match o with
       | AdmWrite a d => if Nat.eqb a k then [d] else []
       | _ => []
       end) outs.

Definition console (outs : list output) : list jstr :=
  flat_map (fun o => match o with ConsoleLog t => [t] | _ => [] end) outs.

Definition device_ops (outs : list output) : list effect :=
  flat_map (fun o => match o with Device e => [e] | _ => [] end) outs.

Definition is_log (e : effect) : bool :=
  match e with Log _ => true | _ => false end.

(** The broadcasts with their time stamps. *)
Fixpoint stamp (clock : nat -> jstr) (n : nat) (msgs : list jstr) : list jstr :=
  match msgs with
  | [] => []
  | msg :: msgs' =>
      ((str "[" ++ clock n ++ str "]") ++ msg) :: stamp clock (S n) msgs'
  end.

(** The ranks of the registered admins are distinct and below the count
    of connections. *)
Definition admins_ok (sv : server) : Prop :=
  NoDup (map fst (admins sv)) /\
  Forall (fun p => fst p < adminCount sv) (admins sv).

Definition demo_admin (a : string) (w : bool) : admin :=
  {| adm_addr := str a;
     adm_socket := {| writable := w; destroyed := negb w |};
     adm_status := CONFIG.CONNECT |}.

Definition demo_server : server :=
  {| core := demo_state;
     admins := [(0, demo_admin "10.0.0.2" true);
                (1, demo_admin "10.0.0.3" false);
                (2, demo_admin "10.0.0.2" true)];
     adminCount := 3 |}.

(** An admin that no broadcast can reach any more: its rank is taken and
    its socket, if it is still in the set, is not writable. *)
Definition quiet (k : nat) (sv : server) : Prop :=
  k < adminCount sv /\
  forall a, In (k, a) (admins sv) -> writable (adm_socket a) = false.

(** The events of the device side and the command lines among the events
    of the server. *)
Definition core_events (evs : list server_event) : list event :=
  flat_map (fun ev => match ev with Core e _ => [e] | _ => [] end) evs.

(** [matches ic r w rest]: the pattern [r] can take the word [w] from an
    input in which [rest] follows it.  [rest] matters to the assertion
    [$] only. *)
Inductive matches (ic : bool) : re -> jstr -> jstr -> Prop :=
| M_eps rest : matches ic Eps [] rest
| M_chr c a rest : chr_eq ic c a = true -> matches ic (Chr c) [a] rest
| M_cls p a rest : cls_in ic p a = true -> matches ic (Cls p) [a] rest
| M_bol rest : matches ic Bol [] rest
| M_eol : matches ic Eol [] []
| M_seq r1 r2 w1 w2 rest :
    matches ic r1 w1 (w2 ++ rest) -> matches ic r2 w2 rest ->
    matches ic (Seq r1 r2) (w1 ++ w2) rest
| M_alt_l r1 r2 w rest : matches ic r1 w rest -> matches ic (Alt r1 r2) w rest
| M_alt_r r1 r2 w rest : matches ic r2 w rest -> matches ic (Alt r1 r2) w rest
| M_star_nil r rest : matches ic (Star r) [] rest
| M_star_cons r w1 w2 rest :
    matches ic r w1 (w2 ++ rest) -> matches ic (Star r) w2 rest ->
    matches ic (Star r) (w1 ++ w2) rest
| M_grp n r w rest : matches ic r w rest -> matches ic (Grp n r) w rest.

(** The continuation of a matcher is entered after a word of the
    pattern. *)
Definition sound (ic : bool) (r : re) (body : matcher) : Prop :=
  forall s i cs k x,
    body s i cs k = Some x ->
    exists w s' cs',
      s = w ++ s' /\ matches ic r w s' /\
      k s' (i + List.length w) cs' = Some x.

(** The words of [(?: hh sep? ){n} hh], read off the pattern: [n] pairs of
    hexadecimal digits, each with a separator after it or without, and a
    last pair. *)
Fixpoint groups (sep : ascii -> bool) (n : nat) (t : jstr) : bool :=
  match n with
  | O => match t with [a; b] => is_hex a && is_hex b | _ => false end
  | S n' =>
      match t with
      | a :: b :: c :: t' =>
          is_hex a && is_hex b
          && (if sep c then groups sep n' t' else groups sep n' (c :: t'))
      | _ => false
      end
  end.

(** A MAC address as a command takes it: six pairs, a colon or a dash
    after any of the first five. *)
Definition mac_word (t : jstr) : bool :=
  groups CONFIG.COMMANDS.is_colon_dash 5 t.

(** A MAC address as a device reports it: six pairs, a colon after any of
    the first five. *)
Definition is_colon (c : ascii) : bool := Ascii.eqb c ":".

Definition mac_report (t : jstr) : bool := groups is_colon 5 t.

Definition payload (line : jstr) : option jstr :=
  match exec CONFIG.COMMANDS.LS line with
  | Some _ => None
  | None =>
    match exec CONFIG.COMMANDS.CMD_MAC line with
    | Some mm => Some (group 2 mm)
    | None =>
      match exec CONFIG.COMMANDS.CMD_ID line with
      | Some im => Some (group 2 im)
      | None =>
        match exec CONFIG.COMMANDS.CMDALL line with
        | Some am => Some (group 1 am)
        | None => None
        end
      end
    end
  end.

(** [without c s t]: [t] is [s] with every occurrence of [c] taken out and
    nothing else changed. *)
Inductive without (c : ascii) : jstr -> jstr -> Prop :=
| without_nil : without c [] []
| without_skip (s t : jstr) : without c s t -> without c (c :: s) t
| without_keep (a : ascii) (s t : jstr) :
    a <> c -> without c s t -> without c (a :: s) (a :: t).

(** Three registered devices, the third one reporting its address without
    colons. *)
Definition readme_state : state :=
  {| sessions :=
       [(1001%Z, demo_session 1001 (str "11:22:33:44:55:66"));
        (1002%Z, demo_session 1002 (str "AA:BB:CC:DD:EE:01"));
        (1003%Z, demo_session 1003 (str "AABBCCDDEEFF"))];
     sessionIdCounter := 1003 |}.

(** The DROP branch on an identifier that reads as [j]. *)
Definition dropped (j : Z) (st : state) : state * list effect :=
  match findSessionById j st with
  | Some x =>
      (update j end_destroy st,
       [Log (CONFIG.LOG_PREFIX.DROP ++ sp ++ JS.dec j);
        SockEnd (id x) (str "Connection dropped by admin." ++ nl);
        SockDestroy (id x)])
  | None => (st, [])
  end.

(** One group of the MAC target pattern: two hexadecimal digits and a
    separator or none. *)
Definition mac_group : re :=
  (rep 2 CONFIG.COMMANDS.hex
   +++ opt (Cls CONFIG.COMMANDS.is_colon_dash))%re.

(** * Properties *)

(** ** Characters and strings *)

Lemma jstr_eqb_eq (a b : jstr) : jstr_eqb a b = true <-> a = b.
Proof.
  revert b; induction a as [|x a IH]; intros [|y b]; simpl; split;
    try congruence; try reflexivity.
  - intros H. apply andb_true_iff in H as [H1 H2].
    apply Ascii.eqb_eq in H1. apply IH in H2. congruence.
  - intros H. injection H as -> ->. rewrite Ascii.eqb_refl. simpl.
    apply IH. reflexivity.
Qed.

Lemma jstr_eqb_refl (a : jstr) : jstr_eqb a a = true.
Proof. apply jstr_eqb_eq. reflexivity. Qed.

Lemma jstr_eqb_neq (a b : jstr) : a <> b -> jstr_eqb a b = false.
Proof.
  intros H. destruct (jstr_eqb a b) eqn:E; [|reflexivity].
  apply jstr_eqb_eq in E. contradiction.
Qed.

(** A property of every character, decided by running over the 256 of
    them. *)
Lemma ascii_all (P : ascii -> bool) :
  (forallb P (map ascii_of_nat (seq 0 256)) = true) -> forall c, P c = true.
Proof.
  intros H c. rewrite forallb_forall in H. apply H.
  rewrite <- (ascii_nat_embedding c). apply in_map. apply in_seq.
  pose proof (nat_ascii_bounded c). lia.
Qed.

Ltac all_chars := apply ascii_all; vm_compute; reflexivity.

Lemma implb_elim (a b : bool) : implb a b = true -> a = true -> b = true.
Proof. destruct a, b; simpl; congruence. Qed.

Lemma hex_not_ws c : is_hex c = true -> is_ws c = false.
Proof.
  intros H. apply negb_true_iff. revert H. apply implb_elim. revert c.
  all_chars.
Qed.

(** ** The matcher *)

Section Matcher.

Variable ic : bool.

(** A pattern that begins with [^] matches at index 0 or nowhere. *)
Lemma exec_from_bol (r : re) (s : jstr) (i : nat) :
  exec_from ic (Seq Bol r) s (S i) = None.
Proof.
  revert i. induction s as [|a s IH]; intros i; simpl; [reflexivity|].
  apply IH.
Qed.

Lemma exec_bol (r : re) (s : jstr) :
  exec {| pattern := Seq Bol r; ignoreCase := ic |} s =
  match m ic r s 0 [] k0 with
  | Some (e, cs) => Some {| m_text := firstn (e - 0) s; m_caps := cs |}
  | None => None
  end.
Proof.
  unfold exec. simpl pattern. simpl ignoreCase.
  destruct s as [|a s]; simpl exec_from; fold k0.
  - destruct (m ic r [] 0 [] k0) as [[e cs]|]; reflexivity.
  - destruct (m ic r (a :: s) 0 [] k0) as [[e cs]|]; [reflexivity|].
    apply exec_from_bol.
Qed.

(** A pattern that begins with a literal fails on an input that begins
    with another character. *)
Lemma m_chr_mismatch (c : ascii) (r : re) (s : jstr) (i : nat) (cs : caps)
    (k : cont) :
  match s with [] => true | a :: _ => negb (chr_eq ic c a) end = true ->
  m ic (Seq (Chr c) r) s i cs k = None.
Proof.
  destruct s as [|a s]; simpl; [reflexivity|].
  intros H. apply negb_true_iff in H. rewrite H. reflexivity.
Qed.

Lemma mstar_S (body : matcher) (f : nat) (s : jstr) (i : nat) (cs : caps)
    (k : cont) :
  mstar (S f) body s i cs k =
  match body s i cs
          (fun s' i' cs' =>
             if Nat.eqb i' i then None else mstar f body s' i' cs' k) with
  | Some x => Some x
  | None => k s i cs
  end.
Proof. reflexivity. Qed.

Lemma m_cls_cons (p : ascii -> bool) (a : ascii) (s : jstr) (i : nat)
    (cs : caps) (k : cont) :
  m ic (Cls p) (a :: s) i cs k =
  if cls_in ic p a then k s (S i) cs else None.
Proof. reflexivity. Qed.

Lemma m_chr_cons (c a : ascii) (s : jstr) (i : nat) (cs : caps) (k : cont) :
  m ic (Chr c) (a :: s) i cs k =
  if chr_eq ic c a then k s (S i) cs else None.
Proof. reflexivity. Qed.

Lemma m_seq (r1 r2 : re) (s : jstr) (i : nat) (cs : caps) (k : cont) :
  m ic (Seq r1 r2) s i cs k =
  m ic r1 s i cs (fun s' i' cs' => m ic r2 s' i' cs' k).
Proof. reflexivity. Qed.

Lemma m_grp (n : nat) (r : re) (s : jstr) (i : nat) (cs : caps) (k : cont) :
  m ic (Grp n r) s i cs k =
  m ic r s i cs (fun s' i' cs' => k s' i' ((n, firstn (i' - i) s) :: cs')).
Proof. reflexivity. Qed.

Lemma m_star (r : re) (s : jstr) (i : nat) (cs : caps) (k : cont) :
  m ic (Star r) s i cs k = mstar (List.length s) (m ic r) s i cs k.
Proof. reflexivity. Qed.

(** A greedy [p*] over a class: when the input begins with a run [t] of
    members that ends at the end of the input or before a non-member, and
    the continuation accepts what follows the run, that is the match. *)
Lemma mstar_cls (p : ascii -> bool) (t : jstr) :
  forall (rest : jstr) (i : nat) (cs : caps) (k : cont) (fuel : nat) x,
    forallb (cls_in ic p) t = true ->
    match rest with [] => true | c :: _ => negb (cls_in ic p c) end = true ->
    List.length t <= fuel ->
    k rest (i + List.length t) cs = Some x ->
    mstar fuel (m ic (Cls p)) (t ++ rest) i cs k = Some x.
Proof.
  induction t as [|c t IH]; intros rest i cs k fuel x Ht Hr Hf Hk.
  - simpl in Hk. rewrite Nat.add_0_r in Hk. simpl app.
    destruct fuel; [exact Hk|]. rewrite mstar_S.
    destruct rest as [|a rest]; [exact Hk|].
    rewrite m_cls_cons. apply negb_true_iff in Hr. rewrite Hr. exact Hk.
  - simpl in Ht. apply andb_true_iff in Ht as [Hc Ht].
    destruct fuel as [|fuel]; [simpl in Hf; lia|].
    rewrite <- app_comm_cons, mstar_S, m_cls_cons, Hc.
    replace (Nat.eqb (S i) i) with false
      by (symmetry; apply Nat.eqb_neq; lia).
    rewrite (IH rest (S i) cs k fuel x); try assumption; try reflexivity.
    + simpl in Hf. lia.
    + rewrite <- Hk. f_equal. simpl. lia.
Qed.

Lemma m_star_cls (p : ascii -> bool) (t rest : jstr) (i : nat) (cs : caps)
    (k : cont) x :
  forallb (cls_in ic p) t = true ->
  match rest with [] => true | c :: _ => negb (cls_in ic p c) end = true ->
  k rest (i + List.length t) cs = Some x ->
  m ic (Star (Cls p)) (t ++ rest) i cs k = Some x.
Proof.
  intros Ht Hr Hk. rewrite m_star. apply mstar_cls; try assumption.
  rewrite length_app. lia.
Qed.

Lemma m_plus_cls (p : ascii -> bool) (t rest : jstr) (i : nat) (cs : caps)
    (k : cont) x :
  t <> [] ->
  forallb (cls_in ic p) t = true ->
  match rest with [] => true | c :: _ => negb (cls_in ic p c) end = true ->
  k rest (i + List.length t) cs = Some x ->
  m ic (plus (Cls p)) (t ++ rest) i cs k = Some x.
Proof.
  intros Hn Ht Hr Hk. destruct t as [|c t]; [congruence|].
  simpl in Ht. apply andb_true_iff in Ht as [Hc Ht].
  unfold plus. rewrite <- app_comm_cons, m_seq, m_cls_cons, Hc.
  apply m_star_cls; try assumption.
  rewrite <- Hk. f_equal. simpl. lia.
Qed.

Lemma forallb_same (A : Type) (f g : A -> bool) (l : list A) :
  (forall a, f a = g a) -> forallb f l = forallb g l.
Proof.
  intros H. induction l as [|a l IH]; simpl; [reflexivity|].
  rewrite H, IH. reflexivity.
Qed.

(** The same for a class that the [i] flag leaves as it is. *)
Lemma m_star_run (p : ascii -> bool) (t rest : jstr) (i : nat) (cs : caps)
    (k : cont) x :
  (forall c, cls_in ic p c = p c) ->
  forallb p t = true ->
  match rest with [] => true | c :: _ => negb (p c) end = true ->
  k rest (i + List.length t) cs = Some x ->
  m ic (Star (Cls p)) (t ++ rest) i cs k = Some x.
Proof.
  intros Hp Ht Hr Hk. apply m_star_cls; try assumption.
  - rewrite <- Ht. apply forallb_same. exact Hp.
  - destruct rest as [|c rest]; [reflexivity|]. rewrite Hp. exact Hr.
Qed.

Lemma m_plus_run (p : ascii -> bool) (t rest : jstr) (i : nat) (cs : caps)
    (k : cont) x :
  (forall c, cls_in ic p c = p c) ->
  t <> [] ->
  forallb p t = true ->
  match rest with [] => true | c :: _ => negb (p c) end = true ->
  k rest (i + List.length t) cs = Some x ->
  m ic (plus (Cls p)) (t ++ rest) i cs k = Some x.
Proof.
  intros Hp Hn Ht Hr Hk. apply m_plus_cls; try assumption.
  - rewrite <- Ht. apply forallb_same. exact Hp.
  - destruct rest as [|c rest]; [reflexivity|]. rewrite Hp. exact Hr.
Qed.

Lemma m_star_run_end (p : ascii -> bool) (t : jstr) (i : nat) (cs : caps)
    (k : cont) x :
  (forall c, cls_in ic p c = p c) ->
  forallb p t = true ->
  k [] (i + List.length t) cs = Some x ->
  m ic (Star (Cls p)) t i cs k = Some x.
Proof.
  intros Hp Ht Hk. rewrite <- (app_nil_r t). apply m_star_run; auto.
Qed.

Lemma m_plus_run_end (p : ascii -> bool) (t : jstr) (i : nat) (cs : caps)
    (k : cont) x :
  (forall c, cls_in ic p c = p c) ->
  t <> [] ->
  forallb p t = true ->
  k [] (i + List.length t) cs = Some x ->
  m ic (plus (Cls p)) t i cs k = Some x.
Proof.
  intros Hp Hn Ht Hk. rewrite <- (app_nil_r t). apply m_plus_run; auto.
Qed.

(** A star whose body fails at once is the continuation. *)
Lemma mstar_skip (body : matcher) (fuel : nat) (s : jstr) (i : nat)
    (cs : caps) (k : cont) :
  (forall k', body s i cs k' = None) ->
  mstar fuel body s i cs k = k s i cs.
Proof.
  intros H. destruct fuel; simpl; [reflexivity|]. rewrite H. reflexivity.
Qed.

End Matcher.

(** A literal under the [i] flag accepts any spelling of its letters. *)
Lemma m_lit_ci (kw : jstr) :
  forall (kw' s : jstr) (i : nat) (cs : caps) (k : cont),
    map to_upper kw' = map to_upper kw ->
    m true (lit_chars kw) (kw' ++ s) i cs k = k s (i + List.length kw) cs.
Proof.
  induction kw as [|c kw IH]; intros [|c' kw'] s i cs k H; simpl in H;
    try discriminate.
  - simpl. rewrite Nat.add_0_r. reflexivity.
  - injection H as Hc Hk.
    simpl lit_chars. rewrite <- app_comm_cons, m_seq, m_chr_cons.
    unfold chr_eq. rewrite Hc, Ascii.eqb_refl. rewrite IH by assumption.
    f_equal. simpl. lia.
Qed.

Lemma firstn_span (A : Type) (t rest : list A) (i : nat) :
  firstn (i + List.length t - i) (t ++ rest) = t.
Proof.
  replace (i + List.length t - i) with (List.length t + 0) by lia.
  rewrite firstn_app_2. simpl. apply app_nil_r.
Qed.

Lemma firstn_span_end (A : Type) (t : list A) (i : nat) :
  firstn (i + List.length t - i) t = t.
Proof.
  replace (i + List.length t - i) with (List.length t) by lia.
  apply firstn_all.
Qed.

Lemma firstn_whole (A : Type) (s : list A) (e : nat) :
  e = List.length s -> firstn (e - 0) s = s.
Proof. intros ->. rewrite Nat.sub_0_r. apply firstn_all. Qed.

(** The classes of this program are closed under case, so the [i] flag
    does not change them. *)
Lemma bool_eqb_elim (a b : bool) : Bool.eqb a b = true -> a = b.
Proof. apply Bool.eqb_prop. Qed.

Lemma cls_in_ws ic c : cls_in ic is_ws c = is_ws c.
Proof.
  destruct ic; [|reflexivity]. apply bool_eqb_elim. revert c. all_chars.
Qed.

Lemma cls_in_dot ic c : cls_in ic dot c = dot c.
Proof.
  destruct ic; [|reflexivity]. apply bool_eqb_elim. revert c. all_chars.
Qed.

Lemma cls_in_hex ic c : cls_in ic is_hex c = is_hex c.
Proof.
  destruct ic; [|reflexivity]. apply bool_eqb_elim. revert c. all_chars.
Qed.

Lemma cls_in_hex_comma ic c :
  cls_in ic CONFIG.COMMANDS.is_hex_comma c = CONFIG.COMMANDS.is_hex_comma c.
Proof.
  destruct ic; [|reflexivity]. apply bool_eqb_elim. revert c. all_chars.
Qed.

Lemma cls_in_colon_dash ic c :
  cls_in ic CONFIG.COMMANDS.is_colon_dash c = CONFIG.COMMANDS.is_colon_dash c.
Proof.
  destruct ic; [|reflexivity]. apply bool_eqb_elim. revert c. all_chars.
Qed.

(** *** The shape of an [ls] line *)

Lemma exec_LS (kw w opt0 : jstr) :
  map to_upper kw = str "LS" ->
  forallb is_ws w = true ->
  forallb dot opt0 = true ->
  match opt0 with [] => true | c :: _ => negb (is_ws c) end = true ->
  exec CONFIG.COMMANDS.LS (kw ++ w ++ opt0) =
  Some {| m_text := kw ++ w ++ opt0; m_caps := [(1, opt0)] |}.
Proof.
  intros Hkw Hw Ho Hh. unfold CONFIG.COMMANDS.LS. rewrite exec_bol.
  assert (E : m true
                (lit "ls" +++ Star CONFIG.COMMANDS.ws
                 +++ Grp 1 (Star CONFIG.COMMANDS.any) +++ Eol)%re
                (kw ++ w ++ opt0) 0 [] (k0) =
              Some (List.length (kw ++ w ++ opt0), [(1, opt0)])).
  { rewrite m_seq. unfold lit. rewrite m_lit_ci by exact Hkw.
    rewrite m_seq. apply m_star_run; auto using cls_in_ws.
    rewrite m_seq, m_grp. apply m_star_run_end; auto using cls_in_dot.
    simpl m. unfold k0. rewrite firstn_span_end.
    rewrite !length_app. simpl. do 2 f_equal.
    apply (f_equal (@List.length ascii)) in Hkw. rewrite length_map in Hkw.
    simpl in Hkw. lia. }
  rewrite E. rewrite firstn_whole by reflexivity. reflexivity.
Qed.

(** *** Lines that begin with another keyword *)

Lemma exec_kw_mismatch (c : ascii) (K : jstr) (r : re) (a : ascii) (s : jstr) :
  chr_eq true c a = false ->
  exec {| pattern := Seq Bol (Seq (lit_chars (c :: K)) r); ignoreCase := true |}
       (a :: s) = None.
Proof.
  intros H. rewrite exec_bol. simpl lit_chars. rewrite !m_seq, m_chr_cons, H.
  reflexivity.
Qed.

Lemma kw_head (kw : jstr) (c : ascii) (K : jstr) :
  map to_upper kw = c :: K ->
  exists a kw', kw = a :: kw' /\ to_upper a = c /\ map to_upper kw' = K.
Proof.
  destruct kw as [|a kw']; simpl; [discriminate|].
  intros H. injection H as H1 H2. eauto.
Qed.

Lemma chr_eq_upper (c a : ascii) :
  chr_eq true c a = Ascii.eqb (to_upper c) (to_upper a).
Proof. reflexivity. Qed.

Lemma hex_head_not_ws (t rest : jstr) :
  t <> [] -> forallb is_hex t = true ->
  match t ++ rest with [] => true | c :: _ => negb (is_ws c) end = true.
Proof.
  destruct t as [|a t']; [congruence|]. simpl. intros _ H.
  apply andb_true_iff in H as [H _]. rewrite (hex_not_ws _ H). reflexivity.
Qed.

Lemma ws_not_hex_comma c :
  is_ws c = true -> CONFIG.COMMANDS.is_hex_comma c = false.
Proof.
  intros H. apply negb_true_iff. revert H. apply implb_elim. revert c.
  all_chars.
Qed.

Lemma ws_not_comma c : is_ws c = true -> chr_eq true "," c = false.
Proof.
  intros H. apply negb_true_iff. revert H. apply implb_elim. revert c.
  all_chars.
Qed.

Lemma hex_not_colon_dash c :
  is_hex c = true -> CONFIG.COMMANDS.is_colon_dash c = false.
Proof.
  intros H. apply negb_true_iff. revert H. apply implb_elim. revert c.
  all_chars.
Qed.

Lemma head_ws_app (w rest : jstr) (p : ascii -> bool) :
  w <> [] -> forallb is_ws w = true ->
  (forall c, is_ws c = true -> p c = false) ->
  match w ++ rest with [] => true | c :: _ => negb (p c) end = true.
Proof.
  intros Hn Hw Hp. destruct w as [|a w']; [congruence|]. simpl in *.
  apply andb_true_iff in Hw as [Ha _]. rewrite (Hp _ Ha). reflexivity.
Qed.

(** *** The shape of a [drop] line *)

Lemma exec_DROP (kw w idStr : jstr) :
  map to_upper kw = str "DROP" ->
  w <> [] -> forallb is_ws w = true ->
  idStr <> [] -> forallb is_hex idStr = true ->
  exec CONFIG.COMMANDS.DROP (kw ++ w ++ idStr) =
  Some {| m_text := kw ++ w ++ idStr; m_caps := [(1, idStr)] |}.
Proof.
  intros Hkw Hwn Hw Hin Hi. unfold CONFIG.COMMANDS.DROP. rewrite exec_bol.
  assert (E : m true
                (lit "drop" +++ plus CONFIG.COMMANDS.ws
                 +++ Grp 1 (plus CONFIG.COMMANDS.hex) +++ Eol)%re
                (kw ++ w ++ idStr) 0 [] k0 =
              Some (List.length (kw ++ w ++ idStr), [(1, idStr)])).
  { rewrite m_seq. unfold lit. rewrite m_lit_ci by exact Hkw.
    rewrite m_seq. apply m_plus_run; auto using cls_in_ws.
    { rewrite <- (app_nil_r idStr). apply hex_head_not_ws; assumption. }
    rewrite m_seq, m_grp. apply m_plus_run_end; auto using cls_in_hex.
    simpl m. unfold k0. rewrite firstn_span_end.
    rewrite !length_app. simpl. do 2 f_equal.
    apply (f_equal (@List.length ascii)) in Hkw. rewrite length_map in Hkw.
    simpl in Hkw. lia. }
  rewrite E. rewrite firstn_whole by reflexivity. reflexivity.
Qed.

(** A line whose first letter is not that of the keyword does not match. *)
Lemma exec_other_kw (c : ascii) (K : jstr) (r : re) (kw : jstr) (c' : ascii)
    (K' : jstr) (s : jstr) :
  map to_upper kw = c' :: K' ->
  Ascii.eqb (to_upper c) c' = false ->
  exec {| pattern := Seq Bol (Seq (lit_chars (c :: K)) r); ignoreCase := true |}
       (kw ++ s) = None.
Proof.
  intros Hkw Hc. apply kw_head in Hkw as (a & kw' & -> & Ha & _).
  rewrite <- app_comm_cons. apply exec_kw_mismatch.
  rewrite chr_eq_upper, Ha. exact Hc.
Qed.

Lemma LS_other_kw (kw s : jstr) (c' : ascii) (K' : jstr) :
  map to_upper kw = c' :: K' -> Ascii.eqb "L" c' = false ->
  exec CONFIG.COMMANDS.LS (kw ++ s) = None.
Proof. intros H1 H2. eapply (exec_other_kw "l" (str "s")); eassumption. Qed.

Lemma CMD_MAC_other_kw (kw s : jstr) (c' : ascii) (K' : jstr) :
  map to_upper kw = c' :: K' -> Ascii.eqb "C" c' = false ->
  exec CONFIG.COMMANDS.CMD_MAC (kw ++ s) = None.
Proof. intros H1 H2. eapply (exec_other_kw "c" (str "md")); eassumption. Qed.

Lemma CMD_ID_other_kw (kw s : jstr) (c' : ascii) (K' : jstr) :
  map to_upper kw = c' :: K' -> Ascii.eqb "C" c' = false ->
  exec CONFIG.COMMANDS.CMD_ID (kw ++ s) = None.
Proof. intros H1 H2. eapply (exec_other_kw "c" (str "md")); eassumption. Qed.

Lemma CMDALL_other_kw (kw s : jstr) (c' : ascii) (K' : jstr) :
  map to_upper kw = c' :: K' -> Ascii.eqb "C" c' = false ->
  exec CONFIG.COMMANDS.CMDALL (kw ++ s) = None.
Proof. intros H1 H2. eapply (exec_other_kw "c" (str "mdall")); eassumption. Qed.

(** ** The registry *)

Lemma map_get_delete (k : Z) (l : list (Z * session)) :
  map_get k (map_delete k l) = None.
Proof.
  induction l as [|[k' v] l IH]; simpl; [reflexivity|].
  destruct (k' =? k)%Z eqn:E; simpl; [exact IH|]. rewrite E. exact IH.
Qed.

Lemma map_get_delete_other (k k0 : Z) (l : list (Z * session)) :
  k0 <> k -> map_get k0 (map_delete k l) = map_get k0 l.
Proof.
  intros Hne. induction l as [|[k' v] l IH]; simpl; [reflexivity|].
  destruct (k' =? k)%Z eqn:E; simpl.
  - apply Z.eqb_eq in E. subst k'.
    destruct (k =? k0)%Z eqn:E0; [apply Z.eqb_eq in E0; congruence|exact IH].
  - rewrite IH. reflexivity.
Qed.

Lemma map_delete_update (k : Z) (f : session -> session)
    (l : list (Z * session)) :
  map_delete k
    (map (fun p => if (fst p =? k)%Z then (fst p, f (snd p)) else p) l) =
  map_delete k l.
Proof.
  induction l as [|[k' v] l IH]; simpl; [reflexivity|].
  destruct (k' =? k)%Z eqn:E; simpl; rewrite E; simpl; rewrite IH;
    reflexivity.
Qed.

Lemma find_update (sid : Z) (f : session -> session) (st : state) :
  findSessionById sid (update sid f st) =
  option_map f (findSessionById sid st).
Proof.
  unfold findSessionById, update. simpl.
  induction (sessions st) as [|[k' v] l IH]; simpl; [reflexivity|].
  destruct (k' =? sid)%Z eqn:E; simpl; rewrite E; [reflexivity|exact IH].
Qed.

Lemma find_update_other (sid k : Z) (f : session -> session) (st : state) :
  k <> sid ->
  findSessionById k (update sid f st) = findSessionById k st.
Proof.
  intros Hne. unfold findSessionById, update. simpl.
  induction (sessions st) as [|[k' v] l IH]; simpl; [reflexivity|].
  destruct (k' =? sid)%Z eqn:E; simpl.
  - apply Z.eqb_eq in E. subst k'.
    destruct (sid =? k)%Z eqn:E0; [apply Z.eqb_eq in E0; congruence|exact IH].
  - destruct (k' =? k)%Z; [reflexivity|exact IH].
Qed.

Lemma map_delete_absent (k : Z) (l : list (Z * session)) :
  map_get k l = None -> map_delete k l = l.
Proof.
  induction l as [|[k' v] l IH]; simpl; [reflexivity|].
  destruct (k' =? k)%Z; [discriminate|]. simpl. intros H. rewrite IH by exact H.
  reflexivity.
Qed.

(** The sessions left after the ['close'] of [sid]. *)
Lemma onClose_sessions (sid : Z) (st : state) :
  sessions (fst (onClose sid st)) = map_delete sid (sessions st).
Proof.
  unfold onClose. destruct (findSessionById sid st) as [s|] eqn:E; simpl.
  - apply (map_delete_update sid
             (fun x => set_status CONFIG.CLOSE (set_timer false x))).
  - symmetry. apply map_delete_absent. exact E.
Qed.

Lemma onClose_removes (sid : Z) (st : state) :
  findSessionById sid (fst (onClose sid st)) = None.
Proof.
  unfold findSessionById. rewrite onClose_sessions. apply map_get_delete.
Qed.

Lemma flat_map_singleton (A B : Type) (f : A -> B) (l : list A) :
  flat_map (fun x => [f x]) l = map f l.
Proof.
  induction l as [|a l IH]; simpl; [reflexivity|]. rewrite IH. reflexivity.
Qed.

Lemma ls_plain (now : Z) (kw : jstr) (st : state) :
  map to_upper kw = str "LS" ->
  processAdminCommand now kw st = (st, ls_lines now (sessions st)).
Proof.
  intros Hkw. unfold processAdminCommand.
  pose proof (@exec_LS kw [] [] Hkw eq_refl eq_refl eq_refl) as E.
  simpl app in E. rewrite app_nil_r in E. rewrite E.
  unfold group. simpl. unfold ls_lines. rewrite flat_map_singleton.
  reflexivity.
Qed.

(** ** parseId *)

Lemma digits_run (radix : Z) (s : jstr) :
  forall acc,
    forallb (digit_of radix) s = true ->
    digits radix s acc =
    match s with
    | [] => acc
    | _ :: _ =>
        Some (fold_left (fun a c => (radix * a + dval c)%Z) s
                (match acc with Some a => a | None => 0%Z end))
    end.
Proof.
  induction s as [|c s IH]; intros acc H; [reflexivity|].
  simpl in H. apply andb_true_iff in H as [Hc Hs].
  unfold digit_of in Hc. simpl digits. unfold dval at 1.
  destruct (digit_val c) as [d|] eqn:Ed; [|discriminate].
  rewrite Hc. rewrite IH by exact Hs.
  destruct s as [|c' s']; simpl; unfold dval; rewrite Ed; reflexivity.
Qed.

Lemma hex_digit_16 c : is_hex c = true -> digit_of 16 c = true.
Proof. apply implb_elim. revert c. all_chars. Qed.

Lemma dec_digit_10 c :
  is_hex c = true -> is_hex_letter c = false -> digit_of 10 c = true.
Proof.
  intros H1 H2.
  assert (A : is_hex c && negb (is_hex_letter c) = true)
    by (rewrite H1, H2; reflexivity).
  clear H1 H2. revert A. apply implb_elim. revert c. all_chars.
Qed.

Lemma hex_not_minus c : is_hex c = true -> Ascii.eqb c "-" = false.
Proof.
  intros H. apply negb_true_iff. revert H. apply implb_elim. revert c.
  all_chars.
Qed.

Lemma hex_not_plus c : is_hex c = true -> Ascii.eqb c "+" = false.
Proof.
  intros H. apply negb_true_iff. revert H. apply implb_elim. revert c.
  all_chars.
Qed.

Lemma hex_not_x c :
  is_hex c = true -> Ascii.eqb c "x" || Ascii.eqb c "X" = false.
Proof.
  intros H. apply negb_true_iff. revert H. apply implb_elim. revert c.
  all_chars.
Qed.

Lemma hex_not_x' c : is_hex c = true -> Ascii.eqb "x" c = false.
Proof.
  intros H. apply negb_true_iff. revert H. apply implb_elim. revert c.
  all_chars.
Qed.

(** On a run of hexadecimal digits nothing is stripped. *)
Lemma parseInt_hex_run (s : jstr) (radix : Z) :
  s <> [] -> forallb is_hex s = true ->
  forallb (digit_of radix) s = true ->
  parseInt s radix = Some (to_double (numeral radix s)).
Proof.
  intros Hn Hh Hd. destruct s as [|a t]; [congruence|].
  pose proof Hh as Hh'. simpl in Hh'. apply andb_true_iff in Hh' as [Ha Ht].
  unfold parseInt. simpl drop_ws. rewrite (hex_not_ws _ Ha).
  unfold strip_sign. rewrite (hex_not_minus _ Ha), (hex_not_plus _ Ha).
  assert (E0 : strip_0x (a :: t) = a :: t).
  { unfold strip_0x. destruct t as [|x t']; [reflexivity|].
    simpl in Ht. apply andb_true_iff in Ht as [Hx _].
    rewrite (hex_not_x _ Hx), andb_false_r. reflexivity. }
  rewrite E0.
  assert (E : digits radix (a :: t) None = Some (numeral radix (a :: t))).
  { rewrite digits_run by exact Hd. reflexivity. }
  destruct (radix =? 16)%Z; rewrite E; cbn [option_map];
    rewrite Z.mul_1_l; reflexivity.
Qed.

Lemma startsWith_0x_hex (s : jstr) :
  forallb is_hex s = true -> startsWith (str "0x") s = false.
Proof.
  destruct s as [|a [|x t]]; intros H; unfold str;
    cbn [list_ascii_of_string startsWith]; try reflexivity.
  - apply andb_false_r.
  - cbn [forallb] in H.
    apply andb_true_iff in H as [_ H]. apply andb_true_iff in H as [Hx _].
    rewrite (hex_not_x' _ Hx). simpl. apply andb_false_r.
Qed.

Lemma forallb_dec_digits (s : jstr) :
  forallb is_hex s = true -> existsb is_hex_letter s = false ->
  forallb (digit_of 10) s = true.
Proof.
  induction s as [|c s IH]; simpl; [reflexivity|]. intros H1 H2.
  apply andb_true_iff in H1 as [Hc Hs]. apply orb_false_iff in H2 as [Lc Ls].
  rewrite (dec_digit_10 _ Hc Lc). simpl. apply IH; assumption.
Qed.

Lemma forallb_hex_digits (s : jstr) :
  forallb is_hex s = true -> forallb (digit_of 16) s = true.
Proof.
  induction s as [|c s IH]; simpl; [reflexivity|]. intros H1.
  apply andb_true_iff in H1 as [Hc Hs].
  rewrite (hex_digit_16 _ Hc). simpl. apply IH; assumption.
Qed.

Lemma parseId_hex_run (s : jstr) :
  s <> [] -> forallb is_hex s = true ->
  parseId s =
  Some (to_double (numeral (if existsb is_hex_letter s then 16 else 10) s)).
Proof.
  intros Hn Hh. unfold parseId. rewrite (startsWith_0x_hex _ Hh). simpl orb.
  destruct (existsb is_hex_letter s) eqn:E.
  - apply parseInt_hex_run; auto using forallb_hex_digits.
  - apply parseInt_hex_run; auto using forallb_dec_digits.
Qed.

(** ** Dropping a session *)

Lemma drop_line (now : Z) (kw w idStr : jstr) (st : state) :
  map to_upper kw = str "DROP" ->
  w <> [] -> forallb is_ws w = true ->
  idStr <> [] -> forallb is_hex idStr = true ->
  processAdminCommand now (kw ++ w ++ idStr) st = dropById idStr st.
Proof.
  intros Hkw Hwn Hw Hin Hi. unfold processAdminCommand.
  rewrite (LS_other_kw (c' := "D") (K' := str "ROP") _ _ Hkw eq_refl).
  rewrite (CMD_MAC_other_kw (c' := "D") (K' := str "ROP") _ _ Hkw eq_refl).
  rewrite (CMD_ID_other_kw (c' := "D") (K' := str "ROP") _ _ Hkw eq_refl).
  rewrite (CMDALL_other_kw (c' := "D") (K' := str "ROP") _ _ Hkw eq_refl).
  rewrite exec_DROP by assumption. reflexivity.
Qed.

(** C9.  A [drop] line whose identifier names no registered session
    changes nothing and broadcasts nothing.  When it names a registered
    session, the drop event is broadcast and the socket of that session is
    ended and destroyed; once the ['close'] event that follows has been
    handled, the session is out of the registry and [ls] prints the lines
    of the other sessions only. *)
Theorem drop_by_id (now : Z) (kw w idStr : jstr) (st : state) :
  map to_upper kw = str "DROP" ->
  w <> [] -> forallb is_ws w = true ->
  idStr <> [] -> forallb is_hex idStr = true ->
  exists id0,
    parseId idStr = Some id0 /\
    (findSessionById id0 st = None ->
     processAdminCommand now (kw ++ w ++ idStr) st = (st, [])) /\
    (forall s, findSessionById id0 st = Some s ->
       let st1 := update id0 end_destroy st in
       let st2 := fst (onClose id0 st1) in
       processAdminCommand now (kw ++ w ++ idStr) st =
         (st1,
          [Log (CONFIG.LOG_PREFIX.DROP ++ sp ++ dec id0);
           SockEnd (id s) (str "Connection dropped by admin." ++ nl);
           SockDestroy (id s)]) /\
       option_map (fun x => destroyed (socket x)) (findSessionById id0 st1)
         = Some true /\
       findSessionById id0 st2 = None /\
       forall now' kw', map to_upper kw' = str "LS" ->
         processAdminCommand now' kw' st2 =
           (st2, ls_lines now' (map_delete id0 (sessions st)))).
Proof.
  intros Hkw Hwn Hw Hin Hi.
  exists (to_double
            (numeral (if existsb is_hex_letter idStr then 16 else 10) idStr)).
  pose proof (parseId_hex_run Hin Hi) as Hp. split; [exact Hp|].
  rewrite drop_line by assumption. unfold dropById. rewrite Hp. split.
  - intros ->. reflexivity.
  - intros s Hs. rewrite Hs. cbv zeta. split; [reflexivity|].
    split; [rewrite find_update, Hs; reflexivity|].
    split; [apply onClose_removes|].
    intros now' kw' Hkw'. rewrite ls_plain by exact Hkw'.
    rewrite onClose_sessions. unfold update. simpl sessions.
    rewrite (map_delete_update _ end_destroy). reflexivity.
Qed.

Lemma drop_by_id_witness :
  exists id0,
    parseId (str "3E9") = Some id0 /\
    (findSessionById id0 demo_state = None ->
     processAdminCommand 0 (str "Drop" ++ str " " ++ str "3E9") demo_state
       = (demo_state, [])) /\
    (forall s, findSessionById id0 demo_state = Some s ->
       let st1 := update id0 end_destroy demo_state in
       let st2 := fst (onClose id0 st1) in
       processAdminCommand 0 (str "Drop" ++ str " " ++ str "3E9") demo_state =
         (st1,
          [Log (CONFIG.LOG_PREFIX.DROP ++ sp ++ dec id0);
           SockEnd (id s) (str "Connection dropped by admin." ++ nl);
           SockDestroy (id s)]) /\
       option_map (fun x => destroyed (socket x)) (findSessionById id0 st1)
         = Some true /\
       findSessionById id0 st2 = None /\
       forall now' kw', map to_upper kw' = str "LS" ->
         processAdminCommand now' kw' st2 =
           (st2, ls_lines now' (map_delete id0 (sessions demo_state)))).
Proof.
  apply (@drop_by_id 0%Z (str "Drop") (str " ") (str "3E9") demo_state);
    first [reflexivity | discriminate].
Defined.

(** The patterns take hexadecimal digits only: a target written with the
    0x prefix matches none of them and the line is passed over. *)
Lemma drop_0x_unrecognized (now : Z) (st : state) :
  processAdminCommand now (str "drop 0x3E9") st = (st, []).
Proof. reflexivity. Qed.

(** ** The validation timer *)

(** C3.  The callback of the validation timer, run for a registered
    session.  With [mac] still at the sentinel it broadcasts the not-valid
    event, sends the rejection text with [socket.end] and destroys the
    socket, so that the ['close'] handler which Node then runs takes the
    session out of the registry.  With [mac] set it does nothing.  The
    last part is the same at the level of the timer event, which reaches
    the callback while the timer is pending. *)
Theorem validation_timer (sid : Z) (st : state) (s : session) :
  findSessionById sid st = Some s ->
  (mac s = CONFIG.SESSION_DEFAULTS.MAC ->
   let st1 := update sid end_destroy st in
   validationTimeout sid st =
     (st1,
      [Log (CONFIG.LOG_PREFIX.DEV_NOT_VALID ++ sp ++ addr s ++ sp ++ str "NA");
       SockEnd sid (str "Not Valid" ++ nl);
       SockDestroy sid]) /\
   option_map (fun x => destroyed (socket x)) (findSessionById sid st1)
     = Some true /\
   findSessionById sid (fst (onClose sid st1)) = None) /\
  (mac s <> CONFIG.SESSION_DEFAULTS.MAC ->
   validationTimeout sid st = (st, [])) /\
  (timer s = true -> mac s = CONFIG.SESSION_DEFAULTS.MAC ->
   snd (onValidationTimer sid st) =
     [Log (CONFIG.LOG_PREFIX.DEV_NOT_VALID ++ sp ++ addr s ++ sp ++ str "NA");
      SockEnd sid (str "Not Valid" ++ nl);
      SockDestroy sid]).
Proof.
  intros Hs. split; [|split].
  - intros Hm. cbv zeta. unfold validationTimeout. rewrite Hs, Hm.
    rewrite jstr_eqb_refl. split; [reflexivity|].
    split; [rewrite find_update, Hs; reflexivity|apply onClose_removes].
  - intros Hm. unfold validationTimeout. rewrite Hs.
    rewrite (jstr_eqb_neq Hm). reflexivity.
  - intros Ht Hm. unfold onValidationTimer. rewrite Hs, Ht.
    unfold validationTimeout. rewrite find_update, Hs. cbn [option_map].
    change (mac (set_timer false s)) with (mac s).
    change (addr (set_timer false s)) with (addr s).
    rewrite Hm, jstr_eqb_refl. reflexivity.
Qed.

Lemma validation_timer_witness :
  (mac fresh_session = CONFIG.SESSION_DEFAULTS.MAC ->
   let st1 := update 1001 end_destroy fresh_state in
   validationTimeout 1001 fresh_state =
     (st1,
      [Log (CONFIG.LOG_PREFIX.DEV_NOT_VALID ++ sp ++ addr fresh_session ++ sp
            ++ str "NA");
       SockEnd 1001 (str "Not Valid" ++ nl);
       SockDestroy 1001]) /\
   option_map (fun x => destroyed (socket x)) (findSessionById 1001 st1)
     = Some true /\
   findSessionById 1001 (fst (onClose 1001 st1)) = None) /\
  (mac fresh_session <> CONFIG.SESSION_DEFAULTS.MAC ->
   validationTimeout 1001 fresh_state = (fresh_state, [])) /\
  (timer fresh_session = true ->
   mac fresh_session = CONFIG.SESSION_DEFAULTS.MAC ->
   snd (onValidationTimer 1001 fresh_state) =
     [Log (CONFIG.LOG_PREFIX.DEV_NOT_VALID ++ sp ++ addr fresh_session ++ sp
           ++ str "NA");
      SockEnd 1001 (str "Not Valid" ++ nl);
      SockDestroy 1001]).
Proof.
  apply (@validation_timer 1001%Z fresh_state fresh_session). reflexivity.
Defined.

(** The timer event reaches the callback only while the timer is pending:
    [clearTimeout] in the identification branch and in the ['close'] handler
    keeps a cleared timer from firing. *)
Lemma cleared_timer_silent (sid : Z) (st : state) (s : session) :
  findSessionById sid st = Some s -> timer s = false ->
  onValidationTimer sid st = (st, []).
Proof.
  intros Hs Ht. unfold onValidationTimer. rewrite Hs, Ht. reflexivity.
Qed.

(** ** Session identifiers *)

Lemma map_get_set (k : Z) (v : session) (l : list (Z * session)) :
  map_get k (map_set k v l) = Some v.
Proof.
  induction l as [|[k' v'] l IH]; cbn [map_set map_get].
  - rewrite Z.eqb_refl. reflexivity.
  - destruct (k' =? k)%Z eqn:E; cbn [map_get].
    + rewrite Z.eqb_refl. reflexivity.
    + rewrite E. exact IH.
Qed.

Lemma handleRemoteConnection_registers (a : jstr) (now : Z) (st : state) :
  let st1 := fst (handleRemoteConnection a now st) in
  sessionIdCounter st1 = (sessionIdCounter st + 1)%Z /\
  exists s, findSessionById (sessionIdCounter st1) st1 = Some s /\
            id s = sessionIdCounter st1.
Proof.
  cbv zeta. unfold handleRemoteConnection, findSessionById.
  cbn [fst sessionIdCounter sessions]. split; [reflexivity|].
  rewrite map_get_set. eexists. split; reflexivity.
Qed.

Lemma dropById_counter (idStr : jstr) (st : state) :
  sessionIdCounter (fst (dropById idStr st)) = sessionIdCounter st.
Proof.
  unfold dropById. destruct (parseId idStr) as [k|]; [|reflexivity].
  destruct (findSessionById k st); reflexivity.
Qed.

Lemma processAdminCommand_counter (now : Z) (line : jstr) (st : state) :
  sessionIdCounter (fst (processAdminCommand now line st)) =
  sessionIdCounter st.
Proof.
  unfold processAdminCommand.
  destruct (exec CONFIG.COMMANDS.LS line); [reflexivity|].
  destruct (exec CONFIG.COMMANDS.CMD_MAC line); [reflexivity|].
  destruct (exec CONFIG.COMMANDS.CMD_ID line); [reflexivity|].
  destruct (exec CONFIG.COMMANDS.CMDALL line); [reflexivity|].
  destruct (exec CONFIG.COMMANDS.DROP line); [apply dropById_counter|].
  reflexivity.
Qed.

(** Only a new connection moves the counter, and by one. *)
Lemma handle_counter (e : event) (st : state) :
  sessionIdCounter (fst (handle e st)) =
  match e with
  | Connect _ _ => (sessionIdCounter st + 1)%Z
  | _ => sessionIdCounter st
  end.
Proof.
  destruct e as [a now|sid chunk|sid|sid|sid|sid e0|sid|now line|now line];
    simpl.
  - reflexivity.
  - unfold onData. destruct (findSessionById sid st) as [s|]; [|reflexivity].
    destruct (is_empty (trim chunk)); [reflexivity|].
    destruct (exec patterns.mac (trim chunk)); [|reflexivity].
    destruct (jstr_eqb (mac s) CONFIG.SESSION_DEFAULTS.MAC); reflexivity.
  - unfold onValidationTimer.
    destruct (findSessionById sid st) as [s|]; [|reflexivity].
    destruct (timer s); [|reflexivity]. unfold validationTimeout.
    destruct (findSessionById sid (update sid (set_timer false) st)) as [s'|];
      [|reflexivity].
    destruct (jstr_eqb (mac s') CONFIG.SESSION_DEFAULTS.MAC); reflexivity.
  - unfold onTimeout. destruct (findSessionById sid st); reflexivity.
  - unfold onEnd. destruct (findSessionById sid st); reflexivity.
  - unfold onError. destruct (findSessionById sid st); reflexivity.
  - unfold onClose. destruct (findSessionById sid st); reflexivity.
  - unfold onAdminLine. destruct (is_empty (trim line)); [reflexivity|].
    pose proof (processAdminCommand_counter now (trim line) st) as H.
    destruct (processAdminCommand now (trim line) st) as [st' eff].
    exact H.
  - apply processAdminCommand_counter.
Qed.

Lemma created_from (es : list event) :
  forall st,
    created es st =
    map (nth_id (sessionIdCounter st)) (seq 0 (List.length (created es st))).
Proof.
  induction es as [|e es IH]; intros st; [reflexivity|].
  simpl created. pose proof (handle_counter e st) as Hc.
  destruct e; rewrite (IH (fst (handle _ st))) at 1; rewrite Hc;
    try reflexivity.
  simpl List.length. simpl seq. simpl map. f_equal.
  - unfold nth_id. lia.
  - rewrite <- seq_shift, map_map. apply map_ext. intros n.
    unfold nth_id. lia.
Qed.

Lemma nth_id_sorted (base : Z) (n k : nat) :
  StronglySorted Z.lt (map (nth_id base) (seq k n)).
Proof.
  revert k. induction n as [|n IH]; intros k; simpl; constructor.
  - apply IH.
  - apply Forall_forall. intros x Hx. apply in_map_iff in Hx as (j & <- & Hj).
    apply in_seq in Hj. unfold nth_id. lia.
Qed.

Lemma sorted_NoDup (l : list Z) : StronglySorted Z.lt l -> NoDup l.
Proof.
  induction 1 as [|x l Hs IH Hx]; constructor; [|exact IH].
  intros Hin. rewrite Forall_forall in Hx. specialize (Hx _ Hin). lia.
Qed.

(** C4.  Along every run of the server from its initial state, whatever
    the events between the connections (closes and removals among them),
    the n-th session created gets the identifier 1001 + n: the first gets
    1001, each later one a strictly larger identifier, and none is given
    twice.  The last part says what [created] collects: the value of the
    counter after a connection is the [id] of the session that the
    connection registered, under that key. *)
Theorem session_ids_fresh (es : list event) :
  let ids := created es initial_state in
  ids = map (fun n => (1001 + Z.of_nat n)%Z) (seq 0 (List.length ids)) /\
  StronglySorted Z.lt ids /\
  NoDup ids /\
  Forall (fun k => (0 < k)%Z) ids /\
  (forall a now st,
     let st1 := fst (handleRemoteConnection a now st) in
     sessionIdCounter st1 = (sessionIdCounter st + 1)%Z /\
     exists s, findSessionById (sessionIdCounter st1) st1 = Some s /\
               id s = sessionIdCounter st1).
Proof.
  cbv zeta. pose proof (created_from es initial_state) as H.
  assert (E : created es initial_state =
              map (fun n => (1001 + Z.of_nat n)%Z)
                (seq 0 (List.length (created es initial_state)))).
  { rewrite H at 1. apply map_ext. intros n. unfold nth_id. simpl. lia. }
  assert (S0 : StronglySorted Z.lt (created es initial_state)).
  { rewrite H. apply nth_id_sorted. }
  split; [exact E|]. split; [exact S0|]. split; [apply sorted_NoDup, S0|].
  split; [|apply handleRemoteConnection_registers].
  rewrite E. apply Forall_forall. intros x Hx.
  apply in_map_iff in Hx as (j & <- & _). lia.
Qed.

(** ** Telemetry fields *)

(** C5.  The session object that [handleRemoteConnection] creates carries
    the sentinel in [trace], [fwVer], [bleMac] and [wlanFwVer], but
    has no [wifiMac] property at all, although [SESSION_DEFAULTS] names the
    sentinel for it too. *)
Theorem new_session_wifiMac_undefined (a : jstr) (now : Z) (st : state) :
  exists s,
    findSessionById (sessionIdCounter st + 1)
      (fst (handleRemoteConnection a now st)) = Some s /\
    trace s = str "NA" /\ fwVer s = str "NA" /\ bleMac s = str "NA" /\
    wlanFwVer s = str "NA" /\
    wifiMac s = None /\
    CONFIG.SESSION_DEFAULTS.WIFI_MAC = str "NA".
Proof.
  unfold handleRemoteConnection, findSessionById.
  cbn [fst sessionIdCounter sessions]. rewrite map_get_set.
  eexists. split; [reflexivity|]. repeat split.
Qed.

(** Every telemetry pattern is tried on every line, whatever [mac] is: the
    field of a pattern that matches takes the captured text, the field of a
    pattern that does not match keeps its value. *)
Lemma telemetry_all_fields (line : jstr) (s : session) :
  let s' := telemetry_all line s in
  fwVer s' = match exec patterns.firmwareVersion line with
             | Some mt => group 1 mt | None => fwVer s end /\
  bleMac s' = match exec patterns.bleMac line with
              | Some mt => group 1 mt | None => bleMac s end /\
  wifiMac s' = match exec patterns.wifiMac line with
               | Some mt => Some (group 1 mt) | None => wifiMac s end /\
  wlanFwVer s' = match exec patterns.wlanFwVer line with
                 | Some mt => group 1 mt | None => wlanFwVer s end /\
  trace s' = match exec patterns.trace line with
             | Some mt => group 1 mt | None => trace s end /\
  mac s' = mac s /\ token s' = token s /\ addr s' = addr s /\
  id s' = id s /\ timer s' = timer s /\ socket s' = socket s.
Proof.
  cbv zeta. unfold telemetry_all, telemetry.
  destruct (exec patterns.firmwareVersion line);
    destruct (exec patterns.bleMac line);
    destruct (exec patterns.wifiMac line);
    destruct (exec patterns.wlanFwVer line);
    destruct (exec patterns.trace line); repeat split.
Qed.

(** ** Lines and chunks *)

(** C8.  The ['data'] callback takes each chunk as one line.  A chunk that
    holds two lines is echoed once, new line inside, and its second line
    is not seen by the anchored [TRACE] pattern; a line that arrives in two
    chunks is handled as two lines, neither of which matches.  The same
    line arriving alone in one chunk sets [trace]. *)
Theorem data_chunk_is_one_line :
  onData 1001 (line_of "RESULT:0" ++ line_of "TRACE=7") fresh_state =
    (fresh_state,
     [Log (str "[MGS LINE][1001][NA] RESULT:0" ++ nl ++ str "TRACE=7")]) /\
  option_map trace
    (findSessionById 1001
       (fst (run [Data 1001 (str "TRACE="); Data 1001 (line_of "7")]
               fresh_state))) = Some (str "NA") /\
  option_map trace
    (findSessionById 1001 (fst (onData 1001 (line_of "TRACE=7") fresh_state)))
    = Some (str "7").
Proof. repeat split; vm_compute; reflexivity. Qed.

(** ** What a match consumes *)

Lemma mstar_consumes (body : matcher) :
  consumes 0 body ->
  forall fuel, consumes 0 (fun s i cs k => mstar fuel body s i cs k).
Proof.
  intros Hb fuel. induction fuel as [|f IH]; intros s i cs k x H.
  - simpl in H. exists s, i, cs. repeat split; [exact H|lia].
  - rewrite mstar_S in H.
    destruct (body s i cs
                (fun s' i' cs' =>
                   if Nat.eqb i' i then None else mstar f body s' i' cs' k))
      as [y|] eqn:E.
    + injection H as ->. apply Hb in E as (s1 & i1 & cs1 & E1 & L1 & T1).
      destruct (Nat.eqb i1 i); [discriminate|].
      apply IH in E1 as (s2 & i2 & cs2 & E2 & L2 & T2).
      exists s2, i2, cs2. repeat split; [exact E2|lia|lia].
    + exists s, i, cs. repeat split; [exact H|lia].
Qed.

Lemma consumes_weaken (n n' : nat) (body : matcher) :
  n' <= n -> consumes n body -> consumes n' body.
Proof.
  intros Hn Hb s i cs k x H. apply Hb in H as (s' & i' & cs' & E & L & T).
  exists s', i', cs'. repeat split; [exact E|lia|exact T].
Qed.

Lemma m_consumes (ic : bool) (r : re) : consumes (minlen r) (m ic r).
Proof.
  induction r as [|c|p| | |r1 IH1 r2 IH2|r1 IH1 r2 IH2|r1 IH1|n r1 IH1];
    intros s i cs k x H; simpl minlen.
  - exists s, i, cs. repeat split; [exact H|lia].
  - destruct s as [|a s]; [discriminate|]. rewrite m_chr_cons in H.
    destruct (chr_eq ic c a); [|discriminate].
    exists s, (S i), cs. repeat split; [exact H|simpl; lia|simpl; lia].
  - destruct s as [|a s]; [discriminate|]. rewrite m_cls_cons in H.
    destruct (cls_in ic p a); [|discriminate].
    exists s, (S i), cs. repeat split; [exact H|simpl; lia|simpl; lia].
  - simpl in H. destruct (Nat.eqb i 0); [|discriminate].
    exists s, i, cs. repeat split; [exact H|lia].
  - simpl in H. destruct s; [|discriminate].
    exists [], i, cs. repeat split; [exact H|simpl; lia].
  - rewrite m_seq in H. apply IH1 in H as (s1 & i1 & cs1 & E1 & L1 & T1).
    apply IH2 in E1 as (s2 & i2 & cs2 & E2 & L2 & T2).
    exists s2, i2, cs2. repeat split; [exact E2|lia|lia].
  - simpl in H. destruct (m ic r1 s i cs k) as [y|] eqn:E.
    + injection H as ->. apply IH1 in E as (s1 & i1 & cs1 & E1 & L1 & T1).
      exists s1, i1, cs1. repeat split; [exact E1|lia|lia].
    + apply IH2 in H as (s1 & i1 & cs1 & E1 & L1 & T1).
      exists s1, i1, cs1. repeat split; [exact E1|lia|lia].
  - rewrite m_star in H.
    apply (mstar_consumes (consumes_weaken (Nat.le_0_l _) IH1)) in H.
    exact H.
  - rewrite m_grp in H. apply IH1 in H as (s1 & i1 & cs1 & E1 & L1 & T1).
    eexists s1, i1, _. repeat split; [exact E1|lia|lia].
Qed.

(** The text of a match is at least as long as the shortest word of the
    pattern. *)
Lemma exec_from_length (ic : bool) (r : re) (s : jstr) :
  forall i mt,
    exec_from ic r s i = Some mt -> minlen r <= List.length (m_text mt).
Proof.
  induction s as [|a s IH]; intros i mt H; simpl in H.
  - destruct (m ic r [] i [] (fun _ i' cs => Some (i', cs))) as [[e cs]|] eqn:E;
      [|discriminate].
    injection H as <-. apply m_consumes in E as (s1 & i1 & cs1 & E1 & L1 & T1).
    simpl in L1. simpl. rewrite firstn_nil. simpl. lia.
  - destruct (m ic r (a :: s) i [] (fun _ i' cs => Some (i', cs)))
      as [[e cs]|] eqn:E.
    + injection H as <-.
      apply m_consumes in E as (s1 & i1 & cs1 & E1 & L1 & T1).
      injection E1 as -> ->. cbn [m_text]. rewrite length_firstn. lia.
    + eapply IH. exact H.
Qed.

Lemma exec_length (rx : regex) (s : jstr) (mt : match_result) :
  exec rx s = Some mt -> minlen (pattern rx) <= List.length (m_text mt).
Proof. apply exec_from_length. Qed.

(** A matched MAC address has at least twelve characters, so it is never
    the sentinel. *)
Lemma mac_match_not_sentinel (line : jstr) (mt : match_result) :
  exec patterns.mac line = Some mt ->
  m_text mt <> CONFIG.SESSION_DEFAULTS.MAC.
Proof.
  intros H E. apply exec_length in H. rewrite E in H.
  change (minlen (pattern patterns.mac)) with 12 in H. simpl in H. lia.
Qed.

(** ** Identification *)

Lemma find_update_const (sid : Z) (x s : session) (st : state) :
  findSessionById sid st = Some s ->
  findSessionById sid (update sid (fun _ => x) st) = Some x.
Proof. intros H. rewrite find_update, H. reflexivity. Qed.

Lemma run_app (es1 es2 : list event) (st : state) :
  run (es1 ++ es2) st =
  let '(st1, e1) := run es1 st in
  let '(st2, e2) := run es2 st1 in
  (st2, e1 ++ e2).
Proof.
  revert st. induction es1 as [|e es1 IH]; intros st; simpl.
  - destruct (run es2 st). reflexivity.
  - destruct (handle e st) as [st1 eff1]. rewrite IH.
    destruct (run es1 st1) as [st2 eff2]. destruct (run es2 st2).
    rewrite app_assoc. reflexivity.
Qed.

Lemma mac_exec_nil : exec patterns.mac [] = None.
Proof. reflexivity. Qed.

(** A line on a session that is already identified: echo only. *)
Lemma onData_identified (sid : Z) (c : jstr) (st : state) (s : session) :
  findSessionById sid st = Some s ->
  mac s <> CONFIG.SESSION_DEFAULTS.MAC ->
  exists s',
    findSessionById sid (fst (onData sid c st)) = Some s' /\
    mac s' = mac s /\ token s' = token s /\ addr s' = addr s /\
    timer s' = timer s /\
    beyond_echo (snd (onData sid c st)) = [].
Proof.
  intros Hs Hm. unfold onData. rewrite Hs.
  destruct (is_empty (trim c)).
  { exists s. simpl. rewrite Hs. repeat split. }
  rewrite (jstr_eqb_neq Hm).
  assert (E : (match exec patterns.mac (trim c) with
               | Some _ => (s, @nil effect)
               | None => (s, [])
               end) = (s, [])) by (destruct (exec patterns.mac (trim c)); reflexivity).
  rewrite E. cbn [fst snd].
  exists (telemetry_all (trim c) s).
  erewrite find_update_const by exact Hs.
  pose proof (telemetry_all_fields (trim c) s) as T. cbv zeta in T.
  destruct T as (_ & _ & _ & _ & _ & T1 & T2 & T3 & _ & T4 & _).
  repeat split; assumption.
Qed.

(** A line without a MAC address on an unidentified session: echo only. *)
Lemma onData_no_mac (sid : Z) (c : jstr) (st : state) (s : session) :
  findSessionById sid st = Some s ->
  exec patterns.mac (trim c) = None ->
  exists s',
    findSessionById sid (fst (onData sid c st)) = Some s' /\
    mac s' = mac s /\ token s' = token s /\ addr s' = addr s /\
    timer s' = timer s /\
    beyond_echo (snd (onData sid c st)) = [].
Proof.
  intros Hs Hx. unfold onData. rewrite Hs.
  destruct (is_empty (trim c)).
  { exists s. simpl. rewrite Hs. repeat split. }
  rewrite Hx. cbn [fst snd].
  exists (telemetry_all (trim c) s).
  erewrite find_update_const by exact Hs.
  pose proof (telemetry_all_fields (trim c) s) as T. cbv zeta in T.
  destruct T as (_ & _ & _ & _ & _ & T1 & T2 & T3 & _ & T4 & _).
  repeat split; assumption.
Qed.

(** The identifying line. *)
Lemma onData_identifies (sid : Z) (c : jstr) (st : state) (s : session)
    (mt : match_result) :
  findSessionById sid st = Some s ->
  mac s = CONFIG.SESSION_DEFAULTS.MAC ->
  exec patterns.mac (trim c) = Some mt ->
  exists s',
    findSessionById sid (fst (onData sid c st)) = Some s' /\
    mac s' = m_text mt /\ token s' = remove_all ":" (m_text mt) /\
    addr s' = addr s /\ timer s' = false /\
    beyond_echo (snd (onData sid c st)) =
      [Log (CONFIG.LOG_PREFIX.MAC ++ sp ++ m_text mt ++ sp ++ addr s);
       SockWrite sid (str "SYS " ++ nl);
       SockWrite sid (str "SYS DBG " ++ nl);
       ClearTimeout sid].
Proof.
  intros Hs Hm Hx. unfold onData. rewrite Hs.
  destruct (is_empty (trim c)) eqn:Ee.
  { destruct (trim c); [|discriminate]. rewrite mac_exec_nil in Hx.
    discriminate. }
  rewrite Hx, Hm, jstr_eqb_refl. cbn [fst snd].
  eexists. erewrite find_update_const by exact Hs. split; [reflexivity|].
  match goal with
  | |- context [telemetry_all ?l ?x] =>
      pose proof (telemetry_all_fields l x) as T
  end.
  cbv zeta in T. destruct T as (_ & _ & _ & _ & _ & T1 & T2 & T3 & _ & T4 & _).
  rewrite T1, T2, T3, T4. repeat split.
Qed.

Lemma identified_stays (sid : Z) (chunks : list jstr) :
  forall st s,
    findSessionById sid st = Some s ->
    mac s <> CONFIG.SESSION_DEFAULTS.MAC ->
    exists s',
      findSessionById sid (fst (run (data_events sid chunks) st)) = Some s' /\
      mac s' = mac s /\ token s' = token s /\ addr s' = addr s /\
      timer s' = timer s /\
      beyond_echo (snd (run (data_events sid chunks) st)) = [].
Proof.
  induction chunks as [|c chunks IH]; intros st s Hs Hm.
  - exists s. simpl. repeat split. exact Hs.
  - destruct (@onData_identified sid c st s Hs Hm) as (s1 & F1 & M1 & K1 & A1 & T1 & B1).
    assert (Hm1 : mac s1 <> CONFIG.SESSION_DEFAULTS.MAC) by congruence.
    destruct (IH _ s1 F1 Hm1) as (s2 & F2 & M2 & K2 & A2 & T2 & B2).
    exists s2. simpl run. change (handle (Data sid c) st) with (onData sid c st).
    destruct (onData sid c st) as [st1 eff1]. cbn [fst snd] in *.
    fold (data_events sid chunks).
    destruct (run (data_events sid chunks) st1) as [st2 eff2].
    cbn [fst snd] in *. unfold beyond_echo in *. rewrite filter_app, B1, B2.
    repeat split; congruence.
Qed.

Lemma unidentified_stays (sid : Z) (chunks : list jstr) :
  forall st s,
    findSessionById sid st = Some s ->
    (forall c, In c chunks -> exec patterns.mac (trim c) = None) ->
    exists s',
      findSessionById sid (fst (run (data_events sid chunks) st)) = Some s' /\
      mac s' = mac s /\ token s' = token s /\ addr s' = addr s /\
      timer s' = timer s /\
      beyond_echo (snd (run (data_events sid chunks) st)) = [].
Proof.
  induction chunks as [|c chunks IH]; intros st s Hs Hn.
  - exists s. simpl. repeat split. exact Hs.
  - assert (Hc : exec patterns.mac (trim c) = None) by (apply Hn; left; reflexivity).
    destruct (@onData_no_mac sid c st s Hs Hc) as (s1 & F1 & M1 & K1 & A1 & T1 & B1).
    assert (Hn' : forall c', In c' chunks -> exec patterns.mac (trim c') = None)
      by (intros c' Hc'; apply Hn; right; exact Hc').
    destruct (IH _ s1 F1 Hn') as (s2 & F2 & M2 & K2 & A2 & T2 & B2).
    exists s2. simpl run. change (handle (Data sid c) st) with (onData sid c st).
    destruct (onData sid c st) as [st1 eff1]. cbn [fst snd] in *.
    fold (data_events sid chunks).
    destruct (run (data_events sid chunks) st1) as [st2 eff2].
    cbn [fst snd] in *. unfold beyond_echo in *. rewrite filter_app, B1, B2.
    repeat split; congruence.
Qed.

(** ** The order of the registry *)

Lemma map_set_fresh (k : Z) (v : session) (l : list (Z * session)) :
  Forall (fun p => (fst p < k)%Z) l -> map_set k v l = l ++ [(k, v)].
Proof.
  induction 1 as [|[k' v'] l Hk Hl IH]; [reflexivity|]. cbn [map_set app].
  simpl in Hk. destruct (k' =? k)%Z eqn:E; [apply Z.eqb_eq in E; lia|].
  rewrite IH. reflexivity.
Qed.

Lemma sorted_snoc (l : list Z) (k : Z) :
  StronglySorted Z.lt l -> Forall (fun x => (x < k)%Z) l ->
  StronglySorted Z.lt (l ++ [k]).
Proof.
  induction 1 as [|x l Hs IH Hx]; intros Hk; simpl.
  - constructor; constructor.
  - inversion Hk as [|? ? Hxk Hlk]; subst. constructor; [apply IH; exact Hlk|].
    apply Forall_app. split; [exact Hx|]. constructor; [exact Hxk|constructor].
Qed.

Lemma registry_ok_connect (a : jstr) (now : Z) (st : state) :
  registry_ok st -> registry_ok (fst (handleRemoteConnection a now st)).
Proof.
  intros [Hs Hf]. unfold handleRemoteConnection, registry_ok.
  cbn [fst sessions sessionIdCounter].
  assert (Hlt : Forall (fun p => (fst p < sessionIdCounter st + 1)%Z)
                  (sessions st)).
  { eapply Forall_impl; [|exact Hf]. intros p [Hp _]. lia. }
  rewrite map_set_fresh by exact Hlt. split.
  - rewrite map_app. apply sorted_snoc; [exact Hs|].
    apply Forall_map. exact Hlt.
  - apply Forall_app. split.
    + eapply Forall_impl; [|exact Hf]. intros p [Hp Hi]. split; [lia|exact Hi].
    + constructor; [|constructor]. cbn [fst snd id]. split; [lia|reflexivity].
Qed.

Lemma registry_ok_update (sid : Z) (f : session -> session) (st : state) :
  (forall p, In p (sessions st) -> fst p = sid -> id (f (snd p)) = fst p) ->
  registry_ok st -> registry_ok (update sid f st).
Proof.
  intros Hid [Hs Hf]. unfold registry_ok, update.
  cbn [sessions sessionIdCounter]. split.
  - rewrite map_map.
    rewrite (map_ext _ fst); [exact Hs|].
    intros p. destruct (fst p =? sid)%Z; reflexivity.
  - rewrite Forall_forall in *. intros q Hq.
    apply in_map_iff in Hq as (p & <- & Hp). specialize (Hf _ Hp).
    destruct (fst p =? sid)%Z eqn:E; [|exact Hf].
    apply Z.eqb_eq in E. cbn [fst snd]. split; [apply Hf|].
    apply Hid; assumption.
Qed.

Lemma registry_ok_delete (sid : Z) (st : state) :
  registry_ok st ->
  registry_ok {| sessions := map_delete sid (sessions st);
                 sessionIdCounter := sessionIdCounter st |}.
Proof.
  intros [Hs Hf]. unfold registry_ok, map_delete. cbn [sessions sessionIdCounter].
  split.
  - clear Hf. induction (sessions st) as [|p l IH]; [constructor|].
    cbn [map] in Hs. inversion Hs as [|? ? Hl Hp]; subst. cbn [filter].
    destruct (negb (fst p =? sid)%Z); [|apply IH; exact Hl].
    cbn [map]. constructor; [apply IH; exact Hl|].
    rewrite Forall_forall in *. intros x Hx. apply Hp.
    apply in_map_iff in Hx as (q & <- & Hq). apply filter_In in Hq as [Hq _].
    apply in_map. exact Hq.
  - rewrite Forall_forall in *. intros p Hp. apply filter_In in Hp as [Hp _].
    apply Hf. exact Hp.
Qed.

Lemma registry_ok_id_keep (sid : Z) (f : session -> session) (st : state) :
  (forall s, id (f s) = id s) ->
  registry_ok st -> registry_ok (update sid f st).
Proof.
  intros Hf Hok. apply registry_ok_update; [|exact Hok].
  intros p Hp _. rewrite Hf. destruct Hok as [_ H].
  rewrite Forall_forall in H. apply H. exact Hp.
Qed.

Lemma map_get_In (k : Z) (s : session) (l : list (Z * session)) :
  map_get k l = Some s -> In (k, s) l.
Proof.
  induction l as [|[k' v] l IH]; simpl; [discriminate|].
  destruct (k' =? k)%Z eqn:E.
  - intros H. injection H as ->. apply Z.eqb_eq in E. subst. left. reflexivity.
  - intros H. right. apply IH. exact H.
Qed.

Lemma registry_ok_dropById (idStr : jstr) (st : state) :
  registry_ok st -> registry_ok (fst (dropById idStr st)).
Proof.
  intros Hok. unfold dropById. destruct (parseId idStr) as [k|]; [|exact Hok].
  destruct (findSessionById k st); [|exact Hok].
  apply registry_ok_id_keep; [reflexivity|exact Hok].
Qed.

Lemma registry_ok_validationTimeout (sid : Z) (st : state) :
  registry_ok st -> registry_ok (fst (validationTimeout sid st)).
Proof.
  intros Hok. unfold validationTimeout.
  destruct (findSessionById sid st) as [s|]; [|exact Hok].
  destruct (jstr_eqb (mac s) CONFIG.SESSION_DEFAULTS.MAC); [|exact Hok].
  apply registry_ok_id_keep; [reflexivity|exact Hok].
Qed.

Lemma registry_ok_processAdminCommand (now : Z) (line : jstr) (st : state) :
  registry_ok st -> registry_ok (fst (processAdminCommand now line st)).
Proof.
  intros Hok. unfold processAdminCommand.
  destruct (exec CONFIG.COMMANDS.LS line); [exact Hok|].
  destruct (exec CONFIG.COMMANDS.CMD_MAC line); [exact Hok|].
  destruct (exec CONFIG.COMMANDS.CMD_ID line); [exact Hok|].
  destruct (exec CONFIG.COMMANDS.CMDALL line); [exact Hok|].
  destruct (exec CONFIG.COMMANDS.DROP line);
    [apply registry_ok_dropById|]; exact Hok.
Qed.

Lemma registry_ok_handle (e : event) (st : state) :
  registry_ok st -> registry_ok (fst (handle e st)).
Proof.
  intros Hok.
  destruct e as [a now|sid chunk|sid|sid|sid|sid e0|sid|now line|now line];
    cbn [handle].
  - apply registry_ok_connect. exact Hok.
  - unfold onData. destruct (findSessionById sid st) as [s|] eqn:Es;
      [|exact Hok].
    destruct (is_empty (trim chunk)); [exact Hok|].
    assert (Hid : id s = sid).
    { apply map_get_In in Es. destruct Hok as [_ H].
      rewrite Forall_forall in H. apply (H _ Es). }
    match goal with
    | |- registry_ok (fst (let '(s1, eff) := ?X in _)) =>
        assert (Hx : id (fst X) = sid)
    end.
    { destruct (exec patterns.mac (trim chunk)); [|exact Hid].
      destruct (jstr_eqb (mac s) CONFIG.SESSION_DEFAULTS.MAC); exact Hid. }
    match goal with
    | |- registry_ok (fst (let '(s1, eff) := ?X in _)) =>
        destruct X as [s1 eff]
    end.
    cbn [fst] in *. apply registry_ok_update; [|exact Hok].
    intros p _ Hp.
    pose proof (telemetry_all_fields (trim chunk) s1) as T. cbv zeta in T.
    destruct T as (_ & _ & _ & _ & _ & _ & _ & _ & T & _). congruence.
  - unfold onValidationTimer.
    destruct (findSessionById sid st) as [s|]; [|exact Hok].
    destruct (timer s); [|exact Hok].
    apply registry_ok_validationTimeout.
    apply registry_ok_id_keep; [reflexivity|exact Hok].
  - unfold onTimeout. destruct (findSessionById sid st); [|exact Hok].
    apply registry_ok_id_keep; [reflexivity|exact Hok].
  - unfold onEnd. destruct (findSessionById sid st); [|exact Hok].
    apply registry_ok_id_keep; [reflexivity|exact Hok].
  - unfold onError. destruct (findSessionById sid st); exact Hok.
  - unfold onClose. destruct (findSessionById sid st); [|exact Hok].
    cbn [fst].
    apply (registry_ok_delete sid
             (st := update sid
                      (fun x => set_status CONFIG.CLOSE (set_timer false x)) st)).
    apply registry_ok_id_keep; [reflexivity|exact Hok].
  - unfold onAdminLine. destruct (is_empty (trim line)); [exact Hok|].
    pose proof (registry_ok_processAdminCommand now (trim line) Hok) as H.
    destruct (processAdminCommand now (trim line) st). exact H.
  - apply registry_ok_processAdminCommand. exact Hok.
Qed.

Lemma registry_ok_run (es : list event) :
  forall st, registry_ok st -> registry_ok (fst (run es st)).
Proof.
  induction es as [|e es IH]; intros st Hok; [exact Hok|].
  cbn [run]. pose proof (registry_ok_handle e Hok) as H1.
  destruct (handle e st) as [st1 eff1]. cbn [fst] in H1.
  specialize (IH _ H1). destruct (run es st1) as [st2 eff2]. exact IH.
Qed.


(** ** Listing *)






(** ** Targets that are MAC addresses *)

Section MacTarget.

Import CONFIG.COMMANDS.

Lemma m_opt_skip (ic : bool) (r : re) (s : jstr) (i : nat) (cs : caps)
    (k : cont) :
  m ic r s i cs k = None -> m ic (opt r) s i cs k = k s i cs.
Proof. intros H. unfold opt. simpl. rewrite H. reflexivity. Qed.

Lemma rep_S (n : nat) (r : re) : rep (S n) r = Seq r (rep n r).
Proof. reflexivity. Qed.

Lemma rep_0 (r : re) : rep 0 r = Eps.
Proof. reflexivity. Qed.

Lemma m_eps (ic : bool) (s : jstr) (i : nat) (cs : caps) (k : cont) :
  m ic Eps s i cs k = k s i cs.
Proof. reflexivity. Qed.

Lemma m_pair_last (c1 c2 : ascii) (s : jstr) (i : nat) (cs : caps) (k : cont) :
  is_hex c1 = true -> is_hex c2 = true ->
  m true (rep 2 hex) (c1 :: c2 :: s) i cs k = k s (S (S i)) cs.
Proof.
  intros H1 H2. unfold hex. cbn [rep].
  rewrite !m_seq, m_cls_cons, cls_in_hex, H1.
  rewrite !m_seq, m_cls_cons, cls_in_hex, H2. reflexivity.
Qed.

Lemma bare_mac_spec (t : jstr) :
  bare_mac t = true -> List.length t = 12 /\ forallb is_hex t = true.
Proof.
  unfold bare_mac. intros H. apply andb_true_iff in H as [H1 H2].
  apply Nat.eqb_eq in H1. split; assumption.
Qed.

End MacTarget.

Lemma trim_hex (t : jstr) :
  forallb is_hex t = true -> trim t = t.
Proof.
  intros H. unfold trim.
  assert (D : forall s, forallb is_hex s = true -> drop_ws s = s).
  { intros [|a s] Hs; [reflexivity|]. simpl in *.
    apply andb_true_iff in Hs as [Ha _]. rewrite (hex_not_ws _ Ha).
    reflexivity. }
  rewrite (D _ H). rewrite D; [apply rev_involutive|].
  rewrite forallb_forall in *. intros x Hx. apply H. apply in_rev. exact Hx.
Qed.

Lemma flat_map_same (A B : Type) (f g : A -> list B) (l : list A) :
  (forall a, In a l -> f a = g a) -> flat_map f l = flat_map g l.
Proof.
  induction l as [|a l IH]; intros H; [reflexivity|]. cbn [flat_map].
  rewrite (H a) by (left; reflexivity). rewrite IH; [reflexivity|].
  intros b Hb. apply H. right. exact Hb.
Qed.

Lemma hex_not_comma c : is_hex c = true -> Ascii.eqb c "," = false.
Proof.
  intros H. apply negb_true_iff. revert H. apply implb_elim. revert c.
  all_chars.
Qed.

Lemma split_hex_then (t r : jstr) :
  forallb is_hex t = true ->
  split "," (t ++ ","%char :: r) = t :: split "," r.
Proof.
  induction t as [|c t IH]; intros H.
  - reflexivity.
  - cbn [forallb] in H. apply andb_true_iff in H as [Hc Ht].
    cbn [app split]. rewrite (hex_not_comma _ Hc), (IH Ht). reflexivity.
Qed.

Lemma split_hex (t : jstr) : forallb is_hex t = true -> split "," t = [t].
Proof.
  induction t as [|c t IH]; intros H; [reflexivity|].
  cbn [forallb] in H. apply andb_true_iff in H as [Hc Ht].
  cbn [split]. rewrite (hex_not_comma _ Hc), (IH Ht). reflexivity.
Qed.

(** ** Targets that are identifiers *)

Section IdTarget.

Import CONFIG.COMMANDS.

Lemma hex_comma_not_ws c : is_hex_comma c = true -> is_ws c = false.
Proof.
  intros H. apply negb_true_iff. revert H. apply implb_elim. revert c.
  all_chars.
Qed.

(** The shape of a [cmd] line whose target list is made of hexadecimal
    digits and commas. *)
Lemma exec_CMD_ID (kw w1 T w2 p : jstr) :
  map to_upper kw = str "CMD" ->
  w1 <> [] -> forallb is_ws w1 = true ->
  T <> [] -> forallb is_hex_comma T = true ->
  w2 <> [] -> forallb is_ws w2 = true ->
  p <> [] -> forallb dot p = true ->
  match p with [] => true | c :: _ => negb (is_ws c) end = true ->
  exec CMD_ID (kw ++ w1 ++ T ++ w2 ++ p) =
  Some {| m_text := kw ++ w1 ++ T ++ w2 ++ p; m_caps := [(2, p); (1, T)] |}.
Proof.
  intros Hkw Hn1 Hw1 HnT HT Hn2 Hw2 Hnp Hp Hhp.
  unfold CMD_ID. rewrite exec_bol.
  assert (E : m true
                (lit "cmd" +++ plus ws +++ Grp 1 (plus (Cls is_hex_comma))
                 +++ plus ws +++ Grp 2 (plus any))%re
                (kw ++ w1 ++ T ++ w2 ++ p) 0 [] k0 =
              Some (List.length (kw ++ w1 ++ T ++ w2 ++ p), [(2, p); (1, T)])).
  { rewrite m_seq. unfold lit. rewrite m_lit_ci by exact Hkw.
    rewrite m_seq. apply m_plus_run; auto using cls_in_ws.
    { destruct T as [|c T]; [congruence|]. cbn [forallb] in HT.
      apply andb_true_iff in HT as [Hc _]. cbn [app].
      rewrite (hex_comma_not_ws _ Hc). reflexivity. }
    rewrite m_seq, m_grp. apply m_plus_run; auto using cls_in_hex_comma.
    { apply head_ws_app; auto using ws_not_hex_comma. }
    rewrite m_seq. apply m_plus_run; auto using cls_in_ws.
    rewrite m_grp. apply m_plus_run_end; auto using cls_in_dot.
    unfold k0. rewrite firstn_span_end, firstn_span.
    do 2 f_equal. rewrite !length_app.
    apply (f_equal (@List.length ascii)) in Hkw. rewrite length_map in Hkw.
    simpl in Hkw. simpl. lia. }
  rewrite E. rewrite firstn_whole by reflexivity. reflexivity.
Qed.

End IdTarget.

(** ** Lists of targets *)

(** A line that the pattern [^kw...] matches begins with the first letter
    of the keyword. *)
Lemma exec_kw_first (c : ascii) (K : jstr) (r : re) (line : jstr)
    (mt : match_result) :
  exec {| pattern := Seq Bol (Seq (lit_chars (c :: K)) r); ignoreCase := true |}
       line = Some mt ->
  exists a s, line = a :: s /\ chr_eq true c a = true.
Proof.
  intros H. destruct line as [|a s].
  - rewrite exec_bol in H. discriminate.
  - exists a, s. split; [reflexivity|].
    destruct (chr_eq true c a) eqn:E; [reflexivity|].
    rewrite exec_kw_mismatch in H by exact E. discriminate.
Qed.

Lemma cmd_line_not_ls (a : ascii) (s : jstr) :
  chr_eq true "c" a = true -> exec CONFIG.COMMANDS.LS (a :: s) = None.
Proof.
  intros H. apply (exec_kw_mismatch "l" (str "s")).
  revert H. generalize a. clear a.
  assert (A : forall a, implb (chr_eq true "c" a) (negb (chr_eq true "l" a)) = true)
    by all_chars.
  intros a H. apply negb_true_iff. revert H. apply implb_elim. apply A.
Qed.

Lemma flat_map_middle (A B : Type) (f : A -> list B) (pre post : list A)
    (t : A) :
  flat_map f (pre ++ t :: post) = flat_map f pre ++ f t ++ flat_map f post.
Proof. rewrite flat_map_app. reflexivity. Qed.

(** * Further properties of the handlers *)

(** ** Lines that are no command *)

Lemma exec_nil_anchored (c : ascii) (K : jstr) (r : re) :
  exec {| pattern := Seq Bol (Seq (lit_chars (c :: K)) r); ignoreCase := true |}
       [] = None.
Proof. rewrite exec_bol. reflexivity. Qed.

Lemma starts_like_command_false (a : ascii) (s : jstr) :
  starts_like_command (a :: s) = false ->
  chr_eq true "l" a = false /\ chr_eq true "c" a = false /\
  chr_eq true "d" a = false.
Proof.
  unfold starts_like_command. cbn [existsb]. rewrite orb_false_r.
  intros H. apply orb_false_iff in H as [H1 H]. apply orb_false_iff in H as [H2 H3].
  rewrite !chr_eq_upper.
  change (to_upper "l") with "L"%char. change (to_upper "c") with "C"%char.
  change (to_upper "d") with "D"%char.
  rewrite (Ascii.eqb_sym "L"), (Ascii.eqb_sym "C"), (Ascii.eqb_sym "D").
  repeat split; assumption.
Qed.

Lemma LS_first (a : ascii) (s : jstr) :
  chr_eq true "l" a = false -> exec CONFIG.COMMANDS.LS (a :: s) = None.
Proof. apply (exec_kw_mismatch "l" (str "s")). Qed.

Lemma CMD_MAC_first (a : ascii) (s : jstr) :
  chr_eq true "c" a = false -> exec CONFIG.COMMANDS.CMD_MAC (a :: s) = None.
Proof. apply (exec_kw_mismatch "c" (str "md")). Qed.

Lemma CMD_ID_first (a : ascii) (s : jstr) :
  chr_eq true "c" a = false -> exec CONFIG.COMMANDS.CMD_ID (a :: s) = None.
Proof. apply (exec_kw_mismatch "c" (str "md")). Qed.

Lemma CMDALL_first (a : ascii) (s : jstr) :
  chr_eq true "c" a = false -> exec CONFIG.COMMANDS.CMDALL (a :: s) = None.
Proof. apply (exec_kw_mismatch "c" (str "mdall")). Qed.

Lemma DROP_first (a : ascii) (s : jstr) :
  chr_eq true "d" a = false -> exec CONFIG.COMMANDS.DROP (a :: s) = None.
Proof. apply (exec_kw_mismatch "d" (str "rop")). Qed.

(** X1.  A line that does not begin with l, c or d, in either case, the
    empty line among them, matches none of the five patterns: the state is
    left as it is and nothing is broadcast or written. *)
Theorem line_without_keyword_ignored (now : Z) (line : jstr) (st : state) :
  starts_like_command line = false ->
  processAdminCommand now line st = (st, []).
Proof.
  intros H. unfold processAdminCommand. destruct line as [|a s].
  - reflexivity.
  - apply starts_like_command_false in H as (Hl & Hc & Hd).
    rewrite (@LS_first a s Hl), (@CMD_MAC_first a s Hc),
      (@CMD_ID_first a s Hc), (@CMDALL_first a s Hc), (@DROP_first a s Hd).
    reflexivity.
Qed.

Lemma line_without_keyword_ignored_witness :
  starts_like_command (str " ls") = false /\
  processAdminCommand 0 (str " ls") demo_state = (demo_state, []).
Proof.
  split; [reflexivity|].
  apply (@line_without_keyword_ignored 0%Z (str " ls") demo_state).
  reflexivity.
Defined.

(** ** What a command can do *)

Lemma update_keys (k : Z) (f : session -> session) (st : state) :
  map fst (sessions (update k f st)) = map fst (sessions st).
Proof.
  unfold update. cbn [sessions]. rewrite map_map. apply map_ext.
  intros p. destruct (fst p =? k)%Z; reflexivity.
Qed.

(** X2.  Whatever the line, a command leaves the registry with the same
    keys in the same order and does not move the counter.  The state
    either stays as it is or differs in one registered session, whose
    socket has been ended and destroyed. *)
Theorem command_touches_one_socket_at_most (now : Z) (line : jstr) (st : state) :
  let st' := fst (processAdminCommand now line st) in
  (st' = st \/
   exists k s, findSessionById k st = Some s /\ st' = update k end_destroy st) /\
  map fst (sessions st') = map fst (sessions st) /\
  sessionIdCounter st' = sessionIdCounter st.
Proof.
  cbv zeta.
  assert (D : fst (processAdminCommand now line st) = st \/
              exists k s, findSessionById k st = Some s /\
                fst (processAdminCommand now line st) = update k end_destroy st).
  { unfold processAdminCommand.
    destruct (exec CONFIG.COMMANDS.LS line); [left; reflexivity|].
    destruct (exec CONFIG.COMMANDS.CMD_MAC line); [left; reflexivity|].
    destruct (exec CONFIG.COMMANDS.CMD_ID line); [left; reflexivity|].
    destruct (exec CONFIG.COMMANDS.CMDALL line); [left; reflexivity|].
    destruct (exec CONFIG.COMMANDS.DROP line) as [dm|]; [|left; reflexivity].
    unfold dropById. destruct (parseId (group 1 dm)) as [k|]; [|left; reflexivity].
    destruct (findSessionById k st) as [s|] eqn:E; [|left; reflexivity].
    right. exists k, s. split; [exact E|reflexivity]. }
  split; [exact D|].
  destruct D as [->|(k & s & _ & ->)].
  - split; reflexivity.
  - split; [apply update_keys|reflexivity].
Qed.

(** The cases of a membership in an explicit list of effects, those of
    another constructor dropped. *)
Ltac in_effects H :=
  cbn [In] in H;
  repeat (destruct H as [H|H]; [try discriminate H|]);
  try contradiction.

Lemma find_first (A : Type) (f : A -> bool) (l : list A) (x : A) :
  find f l = Some x ->
  exists pre post,
    l = pre ++ x :: post /\ f x = true /\
    forall y, In y pre -> f y = false.
Proof.
  induction l as [|a l IH]; [discriminate|]. cbn [find].
  destruct (f a) eqn:E.
  - intros H. injection H as ->. exists [], l. repeat split; [exact E|].
    intros y [].
  - intros H. destruct (IH H) as (pre & post & -> & Hx & Hp).
    exists (a :: pre), post. repeat split; [exact Hx|].
    intros y [<-|Hy]; [exact E|apply Hp; exact Hy].
Qed.

Lemma map_get_value (k : Z) (s : session) (l : list (Z * session)) :
  map_get k l = Some s -> In s (values l).
Proof.
  intros H. apply map_get_In in H. unfold values.
  apply in_map_iff. exists (k, s). split; [reflexivity|exact H].
Qed.

(** X4.  Addressing by MAC address reaches one session at most: the
    earliest registered among those whose [mac] is the target, character
    for character after trimming.  Later sessions with the same address
    are not written to. *)
Theorem cmd_by_mac_first_match (cmd : jstr) (st : state) (t : jstr)
    (s : session) :
  findSessionByMac (trim t) st = Some s ->
  exists pre post,
    values (sessions st) = pre ++ s :: post /\
    (forall x, In x pre -> mac x <> trim t) /\
    mac s = trim t /\
    writes (cmdByMac cmd st t) =
      if writable (socket s) then [(id s, cmd ++ nl)] else [].
Proof.
  intros H. pose proof H as H0. unfold findSessionByMac in H0.
  apply find_first in H0 as (pre & post & E & Hs & Hp).
  exists pre, post. split; [exact E|]. split; [|split].
  - intros x Hx Hm. specialize (Hp _ Hx). rewrite Hm, jstr_eqb_refl in Hp.
    discriminate.
  - apply jstr_eqb_eq. exact Hs.
  - unfold cmdByMac. rewrite H. destruct (writable (socket s)); reflexivity.
Qed.

Lemma cmd_by_mac_first_match_witness :
  exists pre post,
    values (sessions twin_state) =
      pre ++ demo_session 1001 (str "112233445566") :: post /\
    (forall x, In x pre -> mac x <> trim (str " 112233445566")) /\
    mac (demo_session 1001 (str "112233445566")) = trim (str " 112233445566") /\
    writes (cmdByMac (str "PING") twin_state (str " 112233445566")) =
      if writable (socket (demo_session 1001 (str "112233445566")))
      then [(id (demo_session 1001 (str "112233445566")), str "PING" ++ nl)]
      else [].
Proof.
  apply (@cmd_by_mac_first_match (str "PING") twin_state
           (str " 112233445566") (demo_session 1001 (str "112233445566"))).
  reflexivity.
Defined.

(** ** Closing and connecting *)

(** X5.  The ['close'] handler of a registered session takes that session
    out of the registry and no other: the remaining entries keep their
    order and their contents, every other identifier is found as before,
    the counter stays, and the effects are the clearing of the validation
    timer and one close broadcast. *)
Theorem close_removes_that_session_only (sid : Z) (st : state) (s : session) :
  findSessionById sid st = Some s ->
  let st' := fst (onClose sid st) in
  sessions st' = filter (fun p => negb (fst p =? sid)%Z) (sessions st) /\
  findSessionById sid st' = None /\
  (forall k, k <> sid -> findSessionById k st' = findSessionById k st) /\
  sessionIdCounter st' = sessionIdCounter st /\
  snd (onClose sid st) =
    [ClearTimeout sid;
     Log (CONFIG.LOG_PREFIX.CLOSE ++ str " ID:" ++ dec (id s) ++ sp ++ mac s
          ++ sp ++ addr s)].
Proof.
  intros Hs. cbv zeta. split; [apply onClose_sessions|].
  split; [apply onClose_removes|]. split; [|split].
  - intros k Hk. unfold findSessionById. rewrite onClose_sessions.
    apply map_get_delete_other. exact Hk.
  - unfold onClose. rewrite Hs. reflexivity.
  - unfold onClose. rewrite Hs. reflexivity.
Qed.

Lemma close_removes_that_session_only_witness :
  let st' := fst (onClose 1001 demo_state) in
  sessions st' = filter (fun p => negb (fst p =? 1001)%Z) (sessions demo_state) /\
  findSessionById 1001 st' = None /\
  (forall k, k <> 1001%Z ->
     findSessionById k st' = findSessionById k demo_state) /\
  sessionIdCounter st' = sessionIdCounter demo_state /\
  snd (onClose 1001 demo_state) =
    [ClearTimeout 1001;
     Log (CONFIG.LOG_PREFIX.CLOSE ++ str " ID:"
          ++ dec (id (demo_session 1001 (str "AA:BB:CC:DD:EE:FF"))) ++ sp
          ++ mac (demo_session 1001 (str "AA:BB:CC:DD:EE:FF")) ++ sp
          ++ addr (demo_session 1001 (str "AA:BB:CC:DD:EE:FF")))].
Proof.
  apply (@close_removes_that_session_only 1001%Z demo_state
           (demo_session 1001 (str "AA:BB:CC:DD:EE:FF"))).
  reflexivity.
Defined.

Lemma map_get_app_last (k : Z) (v : session) (l : list (Z * session)) (k0 : Z) :
  k0 <> k -> map_get k0 (l ++ [(k, v)]) = map_get k0 l.
Proof.
  intros Hne. induction l as [|[k' v'] l IH]; cbn [app map_get].
  - destruct (k =? k0)%Z eqn:E; [apply Z.eqb_eq in E; congruence|reflexivity].
  - destruct (k' =? k0)%Z; [reflexivity|exact IH].
Qed.

(** X6.  In every state that a run of the server reaches from its initial
    state, the keys of the registry increase strictly along it, none
    exceeds the counter, and each key is the [id] of the session stored
    under it; so a lookup by identifier returns a session with that
    identifier, and no identifier is registered twice. *)
Theorem reachable_registry_keyed_by_id (es : list event) :
  let st := fst (run es initial_state) in
  StronglySorted Z.lt (map fst (sessions st)) /\
  Forall (fun p => (fst p <= sessionIdCounter st)%Z /\ id (snd p) = fst p)
         (sessions st) /\
  NoDup (map fst (sessions st)) /\
  (forall k s, findSessionById k st = Some s -> id s = k).
Proof.
  cbv zeta.
  assert (H0 : registry_ok initial_state) by (split; constructor).
  destruct (registry_ok_run es H0) as [Hs Hf].
  split; [exact Hs|]. split; [exact Hf|]. split; [apply sorted_NoDup, Hs|].
  intros k s H. apply map_get_In in H. rewrite Forall_forall in Hf.
  apply (Hf _ H).
Qed.

(** X7.  A new connection in a state whose keys do not exceed the
    counter, as in every reachable state, is registered after all the
    sessions that are there, under the next identifier; the sessions that
    are there stay as they are and are found as before.  The new session
    is unidentified, its socket writable and its validation timer pending,
    and the connection is broadcast once. *)
Theorem connection_appends_session (a : jstr) (now : Z) (st : state) :
  registry_ok st ->
  let k := (sessionIdCounter st + 1)%Z in
  let st' := fst (handleRemoteConnection a now st) in
  exists s,
    sessions st' = sessions st ++ [(k, s)] /\
    id s = k /\ addr s = a /\ start s = now /\
    mac s = str "NA" /\ token s = str "NA" /\
    socket s = {| writable := true; destroyed := false |} /\
    timer s = true /\
    (forall k0, k0 <> k -> findSessionById k0 st' = findSessionById k0 st) /\
    findSessionById k st = None /\
    snd (handleRemoteConnection a now st) =
      [Log (str "[CONN] ID:" ++ dec k ++ sp ++ a)].
Proof.
  intros [Hs Hf]. cbv zeta. unfold handleRemoteConnection.
  cbn [fst snd sessions].
  assert (Hlt : Forall (fun p => (fst p < sessionIdCounter st + 1)%Z)
                  (sessions st)).
  { eapply Forall_impl; [|exact Hf]. intros p [Hp _]. lia. }
  rewrite map_set_fresh by exact Hlt.
  eexists. split; [reflexivity|]. cbn [id addr start mac token socket timer].
  repeat split.
  - intros k0 Hk0. unfold findSessionById. cbn [sessions].
    apply map_get_app_last. exact Hk0.
  - unfold findSessionById. clear Hs Hf.
    induction (sessions st) as [|[k' v'] l IH]; [reflexivity|].
    inversion Hlt as [|? ? Hk Hl]; subst. cbn [map_get]. cbn [fst] in Hk.
    destruct (k' =? sessionIdCounter st + 1)%Z eqn:E;
      [apply Z.eqb_eq in E; lia|]. apply IH. exact Hl.
Qed.

Lemma connection_appends_session_witness :
  registry_ok demo_state /\
  let k := (sessionIdCounter demo_state + 1)%Z in
  let st' := fst (handleRemoteConnection (str "10.0.0.9") 5 demo_state) in
  exists s,
    sessions st' = sessions demo_state ++ [(k, s)] /\
    id s = k /\ addr s = str "10.0.0.9" /\ start s = 5%Z /\
    mac s = str "NA" /\ token s = str "NA" /\
    socket s = {| writable := true; destroyed := false |} /\
    timer s = true /\
    (forall k0, k0 <> k ->
       findSessionById k0 st' = findSessionById k0 demo_state) /\
    findSessionById k demo_state = None /\
    snd (handleRemoteConnection (str "10.0.0.9") 5 demo_state) =
      [Log (str "[CONN] ID:" ++ dec k ++ sp ++ str "10.0.0.9")].
Proof.
  assert (H : registry_ok demo_state).
  { split.
    - repeat constructor.
    - repeat constructor; cbn; lia. }
  split; [exact H|].
  apply (@connection_appends_session (str "10.0.0.9") 5%Z demo_state H).
Defined.

(** ** Idle time-out *)

(** X8.  The idle time-out of a registered session broadcasts one
    time-out event, sends the time-out text with [socket.end] and destroys
    the socket; it neither removes the session nor touches the validation
    timer.  With the ['close'] that follows, the two handlers together
    broadcast one time-out and one close event, in that order, and the
    session is out of the registry. *)
Theorem idle_timeout_then_close (sid : Z) (st : state) (s : session) :
  findSessionById sid st = Some s ->
  onTimeout sid st =
    (update sid end_destroy st,
     [Log (CONFIG.LOG_PREFIX.TIMEOUT ++ str " ID:" ++ dec (id s) ++ sp ++ mac s
           ++ sp ++ addr s);
      SockEnd sid (str "Idle Timeout" ++ nl);
      SockDestroy sid]) /\
  option_map timer (findSessionById sid (fst (onTimeout sid st))) =
    Some (timer s) /\
  option_map (fun x => writable (socket x))
    (findSessionById sid (fst (onTimeout sid st))) = Some false /\
  logs (snd (run [IdleTimeout sid; Close sid] st)) =
    [CONFIG.LOG_PREFIX.TIMEOUT ++ str " ID:" ++ dec (id s) ++ sp ++ mac s
     ++ sp ++ addr s;
     CONFIG.LOG_PREFIX.CLOSE ++ str " ID:" ++ dec (id s) ++ sp ++ mac s
     ++ sp ++ addr s] /\
  sessions (fst (run [IdleTimeout sid; Close sid] st)) =
    filter (fun p => negb (fst p =? sid)%Z) (sessions st).
Proof.
  intros Hs.
  assert (E : onTimeout sid st =
              (update sid end_destroy st,
               [Log (CONFIG.LOG_PREFIX.TIMEOUT ++ str " ID:" ++ dec (id s) ++ sp
                     ++ mac s ++ sp ++ addr s);
                SockEnd sid (str "Idle Timeout" ++ nl);
                SockDestroy sid])).
  { unfold onTimeout. rewrite Hs. reflexivity. }
  split; [exact E|]. rewrite E. cbn [fst].
  split; [rewrite find_update, Hs; reflexivity|].
  split; [rewrite find_update, Hs; reflexivity|].
  cbn [run handle]. rewrite E.
  assert (F : findSessionById sid (update sid end_destroy st) =
              Some (end_destroy s)) by (rewrite find_update, Hs; reflexivity).
  assert (C : onClose sid (update sid end_destroy st) =
              (fst (onClose sid (update sid end_destroy st)),
               [ClearTimeout sid;
                Log (CONFIG.LOG_PREFIX.CLOSE ++ str " ID:" ++ dec (id s) ++ sp
                     ++ mac s ++ sp ++ addr s)])).
  { unfold onClose. rewrite F. reflexivity. }
  rewrite C. cbn [fst snd]. split; [reflexivity|].
  rewrite onClose_sessions. unfold update. cbn [sessions].
  apply (map_delete_update sid end_destroy).
Qed.

Lemma idle_timeout_then_close_witness :
  logs (snd (run [IdleTimeout 1001; Close 1001] fresh_state)) =
    [CONFIG.LOG_PREFIX.TIMEOUT ++ str " ID:" ++ dec (id fresh_session) ++ sp
     ++ mac fresh_session ++ sp ++ addr fresh_session;
     CONFIG.LOG_PREFIX.CLOSE ++ str " ID:" ++ dec (id fresh_session) ++ sp
     ++ mac fresh_session ++ sp ++ addr fresh_session] /\
  sessions (fst (run [IdleTimeout 1001; Close 1001] fresh_state)) =
    filter (fun p => negb (fst p =? 1001)%Z) (sessions fresh_state).
Proof.
  apply (@idle_timeout_then_close 1001%Z fresh_state fresh_session).
  reflexivity.
Defined.

(** ** Blank input *)

Lemma drop_ws_nil_iff (s : jstr) : drop_ws s = [] <-> forallb is_ws s = true.
Proof.
  induction s as [|c s IH]; cbn [drop_ws forallb]; [tauto|].
  destruct (is_ws c); cbn [andb]; [exact IH|]. split; discriminate.
Qed.

Lemma drop_ws_head (s : jstr) :
  match drop_ws s with [] => true | c :: _ => negb (is_ws c) end = true.
Proof.
  induction s as [|c s IH]; cbn [drop_ws]; [reflexivity|].
  destruct (is_ws c) eqn:E; [exact IH|]. rewrite E. reflexivity.
Qed.

Lemma forallb_rev (A : Type) (f : A -> bool) (l : list A) :
  forallb f (rev l) = forallb f l.
Proof.
  induction l as [|a l IH]; [reflexivity|]. cbn [rev forallb].
  rewrite forallb_app, IH. cbn [forallb]. rewrite andb_true_r.
  apply andb_comm.
Qed.

(** [trim] leaves nothing exactly of the strings made of white space. *)
Lemma trim_nil_iff (s : jstr) : trim s = [] <-> forallb is_ws s = true.
Proof.
  unfold trim. split.
  - intros H. apply (f_equal (@rev ascii)) in H. rewrite rev_involutive in H.
    cbn [rev] in H. apply drop_ws_nil_iff in H. rewrite forallb_rev in H.
    pose proof (drop_ws_head s) as Hh.
    destruct (drop_ws s) as [|c t] eqn:E; [apply drop_ws_nil_iff; exact E|].
    cbn [forallb] in H. apply andb_true_iff in H as [Hc _].
    rewrite Hc in Hh. discriminate.
  - intros H. apply drop_ws_nil_iff in H. rewrite H. reflexivity.
Qed.

(** X9.  Blank input is passed over in silence: a chunk from a device or
    a line from an admin that holds white space only changes nothing and
    is not even echoed.  Any other chunk of a registered session, and any
    other admin line, is echoed first, trimmed, before anything else
    happens. *)
Theorem blank_input_ignored (sid now : Z) (text : jstr) (st : state) :
  (forallb is_ws text = true ->
   onData sid text st = (st, []) /\ onAdminLine now text st = (st, [])) /\
  (forallb is_ws text = false ->
   (forall s, findSessionById sid st = Some s ->
      hd_error (snd (onData sid text st)) =
        Some (Log (str "[MGS LINE][" ++ dec (id s) ++ str "][" ++ token s
                   ++ str "] " ++ trim text))) /\
   hd_error (snd (onAdminLine now text st)) =
     Some (Log (str "[ADMIN] " ++ trim text)) /\
   onAdminLine now text st =
     (fst (processAdminCommand now (trim text) st),
      Log (str "[ADMIN] " ++ trim text)
        :: snd (processAdminCommand now (trim text) st))).
Proof.
  split.
  - intros H. apply trim_nil_iff in H. unfold onData, onAdminLine. rewrite H.
    cbn [is_empty]. destruct (findSessionById sid st); split; reflexivity.
  - intros H.
    assert (E : is_empty (trim text) = false).
    { destruct (trim text) eqn:T; [|reflexivity].
      apply trim_nil_iff in T. congruence. }
    split; [|split].
    + intros s Hs. unfold onData. rewrite Hs, E.
      destruct (match exec patterns.mac (trim text) with
                | Some mt =>
                    if jstr_eqb (mac s) CONFIG.SESSION_DEFAULTS.MAC
                    then
                      (set_timer false
                         (set_mac_token (m_text mt)
                            (remove_all ":" (m_text mt)) s),
                       [Log (CONFIG.LOG_PREFIX.MAC ++ sp
                             ++ mac (set_timer false
                                       (set_mac_token (m_text mt)
                                          (remove_all ":" (m_text mt)) s))
                             ++ sp
                             ++ addr (set_timer false
                                        (set_mac_token (m_text mt)
                                           (remove_all ":" (m_text mt)) s)));
                        SockWrite sid (str "SYS " ++ nl);
                        SockWrite sid (str "SYS DBG " ++ nl);
                        ClearTimeout sid])
                    else (s, [])
                | None => (s, [])
                end) as [s1 eff]. reflexivity.
    + unfold onAdminLine. rewrite E.
      destruct (processAdminCommand now (trim text) st). reflexivity.
    + unfold onAdminLine. rewrite E.
      destruct (processAdminCommand now (trim text) st). reflexivity.
Qed.

Lemma blank_input_ignored_witness :
  forallb is_ws (str "  ") = true /\
  onData 1001 (str "  ") demo_state = (demo_state, []) /\
  onAdminLine 0 (str "  ") demo_state = (demo_state, []) /\
  forallb is_ws (str " ls ") = false /\
  hd_error (snd (onAdminLine 0 (str " ls ") demo_state)) =
    Some (Log (str "[ADMIN] " ++ trim (str " ls "))).
Proof.
  pose proof (@blank_input_ignored 1001%Z 0%Z (str "  ") demo_state) as [H _].
  pose proof (@blank_input_ignored 1001%Z 0%Z (str " ls ") demo_state)
    as [_ H'].
  specialize (H eq_refl). specialize (H' eq_refl).
  destruct H as [H1 H2]. destruct H' as (_ & H3 & _).
  repeat split; assumption.
Defined.

(** ** cmdall *)

Lemma cmdall_kw (kw : jstr) :
  map to_upper kw = str "CMDALL" ->
  exists k3 a k2,
    kw = k3 ++ a :: k2 /\ map to_upper k3 = str "CMD" /\ to_upper a = "A"%char.
Proof.
  intros H.
  do 6 (destruct kw as [|? kw]; [discriminate|]).
  destruct kw; [|discriminate].
  cbn [map str list_ascii_of_string] in H.
  injection H as H1 H2 H3 H4 H5 H6.
  eexists [_; _; _], _, [_; _]. split; [reflexivity|].
  split; [|exact H4]. cbn [map]. rewrite H1, H2, H3. reflexivity.
Qed.

Lemma letter_a_not_ws (a : ascii) : to_upper a = "A"%char -> is_ws a = false.
Proof.
  intros H.
  assert (A : Ascii.eqb (to_upper a) "A" = true) by (rewrite H; reflexivity).
  clear H. apply negb_true_iff. revert A. apply implb_elim. revert a.
  all_chars.
Qed.

(** After [cmd] the patterns of [cmd] want white space, which the [a] of
    [cmdall] is not. *)
Lemma cmd_then_letter (r : re) (kw s : jstr) :
  map to_upper kw = str "CMDALL" ->
  m true (lit "cmd" +++ plus CONFIG.COMMANDS.ws +++ r)%re (kw ++ s) 0 [] k0
  = None.
Proof.
  intros H. apply cmdall_kw in H as (k3 & a & k2 & -> & H3 & Ha).
  rewrite <- app_assoc, m_seq. unfold lit. rewrite m_lit_ci by exact H3.
  unfold plus, CONFIG.COMMANDS.ws.
  rewrite <- app_comm_cons, !m_seq, m_cls_cons, cls_in_ws.
  rewrite (letter_a_not_ws _ Ha). reflexivity.
Qed.

Lemma CMD_MAC_cmdall (kw s : jstr) :
  map to_upper kw = str "CMDALL" ->
  exec CONFIG.COMMANDS.CMD_MAC (kw ++ s) = None.
Proof.
  intros H. unfold CONFIG.COMMANDS.CMD_MAC. rewrite exec_bol.
  rewrite cmd_then_letter by exact H. reflexivity.
Qed.

Lemma CMD_ID_cmdall (kw s : jstr) :
  map to_upper kw = str "CMDALL" ->
  exec CONFIG.COMMANDS.CMD_ID (kw ++ s) = None.
Proof.
  intros H. unfold CONFIG.COMMANDS.CMD_ID. rewrite exec_bol.
  rewrite cmd_then_letter by exact H. reflexivity.
Qed.

Lemma exec_CMDALL (kw w p : jstr) :
  map to_upper kw = str "CMDALL" ->
  w <> [] -> forallb is_ws w = true ->
  p <> [] -> forallb dot p = true ->
  match p with [] => true | c :: _ => negb (is_ws c) end = true ->
  exec CONFIG.COMMANDS.CMDALL (kw ++ w ++ p) =
  Some {| m_text := kw ++ w ++ p; m_caps := [(1, p)] |}.
Proof.
  intros Hkw Hwn Hw Hnp Hp Hhp. unfold CONFIG.COMMANDS.CMDALL.
  rewrite exec_bol.
  assert (E : m true
                (lit "cmdall" +++ plus CONFIG.COMMANDS.ws
                 +++ Grp 1 (plus CONFIG.COMMANDS.any) +++ Eol)%re
                (kw ++ w ++ p) 0 [] k0 =
              Some (List.length (kw ++ w ++ p), [(1, p)])).
  { rewrite m_seq. unfold lit. rewrite m_lit_ci by exact Hkw.
    rewrite m_seq. apply m_plus_run; auto using cls_in_ws.
    rewrite m_seq, m_grp. apply m_plus_run_end; auto using cls_in_dot.
    cbn [m]. unfold k0. rewrite firstn_span_end.
    rewrite !length_app. simpl. do 2 f_equal.
    apply (f_equal (@List.length ascii)) in Hkw. rewrite length_map in Hkw.
    simpl in Hkw. lia. }
  rewrite E. rewrite firstn_whole by reflexivity. reflexivity.
Qed.

Lemma flat_map_if (A B : Type) (c : A -> bool) (f : A -> list B) (l : list A) :
  flat_map (fun x => if c x then f x else []) l = flat_map f (filter c l).
Proof.
  induction l as [|a l IH]; [reflexivity|]. cbn [flat_map filter].
  destruct (c a); cbn [flat_map app]; rewrite IH; reflexivity.
Qed.

(** X10.  A [cmdall] line, under any spelling of the keyword, sends the
    payload and a new line to every registered session whose socket is
    writable, oldest first, each write announced by a broadcast that names
    the session; the other sessions get nothing and the state is left as it
    is. *)
Theorem cmdall_reaches_writable_sessions (now : Z) (kw w p : jstr) (st : state) :
  map to_upper kw = str "CMDALL" ->
  w <> [] -> forallb is_ws w = true ->
  p <> [] -> forallb dot p = true ->
  match p with [] => true | c :: _ => negb (is_ws c) end = true ->
  let live := filter (fun s => writable (socket s)) (values (sessions st)) in
  processAdminCommand now (kw ++ w ++ p) st =
    (st,
     flat_map
       (fun s =>
          [Log (str "[CMD] " ++ dec (id s) ++ sp ++ addr s ++ sp ++ p);
           SockWrite (id s) (p ++ nl)])
       live) /\
  writes (snd (processAdminCommand now (kw ++ w ++ p) st)) =
    map (fun s => (id s, p ++ nl)) live.
Proof.
  intros Hkw Hwn Hw Hnp Hp Hhp. cbv zeta.
  assert (E : processAdminCommand now (kw ++ w ++ p) st =
              (st,
               flat_map
                 (fun s =>
                    [Log (str "[CMD] " ++ dec (id s) ++ sp ++ addr s ++ sp ++ p);
                     SockWrite (id s) (p ++ nl)])
                 (filter (fun s => writable (socket s))
                    (values (sessions st))))).
  { unfold processAdminCommand.
    rewrite (LS_other_kw (c' := "C") (K' := str "MDALL") _ _ Hkw eq_refl).
    rewrite CMD_MAC_cmdall, CMD_ID_cmdall by exact Hkw.
    rewrite exec_CMDALL by assumption.
    unfold group. cbn [lookup m_caps Nat.eqb]. f_equal.
    apply (flat_map_if (fun s => writable (socket s))
             (fun s =>
                [Log (CONFIG.LOG_PREFIX.CMD ++ sp ++ dec (id s) ++ sp ++ addr s
                      ++ sp ++ p);
                 SockWrite (id s) (p ++ nl)])). }
  split; [exact E|]. rewrite E. cbn [snd]. unfold writes. clear E.
  induction (filter (fun s => writable (socket s)) (values (sessions st)))
    as [|s l IH]; [reflexivity|].
  cbn [flat_map map app]. rewrite IH. reflexivity.
Qed.

Lemma cmdall_reaches_writable_sessions_witness :
  writes (snd (processAdminCommand 0 (str "CmdAll" ++ str " " ++ str "SYS DBG")
                 unwritable_state)) =
    map (fun s => (id s, str "SYS DBG" ++ nl))
      (filter (fun s => writable (socket s))
         (values (sessions unwritable_state))).
Proof.
  apply (@cmdall_reaches_writable_sessions 0%Z (str "CmdAll") (str " ")
           (str "SYS DBG") unwritable_state);
    first [reflexivity | discriminate].
Defined.

(** ** Identifiers written with the 0x prefix *)

(** A greedy [p*] over a class fails when the continuation fails after
    every prefix of the run. *)
Lemma mstar_cls_none (ic : bool) (p : ascii -> bool) (t : jstr) :
  forall (rest : jstr) (i : nat) (cs : caps) (k : cont) (fuel : nat),
    (forall c, cls_in ic p c = p c) ->
    match rest with [] => true | c :: _ => negb (p c) end = true ->
    (forall a b, t = a ++ b -> k (b ++ rest) (i + List.length a) cs = None) ->
    mstar fuel (m ic (Cls p)) (t ++ rest) i cs k = None.
Proof.
  induction t as [|c t IH]; intros rest i cs k fuel Hp Hr Hk.
  - cbn [app]. pose proof (Hk [] [] eq_refl) as H0. cbn [app List.length] in H0.
    rewrite Nat.add_0_r in H0.
    destruct fuel; [exact H0|]. rewrite mstar_S.
    destruct rest as [|a rest]; [exact H0|].
    rewrite m_cls_cons, Hp. apply negb_true_iff in Hr. rewrite Hr. exact H0.
  - pose proof (Hk [] (c :: t) eq_refl) as H0. cbn [app List.length] in H0.
    rewrite Nat.add_0_r in H0. rewrite <- app_comm_cons.
    destruct fuel; [exact H0|]. rewrite mstar_S, m_cls_cons.
    destruct (cls_in ic p c); [|exact H0].
    replace (Nat.eqb (S i) i) with false
      by (symmetry; apply Nat.eqb_neq; lia).
    rewrite IH; [exact H0|exact Hp|exact Hr|].
    intros a b E. specialize (Hk (c :: a) b). cbn [app List.length] in Hk.
    rewrite E in Hk. specialize (Hk eq_refl).
    rewrite <- Hk. f_equal. lia.
Qed.

Lemma m_plus_cls_none (ic : bool) (p : ascii -> bool) (t rest : jstr)
    (i : nat) (cs : caps) (k : cont) :
  (forall c, cls_in ic p c = p c) ->
  match rest with [] => true | c :: _ => negb (p c) end = true ->
  (forall a b, t = a ++ b -> k (b ++ rest) (i + List.length a) cs = None) ->
  m ic (plus (Cls p)) (t ++ rest) i cs k = None.
Proof.
  intros Hp Hr Hk. unfold plus. rewrite m_seq. destruct t as [|c t].
  - cbn [app]. destruct rest as [|a rest]; [reflexivity|].
    rewrite m_cls_cons, Hp. apply negb_true_iff in Hr. rewrite Hr. reflexivity.
  - rewrite <- app_comm_cons, m_cls_cons. destruct (cls_in ic p c); [|reflexivity].
    rewrite m_star. apply mstar_cls_none; [exact Hp|exact Hr|].
    intros a b E. specialize (Hk (c :: a) b). cbn [app List.length] in Hk.
    rewrite E in Hk. specialize (Hk eq_refl). rewrite <- Hk. f_equal. lia.
Qed.

Lemma letter_x_facts (x : ascii) :
  to_upper x = "X"%char ->
  is_hex x = false /\ is_ws x = false /\
  CONFIG.COMMANDS.is_hex_comma x = false.
Proof.
  intros H.
  assert (A : Ascii.eqb (to_upper x) "X" = true) by (rewrite H; reflexivity).
  clear H.
  assert (B : negb (is_hex x) && negb (is_ws x)
              && negb (CONFIG.COMMANDS.is_hex_comma x) = true).
  { revert A. apply implb_elim. revert x. all_chars. }
  apply andb_true_iff in B as [B B3]. apply andb_true_iff in B as [B1 B2].
  apply negb_true_iff in B1, B2, B3. repeat split; assumption.
Qed.

Lemma forallb_app_tail (A : Type) (f : A -> bool) (a b : list A) :
  forallb f (a ++ b) = true -> forallb f b = true.
Proof. rewrite forallb_app. intros H. apply andb_true_iff in H. apply H. Qed.

Lemma hex_from (rest : jstr) (i : nat) (cs : caps) (k : cont) (c : ascii) :
  is_hex c = false ->
  m true (plus CONFIG.COMMANDS.hex) (c :: rest) i cs k = None.
Proof.
  intros H. unfold plus, CONFIG.COMMANDS.hex.
  rewrite m_seq, m_cls_cons, cls_in_hex, H. reflexivity.
Qed.

(** [drop] followed by an identifier with the prefix. *)
Lemma DROP_0x (kw w : jstr) (x : ascii) (rest : jstr) :
  map to_upper kw = str "DROP" ->
  forallb is_ws w = true -> to_upper x = "X"%char ->
  exec CONFIG.COMMANDS.DROP (kw ++ w ++ "0"%char :: x :: rest) = None.
Proof.
  intros Hkw Hw Hx. destruct (letter_x_facts _ Hx) as (X1 & X2 & X3).
  unfold CONFIG.COMMANDS.DROP. rewrite exec_bol.
  assert (E : m true
                (lit "drop" +++ plus CONFIG.COMMANDS.ws
                 +++ Grp 1 (plus CONFIG.COMMANDS.hex) +++ Eol)%re
                (kw ++ w ++ "0"%char :: x :: rest) 0 [] k0 = None).
  { rewrite m_seq. unfold lit. rewrite m_lit_ci by exact Hkw.
    rewrite m_seq. apply m_plus_cls_none; [apply cls_in_ws|reflexivity|].
    intros a b ->. apply forallb_app_tail in Hw.
    rewrite m_seq, m_grp. destruct b as [|c b].
    - cbn [app]. unfold plus, CONFIG.COMMANDS.hex.
      rewrite m_seq, m_cls_cons, cls_in_hex.
      change (is_hex "0") with true. cbv iota.
      rewrite m_star, mstar_skip.
      + reflexivity.
      + intros k'. rewrite m_cls_cons, cls_in_hex, X1. reflexivity.
    - cbn [forallb] in Hw. apply andb_true_iff in Hw as [Hc _].
      rewrite <- app_comm_cons. apply hex_from.
      destruct (is_hex c) eqn:E; [|reflexivity].
      rewrite (hex_not_ws _ E) in Hc. discriminate. }
  rewrite E. reflexivity.
Qed.

Lemma mac_target_needs_hex (c : ascii) (s : jstr) (i : nat) (cs : caps)
    (k : cont) :
  is_hex c = false ->
  m true CONFIG.COMMANDS.mac_target (c :: s) i cs k = None.
Proof.
  intros H. unfold CONFIG.COMMANDS.mac_target, CONFIG.COMMANDS.hex.
  rewrite m_seq, (rep_S 4), m_seq, m_seq, (rep_S 1), m_seq, m_cls_cons,
    cls_in_hex, H.
  reflexivity.
Qed.

Lemma mac_target_needs_hex2 (c x : ascii) (s : jstr) (i : nat) (cs : caps)
    (k : cont) :
  is_hex x = false ->
  m true CONFIG.COMMANDS.mac_target (c :: x :: s) i cs k = None.
Proof.
  intros H. unfold CONFIG.COMMANDS.mac_target, CONFIG.COMMANDS.hex.
  rewrite m_seq, (rep_S 4), m_seq, m_seq, (rep_S 1), m_seq, m_cls_cons.
  destruct (cls_in true is_hex c); [|reflexivity].
  rewrite (rep_S 0), m_seq, m_cls_cons, cls_in_hex, H. reflexivity.
Qed.

Lemma ws_is_not_hex (c : ascii) : is_ws c = true -> is_hex c = false.
Proof.
  intros H. destruct (is_hex c) eqn:E; [|reflexivity].
  rewrite (hex_not_ws _ E) in H. discriminate.
Qed.

(** [cmd] followed by a target with the prefix. *)
Lemma CMD_MAC_0x (kw w : jstr) (x : ascii) (rest : jstr) :
  map to_upper kw = str "CMD" ->
  forallb is_ws w = true -> to_upper x = "X"%char ->
  exec CONFIG.COMMANDS.CMD_MAC (kw ++ w ++ "0"%char :: x :: rest) = None.
Proof.
  intros Hkw Hw Hx. destruct (letter_x_facts _ Hx) as (X1 & X2 & X3).
  unfold CONFIG.COMMANDS.CMD_MAC. rewrite exec_bol.
  assert (E : m true
                (lit "cmd" +++ plus CONFIG.COMMANDS.ws
                 +++ Grp 1 (CONFIG.COMMANDS.mac_target
                            +++ Star (Chr "," +++ CONFIG.COMMANDS.mac_target))
                 +++ plus CONFIG.COMMANDS.ws
                 +++ Grp 2 (plus CONFIG.COMMANDS.any) +++ Eol)%re
                (kw ++ w ++ "0"%char :: x :: rest) 0 [] k0 = None).
  { rewrite m_seq. unfold lit. rewrite m_lit_ci by exact Hkw.
    rewrite m_seq. apply m_plus_cls_none; [apply cls_in_ws|reflexivity|].
    intros a b ->. apply forallb_app_tail in Hw.
    rewrite m_seq, m_grp, m_seq. destruct b as [|c b].
    - cbn [app]. apply mac_target_needs_hex2. exact X1.
    - cbn [forallb] in Hw. apply andb_true_iff in Hw as [Hc _].
      rewrite <- app_comm_cons. apply mac_target_needs_hex.
      apply ws_is_not_hex. exact Hc. }
  rewrite E. reflexivity.
Qed.

Lemma CMD_ID_0x (kw w : jstr) (x : ascii) (rest : jstr) :
  map to_upper kw = str "CMD" ->
  forallb is_ws w = true -> to_upper x = "X"%char ->
  exec CONFIG.COMMANDS.CMD_ID (kw ++ w ++ "0"%char :: x :: rest) = None.
Proof.
  intros Hkw Hw Hx. destruct (letter_x_facts _ Hx) as (X1 & X2 & X3).
  unfold CONFIG.COMMANDS.CMD_ID. rewrite exec_bol.
  assert (E : m true
                (lit "cmd" +++ plus CONFIG.COMMANDS.ws
                 +++ Grp 1 (plus (Cls CONFIG.COMMANDS.is_hex_comma))
                 +++ plus CONFIG.COMMANDS.ws
                 +++ Grp 2 (plus CONFIG.COMMANDS.any))%re
                (kw ++ w ++ "0"%char :: x :: rest) 0 [] k0 = None).
  { rewrite m_seq. unfold lit. rewrite m_lit_ci by exact Hkw.
    rewrite m_seq. apply m_plus_cls_none; [apply cls_in_ws|reflexivity|].
    intros a b ->. apply forallb_app_tail in Hw.
    rewrite m_seq, m_grp. destruct b as [|c b].
    - cbn [app]. unfold plus at 1.
      rewrite m_seq, m_cls_cons, cls_in_hex_comma.
      change (CONFIG.COMMANDS.is_hex_comma "0") with true. cbv iota.
      rewrite m_star, mstar_skip.
      + unfold plus, CONFIG.COMMANDS.ws.
        rewrite !m_seq, m_cls_cons, cls_in_ws, X2. reflexivity.
      + intros k'. rewrite m_cls_cons, cls_in_hex_comma, X3. reflexivity.
    - cbn [forallb] in Hw. apply andb_true_iff in Hw as [Hc _].
      rewrite <- app_comm_cons. unfold plus at 1.
      rewrite m_seq, m_cls_cons, cls_in_hex_comma,
        (ws_not_hex_comma _ Hc).
      reflexivity. }
  rewrite E. reflexivity.
Qed.

Lemma CMDALL_cmd_then (kw : jstr) (c : ascii) (s : jstr) :
  map to_upper kw = str "CMD" ->
  chr_eq true "a" c = false ->
  exec CONFIG.COMMANDS.CMDALL (kw ++ c :: s) = None.
Proof.
  intros Hkw Hc. unfold CONFIG.COMMANDS.CMDALL. rewrite exec_bol.
  assert (E : m true
                (lit "cmdall" +++ plus CONFIG.COMMANDS.ws
                 +++ Grp 1 (plus CONFIG.COMMANDS.any) +++ Eol)%re
                (kw ++ c :: s) 0 [] k0 = None).
  { do 3 (destruct kw as [|? kw]; [discriminate|]).
    destruct kw; [|discriminate].
    cbn [map str list_ascii_of_string] in Hkw. injection Hkw as H1 H2 H3.
    unfold lit. cbn [str list_ascii_of_string lit_chars app].
    rewrite !m_seq, m_chr_cons, chr_eq_upper, H1.
    change (Ascii.eqb (to_upper "c") "C") with true. cbv iota.
    rewrite !m_seq, m_chr_cons, chr_eq_upper, H2.
    change (Ascii.eqb (to_upper "m") "M") with true. cbv iota.
    rewrite !m_seq, m_chr_cons, chr_eq_upper, H3.
    change (Ascii.eqb (to_upper "d") "D") with true. cbv iota.
    rewrite !m_seq, m_chr_cons, Hc. reflexivity. }
  rewrite E. reflexivity.
Qed.

Lemma not_letter_a (c : ascii) :
  is_ws c = true \/ c = "0"%char -> chr_eq true "a" c = false.
Proof.
  intros [H| ->]; [|reflexivity].
  apply negb_true_iff. revert H. apply implb_elim. revert c. all_chars.
Qed.

Lemma prefixed_line_passed_over (now : Z) (kw w : jstr) (x : ascii)
    (rest : jstr) (st : state) :
  map to_upper kw = str "DROP" \/ map to_upper kw = str "CMD" ->
  forallb is_ws w = true ->
  to_upper x = "X"%char ->
  processAdminCommand now (kw ++ w ++ "0"%char :: x :: rest) st = (st, []).
Proof.
  intros Hkw Hw Hx.
  unfold processAdminCommand. destruct Hkw as [Hkw|Hkw].
  - rewrite (LS_other_kw (c' := "D") (K' := str "ROP") _ _ Hkw eq_refl).
    rewrite (CMD_MAC_other_kw (c' := "D") (K' := str "ROP") _ _ Hkw eq_refl).
    rewrite (CMD_ID_other_kw (c' := "D") (K' := str "ROP") _ _ Hkw eq_refl).
    rewrite (CMDALL_other_kw (c' := "D") (K' := str "ROP") _ _ Hkw eq_refl).
    rewrite DROP_0x by assumption. reflexivity.
  - rewrite (LS_other_kw (c' := "C") (K' := str "MD") _ _ Hkw eq_refl).
    rewrite CMD_MAC_0x, CMD_ID_0x by assumption.
    assert (EA : exec CONFIG.COMMANDS.CMDALL
                   (kw ++ w ++ "0"%char :: x :: rest) = None).
    { destruct w as [|c w'].
      - cbn [app]. apply CMDALL_cmd_then; [exact Hkw|].
        apply not_letter_a. right. reflexivity.
      - rewrite <- app_comm_cons. apply CMDALL_cmd_then; [exact Hkw|].
        cbn [forallb] in Hw. apply andb_true_iff in Hw as [Hc _].
        apply not_letter_a. left. exact Hc. }
    rewrite EA.
    destruct (kw_head _ Hkw) as (a & kw' & -> & Ha & _).
    rewrite <- app_comm_cons.
    rewrite (@DROP_first a _); [reflexivity|].
    rewrite chr_eq_upper, Ha. reflexivity.
Qed.

Lemma parseId_0x (s : jstr) :
  s <> [] -> forallb is_hex s = true ->
  parseId (str "0x" ++ s) = Some (to_double (numeral 16 s)).
Proof.
  intros Hn Hh. unfold parseId.
  change (startsWith (str "0x") (str "0x" ++ s)) with true. cbn [orb].
  unfold parseInt. change (str "0x" ++ s) with ("0"%char :: "x"%char :: s).
  cbn [drop_ws]. change (is_ws "0") with false. cbv iota.
  unfold strip_sign.
  change (Ascii.eqb "0" "-") with false. change (Ascii.eqb "0" "+") with false.
  cbv iota. change (16 =? 16)%Z with true. cbv iota.
  unfold strip_0x. change (Ascii.eqb "0" "0") with true.
  change (Ascii.eqb "x" "x") with true. cbn [andb orb].
  rewrite digits_run by (apply forallb_hex_digits; exact Hh).
  destruct s as [|c s']; [congruence|]. cbn [option_map].
  rewrite Z.mul_1_l. reflexivity.
Qed.

(** X11.  [parseId] reads an identifier that begins with 0x in base 16,
    prefix skipped, but no command lets such an identifier through: after
    [drop] or [cmd], under any spelling, and any white space, a target that
    begins with 0x or 0X matches none of the patterns, whatever follows,
    and the line is passed over without effect. *)
Theorem prefixed_id_never_accepted (now : Z) (kw w : jstr) (x : ascii)
    (rest : jstr) (st : state) :
  map to_upper kw = str "DROP" \/ map to_upper kw = str "CMD" ->
  forallb is_ws w = true ->
  to_upper x = "X"%char ->
  processAdminCommand now (kw ++ w ++ "0"%char :: x :: rest) st = (st, []) /\
  (forall s, s <> [] -> forallb is_hex s = true ->
     parseId (str "0x" ++ s) = Some (to_double (numeral 16 s))).
Proof.
  intros Hkw Hw Hx. split.
  - apply prefixed_line_passed_over; assumption.
  - apply parseId_0x.
Qed.

Lemma prefixed_id_never_accepted_witness :
  processAdminCommand 0 (str "drop" ++ str " " ++ "0"%char :: "x"%char :: str "3E9")
    demo_state = (demo_state, []) /\
  parseId (str "0x" ++ str "3E9") = Some (numeral 16 (str "3E9")) /\
  numeral 16 (str "3E9") = 1001%Z /\
  findSessionById 1001 demo_state <> None.
Proof.
  destruct (@prefixed_id_never_accepted 0%Z (str "drop") (str " ") "x"%char
              (str "3E9") demo_state (or_introl eq_refl) eq_refl eq_refl)
    as [H1 H2].
  split; [exact H1|].
  split; [exact (H2 (str "3E9") ltac:(discriminate) eq_refl)|].
  split; [reflexivity|discriminate].
Defined.

(** ** The text of a match *)

Lemma consumes_only_weaken (ok ok' : ascii -> bool) (body : matcher) :
  (forall c, ok c = true -> ok' c = true) ->
  consumes_only ok body -> consumes_only ok' body.
Proof.
  intros Hi Hb s i cs k x H. apply Hb in H as (w & s' & cs' & E & Hw & Hk).
  exists w, s', cs'. repeat split; [exact E| |exact Hk].
  rewrite forallb_forall in *. intros c Hc. apply Hi, Hw, Hc.
Qed.

Lemma mstar_consumes_only (ok : ascii -> bool) (body : matcher) :
  consumes_only ok body ->
  forall fuel, consumes_only ok (fun s i cs k => mstar fuel body s i cs k).
Proof.
  intros Hb fuel. induction fuel as [|f IH]; intros s i cs k x H.
  - simpl in H. exists [], s, cs. cbn [app List.length forallb].
    rewrite Nat.add_0_r. repeat split. exact H.
  - rewrite mstar_S in H.
    destruct (body s i cs
                (fun s' i' cs' =>
                   if Nat.eqb i' i then None else mstar f body s' i' cs' k))
      as [y|] eqn:E.
    + injection H as ->. apply Hb in E as (w1 & s1 & cs1 & E1 & W1 & K1).
      destruct (Nat.eqb (i + List.length w1) i); [discriminate|].
      apply IH in K1 as (w2 & s2 & cs2 & E2 & W2 & K2).
      exists (w1 ++ w2), s2, cs2. repeat split.
      * rewrite E1, E2, app_assoc. reflexivity.
      * rewrite forallb_app, W1, W2. reflexivity.
      * rewrite length_app, Nat.add_assoc. exact K2.
    + exists [], s, cs. cbn [app List.length forallb].
      rewrite Nat.add_0_r. repeat split. exact H.
Qed.

Lemma m_consumes_only (ic : bool) (r : re) :
  consumes_only (may_consume ic r) (m ic r).
Proof.
  induction r as [|c|p| | |r1 IH1 r2 IH2|r1 IH1 r2 IH2|r1 IH1|n r1 IH1];
    intros s i cs k x H; cbn [may_consume].
  - exists [], s, cs. cbn [app List.length forallb]. rewrite Nat.add_0_r.
    repeat split. exact H.
  - destruct s as [|a s]; [discriminate|]. rewrite m_chr_cons in H.
    destruct (chr_eq ic c a) eqn:E; [|discriminate].
    exists [a], s, cs. cbn [app List.length forallb]. rewrite E.
    repeat split. rewrite Nat.add_1_r. exact H.
  - destruct s as [|a s]; [discriminate|]. rewrite m_cls_cons in H.
    destruct (cls_in ic p a) eqn:E; [|discriminate].
    exists [a], s, cs. cbn [app List.length forallb]. rewrite E.
    repeat split. rewrite Nat.add_1_r. exact H.
  - simpl in H. destruct (Nat.eqb i 0); [|discriminate].
    exists [], s, cs. cbn [app List.length forallb]. rewrite Nat.add_0_r.
    repeat split. exact H.
  - simpl in H. destruct s; [|discriminate].
    exists [], [], cs. cbn [app List.length forallb]. rewrite Nat.add_0_r.
    repeat split. exact H.
  - rewrite m_seq in H. apply IH1 in H as (w1 & s1 & cs1 & E1 & W1 & K1).
    apply IH2 in K1 as (w2 & s2 & cs2 & E2 & W2 & K2).
    exists (w1 ++ w2), s2, cs2. repeat split.
    + rewrite E1, E2, app_assoc. reflexivity.
    + rewrite forallb_app. apply andb_true_iff. split.
      * rewrite forallb_forall in *. intros c Hc. rewrite (W1 _ Hc). reflexivity.
      * rewrite forallb_forall in *. intros c Hc. rewrite (W2 _ Hc).
        apply orb_true_r.
    + rewrite length_app, Nat.add_assoc. exact K2.
  - simpl in H. destruct (m ic r1 s i cs k) as [y|] eqn:E.
    + injection H as ->. apply IH1 in E as (w1 & s1 & cs1 & E1 & W1 & K1).
      exists w1, s1, cs1. repeat split; [exact E1| |exact K1].
      rewrite forallb_forall in *. intros c Hc. rewrite (W1 _ Hc). reflexivity.
    + apply IH2 in H as (w1 & s1 & cs1 & E1 & W1 & K1).
      exists w1, s1, cs1. repeat split; [exact E1| |exact K1].
      rewrite forallb_forall in *. intros c Hc. rewrite (W1 _ Hc).
      apply orb_true_r.
  - rewrite m_star in H.
    apply (mstar_consumes_only IH1) in H. exact H.
  - rewrite m_grp in H. apply IH1 in H as (w1 & s1 & cs1 & E1 & W1 & K1).
    eexists w1, s1, _. repeat split; [exact E1|exact W1|exact K1].
Qed.

(** The text of a match is a piece of the input, made of characters that
    the pattern can take. *)
Lemma exec_from_text (ic : bool) (r : re) (s : jstr) :
  forall i mt,
    exec_from ic r s i = Some mt ->
    forallb (may_consume ic r) (m_text mt) = true /\
    exists pre post, s = pre ++ m_text mt ++ post.
Proof.
  induction s as [|a s IH]; intros i mt H; simpl in H.
  - destruct (m ic r [] i [] (fun _ i' cs => Some (i', cs))) as [[e cs]|] eqn:E;
      [|discriminate].
    injection H as <-. cbn [m_text]. rewrite firstn_nil.
    split; [reflexivity|]. exists [], []. reflexivity.
  - destruct (m ic r (a :: s) i [] (fun _ i' cs => Some (i', cs)))
      as [[e cs]|] eqn:E.
    + injection H as <-.
      apply m_consumes_only in E as (w & s' & cs' & E1 & W & K).
      injection K as <- <-. cbn [m_text]. rewrite E1, firstn_span.
      split; [exact W|]. exists [], s'. reflexivity.
    + apply IH in H as (W & pre & post & E1). split; [exact W|].
      exists (a :: pre), post. rewrite E1. reflexivity.
Qed.

Lemma mac_alphabet (c : ascii) :
  may_consume false (pattern patterns.mac) c = true -> is_hex_colon c = true.
Proof. apply implb_elim. revert c. all_chars. Qed.

(** What the MAC pattern of the device side matches: at least twelve
    characters, hexadecimal digits and colons, found in the line. *)
Lemma mac_match_text (line : jstr) (mt : match_result) :
  exec patterns.mac line = Some mt ->
  12 <= List.length (m_text mt) /\
  forallb is_hex_colon (m_text mt) = true /\
  exists pre post, line = pre ++ m_text mt ++ post.
Proof.
  intros H. split; [apply (exec_length _ _ H)|].
  apply exec_from_text in H as [W E]. split; [|exact E].
  rewrite forallb_forall in *. intros c Hc. apply mac_alphabet, W, Hc.
Qed.

(** ** Who a session says it is *)

Lemma identities_ok_update (sid : Z) (f : session -> session) (st : state) :
  (forall p, In p (sessions st) -> fst p = sid -> identity_ok (snd p) ->
             identity_ok (f (snd p))) ->
  identities_ok st -> identities_ok (update sid f st).
Proof.
  intros Hf H. unfold identities_ok, update in *. cbn [sessions].
  rewrite Forall_forall in *. intros q Hq.
  apply in_map_iff in Hq as (p & <- & Hp). specialize (H _ Hp).
  destruct (fst p =? sid)%Z eqn:E; [|exact H].
  apply Z.eqb_eq in E. cbn [snd]. apply Hf; assumption.
Qed.

Lemma identities_ok_keep (sid : Z) (f : session -> session) (st : state) :
  (forall s, mac (f s) = mac s /\ token (f s) = token s) ->
  identities_ok st -> identities_ok (update sid f st).
Proof.
  intros Hf. apply identities_ok_update. intros p _ _ H.
  destruct (Hf (snd p)) as [Hm Ht]. unfold identity_ok. rewrite Hm, Ht.
  exact H.
Qed.

Lemma identities_ok_delete (sid : Z) (st : state) :
  identities_ok st ->
  identities_ok {| sessions := map_delete sid (sessions st);
                   sessionIdCounter := sessionIdCounter st |}.
Proof.
  unfold identities_ok, map_delete. cbn [sessions]. intros H.
  rewrite Forall_forall in *. intros p Hp. apply filter_In in Hp as [Hp _].
  apply H. exact Hp.
Qed.

Lemma Forall_map_set (P : Z * session -> Prop) (k : Z) (v : session)
    (l : list (Z * session)) :
  Forall P l -> P (k, v) -> Forall P (map_set k v l).
Proof.
  intros Hl Hv. induction Hl as [|[k' v'] l Hp Hl IH]; cbn [map_set].
  - constructor; [exact Hv|constructor].
  - destruct (k' =? k)%Z; constructor; assumption.
Qed.

Lemma identities_ok_processAdminCommand (now : Z) (line : jstr) (st : state) :
  identities_ok st -> identities_ok (fst (processAdminCommand now line st)).
Proof.
  intros H. unfold processAdminCommand.
  destruct (exec CONFIG.COMMANDS.LS line); [exact H|].
  destruct (exec CONFIG.COMMANDS.CMD_MAC line); [exact H|].
  destruct (exec CONFIG.COMMANDS.CMD_ID line); [exact H|].
  destruct (exec CONFIG.COMMANDS.CMDALL line); [exact H|].
  destruct (exec CONFIG.COMMANDS.DROP line) as [dm|]; [|exact H].
  unfold dropById. destruct (parseId (group 1 dm)) as [k|]; [|exact H].
  destruct (findSessionById k st); [|exact H].
  apply identities_ok_keep; [|exact H]. intros x. split; reflexivity.
Qed.

Lemma identities_ok_handle (e : event) (st : state) :
  identities_ok st -> identities_ok (fst (handle e st)).
Proof.
  intros H.
  destruct e as [a now|sid chunk|sid|sid|sid|sid e0|sid|now line|now line];
    cbn [handle].
  - unfold handleRemoteConnection, identities_ok. cbn [fst sessions].
    apply Forall_map_set; [exact H|]. left. split; reflexivity.
  - unfold onData. destruct (findSessionById sid st) as [s|] eqn:Es;
      [|exact H].
    destruct (is_empty (trim chunk)); [exact H|].
    assert (Hs : identity_ok s).
    { apply map_get_In in Es. unfold identities_ok in H.
      rewrite Forall_forall in H. apply (H _ Es). }
    match goal with
    | |- identities_ok (fst (let '(s1, eff) := ?X in _)) =>
        assert (Hx : identity_ok (fst X))
    end.
    { destruct (exec patterns.mac (trim chunk)) as [mt|] eqn:Em; [|exact Hs].
      destruct (jstr_eqb (mac s) CONFIG.SESSION_DEFAULTS.MAC); [|exact Hs].
      cbn [fst]. right. cbn [mac token set_timer set_mac_token].
      destruct (mac_match_text _ Em) as (L & A & _).
      repeat split; assumption. }
    match goal with
    | |- identities_ok (fst (let '(s1, eff) := ?X in _)) =>
        destruct X as [s1 eff]
    end.
    cbn [fst] in *. apply identities_ok_update; [|exact H].
    intros p _ _ _.
    pose proof (telemetry_all_fields (trim chunk) s1) as T. cbv zeta in T.
    destruct T as (_ & _ & _ & _ & _ & Tm & Tt & _).
    unfold identity_ok. rewrite Tm, Tt. exact Hx.
  - unfold onValidationTimer.
    destruct (findSessionById sid st) as [s|]; [|exact H].
    destruct (timer s); [|exact H]. unfold validationTimeout.
    assert (H1 : identities_ok (update sid (set_timer false) st)).
    { apply identities_ok_keep; [|exact H]. intros x. split; reflexivity. }
    destruct (findSessionById sid (update sid (set_timer false) st)) as [s'|];
      [|exact H1].
    destruct (jstr_eqb (mac s') CONFIG.SESSION_DEFAULTS.MAC); [|exact H1].
    apply identities_ok_keep; [|exact H1]. intros x. split; reflexivity.
  - unfold onTimeout. destruct (findSessionById sid st); [|exact H].
    apply identities_ok_keep; [|exact H]. intros x. split; reflexivity.
  - unfold onEnd. destruct (findSessionById sid st); [|exact H].
    apply identities_ok_keep; [|exact H]. intros x. split; reflexivity.
  - unfold onError. destruct (findSessionById sid st); exact H.
  - unfold onClose. destruct (findSessionById sid st); [|exact H].
    cbn [fst].
    apply (identities_ok_delete sid
             (st := update sid
                      (fun x => set_status CONFIG.CLOSE (set_timer false x)) st)).
    apply identities_ok_keep; [|exact H]. intros x. split; reflexivity.
  - unfold onAdminLine. destruct (is_empty (trim line)); [exact H|].
    pose proof (identities_ok_processAdminCommand now (trim line) H) as H1.
    destruct (processAdminCommand now (trim line) st). exact H1.
  - apply identities_ok_processAdminCommand. exact H.
Qed.

Lemma identities_ok_run (es : list event) :
  forall st, identities_ok st -> identities_ok (fst (run es st)).
Proof.
  induction es as [|e es IH]; intros st H; [exact H|].
  cbn [run]. pose proof (identities_ok_handle e H) as H1.
  destruct (handle e st) as [st1 eff1]. cbn [fst] in H1.
  specialize (IH _ H1). destruct (run es st1) as [st2 eff2]. exact IH.
Qed.

Lemma find_none_all (A : Type) (f : A -> bool) (l : list A) :
  (forall x, In x l -> f x = false) -> find f l = None.
Proof.
  induction l as [|a l IH]; intros H; [reflexivity|]. cbn [find].
  rewrite (H a) by (left; reflexivity). apply IH. intros x Hx. apply H.
  right. exact Hx.
Qed.

Lemma remove_colons_hex (s : jstr) :
  forallb is_hex_colon s = true -> forallb is_hex (remove_all ":" s) = true.
Proof.
  induction s as [|c s IH]; [reflexivity|]. cbn [forallb]. intros H.
  apply andb_true_iff in H as [Hc Hs]. unfold remove_all. cbn [filter].
  destruct (Ascii.eqb c ":") eqn:E; cbn [negb].
  - apply IH. exact Hs.
  - cbn [forallb]. unfold is_hex_colon in Hc. rewrite E, orb_false_r in Hc.
    rewrite Hc. apply IH. exact Hs.
Qed.

(** X12.  In every state that a run reaches, each registered session is
    either unidentified, with [mac] and [token] both at the sentinel, or
    carries as [mac] a text of at least twelve hexadecimal digits and
    colons and as [token] the same text without colons, made of
    hexadecimal digits only.  A MAC address written with dashes, which the
    [cmd] grammar accepts, is therefore never found. *)
Theorem reachable_identities (es : list event) :
  let st := fst (run es initial_state) in
  (forall s, In s (values (sessions st)) ->
     (mac s = str "NA" /\ token s = str "NA") \/
     (12 <= List.length (mac s) /\ forallb is_hex_colon (mac s) = true /\
      token s = remove_all ":" (mac s) /\ forallb is_hex (token s) = true)) /\
  (forall cmd t,
     In "-"%char (trim t) ->
     findSessionByMac (trim t) st = None /\
     cmdByMac cmd st t =
       [Log (str "[CMD ERROR] Device MAC " ++ trim t ++ str " not found.")]).
Proof.
  cbv zeta.
  assert (H0 : identities_ok initial_state) by constructor.
  pose proof (identities_ok_run es H0) as H. unfold identities_ok in H.
  rewrite Forall_forall in H.
  assert (A : forall s, In s (values (sessions (fst (run es initial_state)))) ->
                        identity_ok s).
  { intros s Hs. unfold values in Hs. apply in_map_iff in Hs as (p & <- & Hp).
    apply H. exact Hp. }
  split.
  - intros s Hs. destruct (A s Hs) as [Hna|(L & C & T)]; [left; exact Hna|].
    right. repeat split; try assumption. rewrite T.
    apply remove_colons_hex. exact C.
  - intros cmd t Hd.
    assert (F : findSessionByMac (trim t) (fst (run es initial_state)) = None).
    { unfold findSessionByMac. apply find_none_all. intros s Hs.
      apply jstr_eqb_neq. intros E.
      destruct (A s Hs) as [[Hna _]|(_ & C & _)].
      - rewrite <- E, Hna in Hd. cbn in Hd.
        destruct Hd as [Hd|[Hd|[]]]; discriminate.
      - rewrite <- E in Hd. rewrite forallb_forall in C.
        specialize (C _ Hd). discriminate. }
    split; [exact F|]. unfold cmdByMac. rewrite F. reflexivity.
Qed.

Lemma reachable_identities_witness :
  In "-"%char (trim (str "AA-BB-CC-DD-EE-FF")) /\
  cmdByMac (str "PING")
    (fst (run [Connect (str "10.0.0.7") 0;
               Data 1001 (line_of "AA:BB:CC:DD:EE:FF")] initial_state))
    (str "AA-BB-CC-DD-EE-FF") =
    [Log (str "[CMD ERROR] Device MAC " ++ trim (str "AA-BB-CC-DD-EE-FF")
          ++ str " not found.")].
Proof.
  assert (H : In "-"%char (trim (str "AA-BB-CC-DD-EE-FF"))).
  { vm_compute. right. right. left. reflexivity. }
  split; [exact H|].
  apply (proj2 (@reachable_identities
                  [Connect (str "10.0.0.7") 0;
                   Data 1001 (line_of "AA:BB:CC:DD:EE:FF")])
           (str "PING") (str "AA-BB-CC-DD-EE-FF") H).
Defined.

(** ** Identifiers as they are printed *)

Lemma uint_digits (d : Decimal.uint) :
  forallb is_digit (str (NilEmpty.string_of_uint d)) = true.
Proof.
  unfold str.
  induction d as [|d IH|d IH|d IH|d IH|d IH|d IH|d IH|d IH|d IH|d IH];
    cbn [NilEmpty.string_of_uint list_ascii_of_string forallb];
    [reflexivity|rewrite IH; reflexivity..].
Qed.

Lemma uint_numeral (d : Decimal.uint) :
  forall a,
    fold_left (fun a c => (10 * a + dval c)%Z)
      (str (NilEmpty.string_of_uint d)) a = uacc d a.
Proof.
  unfold str.
  induction d as [|d IH|d IH|d IH|d IH|d IH|d IH|d IH|d IH|d IH|d IH];
    intros a;
    cbn [NilEmpty.string_of_uint list_ascii_of_string fold_left uacc];
    [reflexivity|rewrite IH; reflexivity..].
Qed.

Lemma uacc_pos (d : Decimal.uint) :
  forall p, uacc d (Z.pos p) = Z.pos (Pos.of_uint_acc d p).
Proof.
  induction d as [|d IH|d IH|d IH|d IH|d IH|d IH|d IH|d IH|d IH|d IH];
    intros p; cbn [uacc Pos.of_uint_acc]; [reflexivity|..];
    rewrite <- IH; f_equal; lia.
Qed.

Lemma uacc_0 (d : Decimal.uint) : uacc d 0 = Z.of_N (Pos.of_uint d).
Proof.
  induction d as [|d IH|d IH|d IH|d IH|d IH|d IH|d IH|d IH|d IH|d IH];
    cbn [uacc Pos.of_uint]; [reflexivity|exact IH|..];
    cbn [Z.of_N]; rewrite <- uacc_pos; reflexivity.
Qed.

Lemma digit_is_decimal c :
  is_digit c = true -> is_hex c && negb (is_hex_letter c) = true.
Proof. apply implb_elim. revert c. all_chars. Qed.

Lemma digits_hex (s : jstr) :
  forallb is_digit s = true ->
  forallb is_hex s = true /\ existsb is_hex_letter s = false.
Proof.
  induction s as [|c s IH]; cbn [forallb existsb]; [split; reflexivity|].
  intros H. apply andb_true_iff in H as [Hc Hs].
  apply digit_is_decimal in Hc. apply andb_true_iff in Hc as [H1 H2].
  apply negb_true_iff in H2. destruct (IH Hs) as [I1 I2].
  rewrite H1, H2, I1, I2. split; reflexivity.
Qed.

(** The decimal digits of a natural number. *)
Lemma digits10_nonneg (n : Z) :
  (0 <= n)%Z ->
  digits10 n <> [] /\ forallb is_digit (digits10 n) = true /\
  numeral 10 (digits10 n) = n.
Proof.
  intros Hn. destruct n as [|p|p]; [| |lia].
  - repeat split. discriminate.
  - unfold digits10. cbn [Z.to_int NilZero.string_of_int].
    pose proof (Unsigned.to_uint_nonnil p) as Hnil.
    pose proof (Unsigned.of_to p) as Hto.
    assert (E : NilZero.string_of_uint (Pos.to_uint p) =
                NilEmpty.string_of_uint (Pos.to_uint p)).
    { destruct (Pos.to_uint p); [congruence|reflexivity..]. }
    rewrite E. split; [|split].
    + destruct (Pos.to_uint p); [congruence|discriminate..].
    + apply uint_digits.
    + unfold numeral. rewrite uint_numeral, uacc_0, Hto. reflexivity.
Qed.

(** Below 2^53 every integer is a Number and is printed digit for digit. *)
Lemma to_double_small (n : Z) : (0 <= n < 2 ^ 53)%Z -> to_double n = n.
Proof.
  intros Hn. unfold to_double, round53.
  rewrite Z.abs_eq by lia.
  assert (L : (Z.log2 n - 52 <= 0)%Z).
  { destruct (Z.eq_dec n 0) as [->|Hz]; [cbn; lia|].
    assert (Z.log2 n < 53)%Z by (apply Z.log2_lt_pow2; lia). lia. }
  apply Z.leb_le in L. rewrite L.
  assert (I : (infinity <=? n)%Z = false).
  { apply Z.leb_gt. unfold infinity.
    assert (2 ^ 53 < 2 ^ 1024)%Z by (apply Z.pow_lt_mono_r; lia). lia. }
  rewrite I. destruct n as [|p|p]; cbn [Z.sgn]; lia.
Qed.

Lemma dec_small (n : Z) : (0 <= n < 2 ^ 53)%Z -> dec n = digits10 n.
Proof.
  intros Hn. unfold dec, number_to_string.
  replace (n <? 0)%Z with false by (symmetry; apply Z.ltb_ge; lia).
  replace (n <? 2 ^ 53)%Z with true by (symmetry; apply Z.ltb_lt; lia).
  reflexivity.
Qed.

Lemma parseId_dec (n : Z) :
  (0 <= n < 2 ^ 53)%Z -> parseId (dec n) = Some n.
Proof.
  intros Hn. rewrite (dec_small Hn).
  destruct (@digits10_nonneg n ltac:(lia)) as (H1 & H2 & H3).
  destruct (digits_hex _ H2) as [H4 H5].
  rewrite (parseId_hex_run H1 H4), H5, H3, (to_double_small Hn).
  reflexivity.
Qed.

(** X13.  The identifier of a session is printed, in the lines of [ls]
    and in the broadcasts, as its decimal digits, and [parseId] reads
    these digits back as the same number, for every natural number below
    2^53, which the identifiers are: typed after [drop], the identifier
    that [ls] shows drops the session registered under it, and a number
    under which nothing is registered changes nothing.  (From 2^53 on a
    Number is printed with the fewest digits that tell it from its
    neighbours, and from 10^21 on with an exponent, which [parseId] does
    not read back.) *)
Theorem printed_id_reads_back (now n : Z) (st : state) :
  (0 <= n < 2 ^ 53)%Z ->
  dec n = str (NilZero.string_of_int (Z.to_int n)) /\
  parseId (dec n) = Some n /\
  processAdminCommand now (str "drop " ++ dec n) st =
  match findSessionById n st with
  | Some s =>
      (update n end_destroy st,
       [Log (str "[DROP] " ++ dec n);
        SockEnd (id s) (str "Connection dropped by admin." ++ nl);
        SockDestroy (id s)])
  | None => (st, [])
  end.
Proof.
  intros Hn. pose proof (parseId_dec Hn) as P.
  split; [exact (dec_small Hn)|]. split; [exact P|].
  pose proof P as P'. rewrite (dec_small Hn) in P' |- *.
  destruct (@digits10_nonneg n ltac:(lia)) as (H1 & H2 & _).
  destruct (digits_hex _ H2) as [H4 _].
  change (str "drop " ++ digits10 n)
    with (str "drop" ++ str " " ++ digits10 n).
  rewrite (@drop_line now (str "drop") (str " ") (digits10 n) st eq_refl);
    [|discriminate|reflexivity|exact H1|exact H4].
  unfold dropById. rewrite P'. rewrite (dec_small Hn).
  destruct (findSessionById n st); reflexivity.
Qed.

Lemma printed_id_reads_back_witness :
  dec 1002 = str "1002" /\
  parseId (dec 1002) = Some 1002%Z /\
  processAdminCommand 0 (str "drop " ++ dec 1002) demo_state =
  (update 1002 end_destroy demo_state,
   [Log (str "[DROP] " ++ dec 1002);
    SockEnd 1002 (str "Connection dropped by admin." ++ nl);
    SockDestroy 1002]).
Proof.
  apply (@printed_id_reads_back 0 1002 demo_state). lia.
Defined.

(** ** Uptime *)

Lemma pad2_two_digits (z : Z) :
  (0 <= z < 100)%Z -> two_digits z (pad2 z) = true.
Proof.
  intros Hz.
  assert (A : forallb (fun k => two_digits (Z.of_nat k) (pad2 (Z.of_nat k)))
                (seq 0 100) = true) by (vm_compute; reflexivity).
  rewrite forallb_forall in A. specialize (A (Z.to_nat z)).
  rewrite Z2Nat.id in A by lia. apply A. apply in_seq. lia.
Qed.

(** X14.  The uptime that [ls] prints is the whole number of days of the
    elapsed time, then its time of day as three fields of two digits
    each, hours below 24, minutes and seconds below 60; days and fields
    together count the whole seconds of the elapsed time, the
    milliseconds beyond them are dropped. *)
Theorem formatUptime_fields (now startTime : Z) :
  exists days hh mm ss : Z,
    formatUptime now startTime =
      dec days ++ str " days, " ++ pad2 hh ++ str ":" ++ pad2 mm ++ str ":"
      ++ pad2 ss /\
    two_digits hh (pad2 hh) = true /\ two_digits mm (pad2 mm) = true /\
    two_digits ss (pad2 ss) = true /\
    (0 <= hh < 24)%Z /\ (0 <= mm < 60)%Z /\ (0 <= ss < 60)%Z /\
    (((days * 24 + hh) * 60 + mm) * 60 + ss = (now - startTime) / 1000)%Z.
Proof.
  set (ms := (now - startTime)%Z).
  set (tod := (ms mod 86400000)%Z).
  exists (ms / 86400000)%Z, (tod / 3600000)%Z, ((tod / 60000) mod 60)%Z,
    ((tod / 1000) mod 60)%Z.
  assert (Ht : (0 <= tod < 86400000)%Z) by (apply Z.mod_pos_bound; lia).
  assert (Hh : (0 <= tod / 3600000 < 24)%Z).
  { split; [apply Z.div_pos; lia|apply Z.div_lt_upper_bound; lia]. }
  assert (Hm : (0 <= (tod / 60000) mod 60 < 60)%Z)
    by (apply Z.mod_pos_bound; lia).
  assert (Hs : (0 <= (tod / 1000) mod 60 < 60)%Z)
    by (apply Z.mod_pos_bound; lia).
  split; [reflexivity|].
  split; [apply pad2_two_digits; lia|].
  split; [apply pad2_two_digits; lia|].
  split; [apply pad2_two_digits; lia|].
  split; [exact Hh|]. split; [exact Hm|]. split; [exact Hs|].
  pose proof (Z.div_mod ms 86400000 ltac:(lia)) as E0. fold tod in E0.
  pose proof (Z.div_mod tod 1000 ltac:(lia)) as E1.
  pose proof (Z.mod_pos_bound tod 1000 ltac:(lia)) as B1.
  pose proof (Z.div_mod (tod / 1000) 60 ltac:(lia)) as E2.
  pose proof (Z.div_mod (tod / 1000 / 60) 60 ltac:(lia)) as E3.
  rewrite (Z.div_div tod 1000 60) in E2, E3 by lia.
  change (1000 * 60)%Z with 60000%Z in E2, E3.
  rewrite (Z.div_div tod 60000 60) in E3 by lia.
  change (60000 * 60)%Z with 3600000%Z in E3.
  assert (B3 : ((tod / 60000) mod 60 = tod / 60000 - 60 * (tod / 3600000))%Z)
    by lia.
  apply (Z.div_unique ms 1000 _ (tod mod 1000)); lia.
Qed.

(** ** Telemetry reports *)

Lemma exec_from_hit (ic : bool) (r : re) (s : jstr) (i e : nat) (cs : caps) :
  m ic r s i [] k0 = Some (e, cs) ->
  exec_from ic r s i = Some {| m_text := firstn (e - i) s; m_caps := cs |}.
Proof.
  intros H. destruct s as [|a s]; cbn [exec_from]; fold k0; rewrite H;
    reflexivity.
Qed.

(** A literal without the [i] flag accepts its own text only. *)
Lemma m_lit_cs (K : jstr) :
  forall (s : jstr) (i : nat) (cs : caps) (k : cont),
    m false (lit_chars K) (K ++ s) i cs k = k s (i + List.length K) cs.
Proof.
  induction K as [|c K IH]; intros s i cs k; cbn [lit_chars app List.length].
  - rewrite m_eps, Nat.add_0_r. reflexivity.
  - rewrite m_seq, m_chr_cons. unfold chr_eq. rewrite Ascii.eqb_refl, IH.
    f_equal. lia.
Qed.

Lemma m_lit_cs_none (K : jstr) :
  forall (r : re) (s : jstr) (i : nat) (cs : caps) (k : cont),
    startsWith K s = false ->
    m false (Seq (lit_chars K) r) s i cs k = None.
Proof.
  induction K as [|c K IH]; intros r s i cs k H; [discriminate|].
  cbn [lit_chars]. rewrite !m_seq.
  destruct s as [|a s]; [reflexivity|]. rewrite m_chr_cons. unfold chr_eq.
  cbn [startsWith] in H. destruct (Ascii.eqb c a); [|reflexivity].
  cbn [andb] in H. specialize (IH r s (S i) cs k H). rewrite m_seq in IH.
  exact IH.
Qed.

Lemma m_report (K v post : jstr) (i : nat) :
  v <> [] -> forallb dot v = true -> value_ends post = true ->
  m false (Seq (lit_chars K) (Grp 1 (plus (Cls dot)))) (K ++ v ++ post) i []
    k0 =
  Some (i + List.length K + List.length v, [(1, v)]).
Proof.
  intros Hn Hv Hp. rewrite m_seq, m_lit_cs, m_grp.
  apply m_plus_run; [reflexivity|exact Hn|exact Hv|exact Hp|].
  unfold k0. rewrite firstn_span. reflexivity.
Qed.

Lemma exec_report_some (K v post : jstr) :
  v <> [] -> forallb dot v = true -> value_ends post = true ->
  exists mt,
    exec {| pattern := Seq (lit_chars K) (Grp 1 (plus (Cls dot)));
            ignoreCase := false |} (K ++ v ++ post) = Some mt /\
    group 1 mt = v.
Proof.
  intros Hn Hv Hp. unfold exec. cbn [pattern ignoreCase].
  rewrite (@exec_from_hit _ _ _ _ _ _ (@m_report K v post 0 Hn Hv Hp)).
  eexists. split; reflexivity.
Qed.

Lemma exec_trace_some (v post : jstr) :
  v <> [] -> forallb dot v = true -> value_ends post = true ->
  exists mt,
    exec patterns.trace (str "TRACE=" ++ v ++ post) = Some mt /\
    group 1 mt = v.
Proof.
  intros Hn Hv Hp. unfold patterns.trace. rewrite exec_bol. unfold lit.
  rewrite (@m_report (str "TRACE=") v post 0 Hn Hv Hp).
  eexists. split; reflexivity.
Qed.

Lemma exec_trace_none (line : jstr) :
  startsWith (str "TRACE=") line = false -> exec patterns.trace line = None.
Proof.
  intros H. unfold patterns.trace. rewrite exec_bol. unfold lit.
  rewrite m_lit_cs_none by exact H. reflexivity.
Qed.

(** X15.  A chunk from a registered device whose text, trimmed, is a key
    of the telemetry, the sign [=] and a value sets the field of that key
    to the value, whether or not the session is identified; the value runs
    to the end of the text or to the first line terminator.  [TRACE=] is
    recognised at the start of the trimmed text only: a text that does not
    begin with it leaves the trace as it was. *)
Theorem telemetry_report (sid : Z) (chunk v post : jstr) (st : state)
    (s : session) :
  findSessionById sid st = Some s ->
  v <> [] -> forallb dot v = true -> value_ends post = true ->
  exists s',
    findSessionById sid (fst (onData sid chunk st)) = Some s' /\
    (trim chunk = str "FIRMWARE_VERSION=" ++ v ++ post -> fwVer s' = v) /\
    (trim chunk = str "BLE_MAC=" ++ v ++ post -> bleMac s' = v) /\
    (trim chunk = str "WIFI_MAC=" ++ v ++ post -> wifiMac s' = Some v) /\
    (trim chunk = str "WLAN_VERSION=" ++ v ++ post -> wlanFwVer s' = v) /\
    (trim chunk = str "TRACE=" ++ v ++ post -> trace s' = v) /\
    (startsWith (str "TRACE=") (trim chunk) = false -> trace s' = trace s).
Proof.
  intros Hs Hn Hv Hp. unfold onData. rewrite Hs.
  destruct (is_empty (trim chunk)) eqn:Ee.
  - exists s. split; [exact Hs|].
    assert (E : trim chunk = []).
    { destruct (trim chunk); [reflexivity|discriminate]. }
    rewrite E. repeat split; try discriminate.
  - match goal with
    | |- context [let '(s1, eff) := ?X in _] =>
        assert (Hx : trace (fst X) = trace s) by
          (destruct (exec patterns.mac (trim chunk));
           [destruct (jstr_eqb (mac s) CONFIG.SESSION_DEFAULTS.MAC)|];
           reflexivity);
        destruct X as [s1 eff]
    end.
    cbn [fst] in *. exists (telemetry_all (trim chunk) s1).
    split; [eapply find_update_const; exact Hs|].
    pose proof (telemetry_all_fields (trim chunk) s1) as T. cbv zeta in T.
    destruct T as (T1 & T2 & T3 & T4 & T5 & _).
    split; [|split; [|split; [|split; [|split]]]]; intros E.
    + rewrite T1, E. unfold patterns.firmwareVersion, lit.
      destruct (@exec_report_some (str "FIRMWARE_VERSION=") v post Hn Hv Hp)
        as (mt & -> & G). exact G.
    + rewrite T2, E. unfold patterns.bleMac, lit.
      destruct (@exec_report_some (str "BLE_MAC=") v post Hn Hv Hp)
        as (mt & -> & G). exact G.
    + rewrite T3, E. unfold patterns.wifiMac, lit.
      destruct (@exec_report_some (str "WIFI_MAC=") v post Hn Hv Hp)
        as (mt & -> & G). rewrite G. reflexivity.
    + rewrite T4, E. unfold patterns.wlanFwVer, lit.
      destruct (@exec_report_some (str "WLAN_VERSION=") v post Hn Hv Hp)
        as (mt & -> & G). exact G.
    + rewrite T5, E.
      destruct (@exec_trace_some v post Hn Hv Hp) as (mt & -> & G). exact G.
    + rewrite T5, (exec_trace_none _ E). exact Hx.
Qed.

Lemma telemetry_report_witness :
  trim (line_of "FIRMWARE_VERSION=1.4.2") = str "FIRMWARE_VERSION=" ++ str "1.4.2"
  /\
  exists s',
    findSessionById 1001
      (fst (onData 1001 (line_of "FIRMWARE_VERSION=1.4.2") demo_state))
    = Some s' /\
    fwVer s' = str "1.4.2" /\
    trace s' = trace (demo_session 1001 (str "AA:BB:CC:DD:EE:FF")).
Proof.
  split; [reflexivity|].
  destruct (@telemetry_report 1001 (line_of "FIRMWARE_VERSION=1.4.2")
              (str "1.4.2") [] demo_state
              (demo_session 1001 (str "AA:BB:CC:DD:EE:FF"))
              eq_refl ltac:(discriminate) eq_refl eq_refl)
    as (s' & F & H1 & _ & _ & _ & _ & H6).
  exists s'. split; [exact F|]. split; [apply H1|apply H6]; reflexivity.
Defined.

(** ** Lines of the local console *)

Lemma drop_ws_app_ws (w s : jstr) :
  forallb is_ws w = true -> drop_ws (w ++ s) = drop_ws s.
Proof.
  induction w as [|c w IH]; cbn [forallb app drop_ws]; [reflexivity|].
  intros H. apply andb_true_iff in H as [Hc Hw]. rewrite Hc. apply IH, Hw.
Qed.

Lemma drop_ws_id (s : jstr) :
  match s with [] => true | c :: _ => negb (is_ws c) end = true ->
  drop_ws s = s.
Proof.
  destruct s as [|c s]; [reflexivity|]. cbn [drop_ws]. intros H.
  apply negb_true_iff in H. rewrite H. reflexivity.
Qed.

(** [trim] takes the white space after a text that ends in a character
    that is none. *)
Lemma trim_trailing (a : ascii) (body : jstr) (c : ascii) (w2 : jstr) :
  is_ws a = false -> is_ws c = false -> forallb is_ws w2 = true ->
  trim ((a :: body ++ [c]) ++ w2) = a :: body ++ [c].
Proof.
  intros Ha Hc Hw. unfold trim.
  rewrite (drop_ws_id ((a :: body ++ [c]) ++ w2))
    by (cbn [app]; rewrite Ha; reflexivity).
  rewrite rev_app_distr, drop_ws_app_ws by (rewrite forallb_rev; exact Hw).
  change (a :: body ++ [c]) with ((a :: body) ++ [c]).
  rewrite rev_app_distr. cbn [rev app].
  rewrite drop_ws_id by (rewrite Hc; reflexivity).
  cbn [rev]. rewrite rev_app_distr, rev_involutive. reflexivity.
Qed.

Lemma letter_d_not_ws (a : ascii) : to_upper a = "D"%char -> is_ws a = false.
Proof.
  intros H.
  assert (A : Ascii.eqb (to_upper a) "D" = true) by (rewrite H; reflexivity).
  clear H. apply negb_true_iff. revert A. apply implb_elim. revert a.
  all_chars.
Qed.

(** [drop], an identifier and white space after it: the pattern ends at
    the identifier. *)
Lemma DROP_trailing (kw w idStr w2 : jstr) :
  map to_upper kw = str "DROP" ->
  forallb is_ws w = true -> idStr <> [] -> forallb is_hex idStr = true ->
  w2 <> [] -> forallb is_ws w2 = true ->
  exec CONFIG.COMMANDS.DROP (kw ++ w ++ idStr ++ w2) = None.
Proof.
  intros Hkw Hw Hin Hi Hn2 Hw2.
  unfold CONFIG.COMMANDS.DROP. rewrite exec_bol.
  assert (E : m true
                (lit "drop" +++ plus CONFIG.COMMANDS.ws
                 +++ Grp 1 (plus CONFIG.COMMANDS.hex) +++ Eol)%re
                (kw ++ w ++ idStr ++ w2) 0 [] k0 = None).
  { rewrite m_seq. unfold lit. rewrite m_lit_ci by exact Hkw.
    rewrite m_seq. apply m_plus_cls_none;
      [apply cls_in_ws|apply hex_head_not_ws; assumption|].
    intros a b ->. apply forallb_app_tail in Hw.
    rewrite m_seq, m_grp. destruct b as [|c b].
    - cbn [app]. apply m_plus_cls_none; [apply cls_in_hex| |].
      + destruct w2 as [|c2 w2]; [congruence|]. cbn [forallb] in Hw2.
        apply andb_true_iff in Hw2 as [H2 _].
        rewrite (ws_is_not_hex _ H2). reflexivity.
      + intros a' b' _. destruct b' as [|x b']; cbn [app m].
        * destruct w2; [congruence|reflexivity].
        * reflexivity.
    - cbn [forallb] in Hw. apply andb_true_iff in Hw as [Hc _].
      rewrite <- app_comm_cons. apply hex_from.
      apply ws_is_not_hex. exact Hc. }
  rewrite E. reflexivity.
Qed.

(** X16.  The lines of the local console reach [processAdminCommand] as
    they were typed, the lines of an admin connection trimmed.  A [drop]
    with white space after the identifier is therefore no command on the
    console, where it changes nothing and says nothing, and is the [drop]
    of that identifier on an admin connection; there the line is echoed
    first, on the console never. *)
Theorem console_line_not_trimmed (now : Z) (kw w idStr w2 : jstr) (st : state) :
  map to_upper kw = str "DROP" ->
  w <> [] -> forallb is_ws w = true ->
  idStr <> [] -> forallb is_hex idStr = true ->
  w2 <> [] -> forallb is_ws w2 = true ->
  handle (CliLine now (kw ++ w ++ idStr ++ w2)) st = (st, []) /\
  handle (CliLine now (kw ++ w ++ idStr)) st = dropById idStr st /\
  handle (AdminLine now (kw ++ w ++ idStr ++ w2)) st =
    (fst (dropById idStr st),
     Log (str "[ADMIN] " ++ kw ++ w ++ idStr) :: snd (dropById idStr st)).
Proof.
  intros Hkw Hwn Hw Hin Hi Hn2 Hw2. cbn [handle].
  pose proof (@drop_line now kw w idStr st Hkw Hwn Hw Hin Hi) as D.
  split; [|split; [exact D|]].
  - unfold processAdminCommand.
    rewrite (LS_other_kw (c' := "D") (K' := str "ROP") _ _ Hkw eq_refl).
    rewrite (CMD_MAC_other_kw (c' := "D") (K' := str "ROP") _ _ Hkw eq_refl).
    rewrite (CMD_ID_other_kw (c' := "D") (K' := str "ROP") _ _ Hkw eq_refl).
    rewrite (CMDALL_other_kw (c' := "D") (K' := str "ROP") _ _ Hkw eq_refl).
    rewrite DROP_trailing by assumption. reflexivity.
  - assert (T : trim (kw ++ w ++ idStr ++ w2) = kw ++ w ++ idStr).
    { pose proof Hkw as Hk. apply kw_head in Hk as (a & kw' & -> & Ha & _).
      destruct (exists_last Hin) as (i0 & c & ->).
      assert (Hc : is_ws c = false).
      { apply hex_not_ws. rewrite forallb_app in Hi.
        apply andb_true_iff in Hi as [_ Hi]. cbn [forallb] in Hi.
        apply andb_true_iff in Hi as [Hi _]. exact Hi. }
      replace ((a :: kw') ++ w ++ (i0 ++ [c]) ++ w2)
        with ((a :: (kw' ++ w ++ i0) ++ [c]) ++ w2)
        by (cbn [app]; rewrite <- !app_assoc; reflexivity).
      rewrite (@trim_trailing _ _ _ _ (@letter_d_not_ws _ Ha) Hc Hw2).
      cbn [app]. rewrite <- !app_assoc. reflexivity. }
    unfold onAdminLine. rewrite T.
    assert (E : is_empty (kw ++ w ++ idStr) = false).
    { apply kw_head in Hkw as (a & kw' & -> & _). reflexivity. }
    rewrite E, D. destruct (dropById idStr st). reflexivity.
Qed.

Lemma console_line_not_trimmed_witness :
  handle (CliLine 0 (str "drop" ++ str " " ++ str "1002" ++ str " "))
    demo_state = (demo_state, []) /\
  handle (CliLine 0 (str "drop" ++ str " " ++ str "1002")) demo_state =
    dropById (str "1002") demo_state /\
  handle (AdminLine 0 (str "drop" ++ str " " ++ str "1002" ++ str " "))
    demo_state =
    (fst (dropById (str "1002") demo_state),
     Log (str "[ADMIN] " ++ str "drop" ++ str " " ++ str "1002")
       :: snd (dropById (str "1002") demo_state)).
Proof.
  apply (@console_line_not_trimmed 0 (str "drop") (str " ") (str "1002")
           (str " ") demo_state);
    try reflexivity; discriminate.
Defined.

(** ** What the admins receive *)

Lemma sent_app (k : nat) (a b : list output) :
  sent k (a ++ b) = sent k a ++ sent k b.
Proof. apply flat_map_app. Qed.

Lemma console_app (a b : list output) :
  console (a ++ b) = console a ++ console b.
Proof. apply flat_map_app. Qed.

Lemma device_ops_app (a b : list output) :
  device_ops (a ++ b) = device_ops a ++ device_ops b.
Proof. apply flat_map_app. Qed.

Lemma adm_get_In (k : nat) (a : admin) (l : list (nat * admin)) :
  adm_get k l = Some a -> In (k, a) l.
Proof.
  induction l as [|[k' v] l IH]; cbn [adm_get]; [discriminate|].
  destruct (Nat.eqb k' k) eqn:E.
  - apply Nat.eqb_eq in E. intros H. injection H as ->. left. congruence.
  - intros H. right. apply IH, H.
Qed.

Lemma In_adm_get (k : nat) (a : admin) (l : list (nat * admin)) :
  NoDup (map fst l) -> In (k, a) l -> adm_get k l = Some a.
Proof.
  induction l as [|[k' v] l IH]; cbn [map fst adm_get In]; [tauto|].
  intros Hd [H|H].
  - injection H as -> ->. rewrite Nat.eqb_refl. reflexivity.
  - apply NoDup_cons_iff in Hd as [Hn Hd].
    destruct (Nat.eqb k' k) eqn:E; [|apply IH; assumption].
    apply Nat.eqb_eq in E. subst k'. exfalso. apply Hn.
    apply (in_map fst) in H. exact H.
Qed.

(** The writes of one broadcast to the admin of rank [k]. *)
Lemma sent_logToAdmins_silent (k : nat) (now msg : jstr)
    (ads : list (nat * admin)) :
  (forall a, In (k, a) ads -> writable (adm_socket a) = false) ->
  sent k (logToAdmins now msg ads) = [].
Proof.
  intros H. unfold logToAdmins. cbv zeta. unfold sent. cbn [flat_map app].
  induction ads as [|[k' v] ads IH]; [reflexivity|].
  cbn [flat_map fst snd]. rewrite flat_map_app, IH.
  - rewrite app_nil_r. destruct (writable (adm_socket v)) eqn:W;
      [|reflexivity].
    cbn [flat_map app]. destruct (Nat.eqb k' k) eqn:E; [|reflexivity].
    apply Nat.eqb_eq in E. subst k'. rewrite (H v) in W by (left; reflexivity).
    discriminate.
  - intros a Ha. apply H. right. exact Ha.
Qed.

Lemma sent_logToAdmins (k : nat) (a : admin) (now msg : jstr)
    (ads : list (nat * admin)) :
  NoDup (map fst ads) -> In (k, a) ads ->
  sent k (logToAdmins now msg ads) =
  if writable (adm_socket a)
  then [((str "[" ++ now ++ str "]") ++ msg) ++ nl]
  else [].
Proof.
  intros Hd Hin.
  assert (A : forall ads0,
             ~ In k (map fst ads0) ->
             sent k (logToAdmins now msg ads0) = []).
  { intros ads0 Hn. apply sent_logToAdmins_silent. intros a0 Ha0.
    exfalso. apply Hn. apply (in_map fst) in Ha0. exact Ha0. }
  unfold logToAdmins in *. cbv zeta in *. unfold sent in *.
  cbn [flat_map app] in *.
  induction ads as [|[k' v] ads IH]; [destruct Hin|].
  cbn [map fst] in Hd. apply NoDup_cons_iff in Hd as [Hn Hd].
  cbn [flat_map fst snd]. rewrite flat_map_app. destruct Hin as [Hin|Hin].
  - injection Hin as -> ->. rewrite (A ads Hn), app_nil_r.
    destruct (writable (adm_socket a)); [|reflexivity].
    cbn [flat_map app]. rewrite Nat.eqb_refl. reflexivity.
  - rewrite (IH Hd Hin).
    assert (E : Nat.eqb k' k = false).
    { apply Nat.eqb_neq. intros ->. apply Hn. apply (in_map fst) in Hin.
      exact Hin. }
    destruct (writable (adm_socket v)); [|reflexivity].
    cbn [flat_map app]. rewrite E. reflexivity.
Qed.

Lemma console_logToAdmins (now msg : jstr) (ads : list (nat * admin)) :
  console (logToAdmins now msg ads) = [(str "[" ++ now ++ str "]") ++ msg].
Proof.
  unfold logToAdmins. cbv zeta. unfold console. cbn [flat_map app].
  f_equal.
  induction ads as [|[k v] ads IH]; [reflexivity|].
  cbn [flat_map fst snd]. rewrite flat_map_app, IH, app_nil_r.
  destruct (writable (adm_socket v)); reflexivity.
Qed.

Lemma device_ops_logToAdmins (now msg : jstr) (ads : list (nat * admin)) :
  device_ops (logToAdmins now msg ads) = [].
Proof.
  unfold logToAdmins. cbv zeta. unfold device_ops. cbn [flat_map app].
  induction ads as [|[k v] ads IH]; [reflexivity|].
  cbn [flat_map fst snd]. rewrite flat_map_app, IH, app_nil_r.
  destruct (writable (adm_socket v)); reflexivity.
Qed.

Lemma deliver_console (clock : nat -> jstr) (ads : list (nat * admin))
    (eff : list effect) :
  forall n, console (deliver clock n ads eff) = stamp clock n (logs eff).
Proof.
  induction eff as [|e eff IH]; intros n; [reflexivity|].
  destruct e; cbn [deliver]; try apply IH.
  rewrite console_app, console_logToAdmins, IH. reflexivity.
Qed.

Lemma deliver_device_ops (clock : nat -> jstr) (ads : list (nat * admin))
    (eff : list effect) :
  forall n,
    device_ops (deliver clock n ads eff) =
    filter (fun e => negb (is_log e)) eff.
Proof.
  induction eff as [|e eff IH]; intros n; [reflexivity|].
  destruct e; cbn [deliver filter is_log negb];
    try (change (device_ops (Device ?x :: ?l)) with (x :: device_ops l);
         rewrite IH; reflexivity).
  rewrite device_ops_app, device_ops_logToAdmins, IH. reflexivity.
Qed.

Lemma deliver_sent (k : nat) (a : admin) (clock : nat -> jstr)
    (ads : list (nat * admin)) (eff : list effect) :
  NoDup (map fst ads) -> In (k, a) ads ->
  forall n,
    sent k (deliver clock n ads eff) =
    if writable (adm_socket a)
    then map (fun t => t ++ nl) (stamp clock n (logs eff))
    else [].
Proof.
  intros Hd Hin. induction eff as [|e eff IH]; intros n.
  - destruct (writable (adm_socket a)); reflexivity.
  - destruct e; cbn [deliver]; try apply IH.
    rewrite sent_app, (@sent_logToAdmins k a _ _ ads Hd Hin), IH.
    destruct (writable (adm_socket a)); [|reflexivity].
    reflexivity.
Qed.

Lemma deliver_sent_silent (k : nat) (clock : nat -> jstr)
    (ads : list (nat * admin)) (eff : list effect) :
  (forall a, In (k, a) ads -> writable (adm_socket a) = false) ->
  forall n, sent k (deliver clock n ads eff) = [].
Proof.
  intros H. induction eff as [|e eff IH]; intros n; [reflexivity|].
  destruct e; cbn [deliver]; try apply IH.
  rewrite sent_app, sent_logToAdmins_silent, IH by exact H. reflexivity.
Qed.

(** X17.  Whatever the handlers broadcast reaches the console and every
    registered admin whose socket is writable, the same lines in the same
    order, each ended by a line feed on the sockets; an admin whose socket
    is not writable receives nothing.  So the answer to the command of one
    admin, its echo first, goes to all of them.  The set of admins is left
    as it is, and the operations on the device sockets are those of the
    handler. *)
Theorem every_admin_sees_the_console (e : event) (clock : nat -> jstr)
    (sv : server) (k : nat) (a : admin) :
  NoDup (map fst (admins sv)) -> In (k, a) (admins sv) ->
  let eff := snd (handle e (core sv)) in
  let sv' := fst (step (Core e clock) sv) in
  let outs := snd (step (Core e clock) sv) in
  console outs = stamp clock 0 (logs eff) /\
  sent k outs =
    (if writable (adm_socket a)
     then map (fun t => t ++ nl) (console outs) else []) /\
  device_ops outs = filter (fun x => negb (is_log x)) eff /\
  admins sv' = admins sv /\ core sv' = fst (handle e (core sv)).
Proof.
  intros Hd Hin. cbv zeta. cbn [step].
  destruct (handle e (core sv)) as [st' eff]. cbn [fst snd admins core].
  rewrite deliver_console, deliver_device_ops,
    (@deliver_sent k a _ _ _ Hd Hin).
  repeat split.
Qed.

Lemma demo_server_ok : admins_ok demo_server.
Proof.
  split.
  - cbn. repeat constructor; cbn; intros H;
      repeat (destruct H as [H|H]; [discriminate|]); exact H.
  - repeat constructor; cbn; lia.
Qed.

Lemma every_admin_sees_the_console_witness :
  let outs :=
    snd (step (Core (AdminLine 0 (str "ls")) (fun _ => str "T")) demo_server)
  in
  List.length (console outs) = 3 /\
  sent 2 outs = map (fun t => t ++ nl) (console outs).
Proof.
  cbv zeta. split; [reflexivity|].
  apply (@every_admin_sees_the_console (AdminLine 0 (str "ls"))
           (fun _ => str "T") demo_server 2 (demo_admin "10.0.0.2" true)
           (proj1 demo_server_ok)).
  right. right. left. reflexivity.
Defined.

(** ** Admins that come and go *)

Lemma admins_ok_connect (addr0 now : jstr) (sv : server) :
  admins_ok sv -> admins_ok (fst (handleAdminConnection addr0 now sv)).
Proof.
  intros [Hd Hf]. unfold handleAdminConnection. cbv zeta.
  cbn [fst]. split; cbn [admins adminCount].
  - rewrite map_app. cbn [map fst].
    apply NoDup_app; [exact Hd|repeat constructor; intros []|].
    intros k Hk [E|[]]. subst k. rewrite Forall_forall in Hf.
    apply in_map_iff in Hk as (p & E & Hp). specialize (Hf _ Hp). lia.
  - apply Forall_app. split.
    + eapply Forall_impl; [|exact Hf]. cbn beta. intros p Hp. lia.
    + repeat constructor.
Qed.

Lemma adm_update_keys (k : nat) (f : admin -> admin) (l : list (nat * admin)) :
  map fst (adm_update k f l) = map fst l.
Proof.
  unfold adm_update. rewrite map_map. apply map_ext. intros p.
  destruct (Nat.eqb (fst p) k); reflexivity.
Qed.

Lemma admins_ok_update (k : nat) (f : admin -> admin) (sv : server) :
  admins_ok sv ->
  admins_ok {| core := core sv; admins := adm_update k f (admins sv);
               adminCount := adminCount sv |}.
Proof.
  intros [Hd Hf]. split; cbn [admins adminCount].
  - rewrite adm_update_keys. exact Hd.
  - rewrite Forall_forall in *. intros q Hq. unfold adm_update in Hq.
    apply in_map_iff in Hq as (p & <- & Hp). specialize (Hf _ Hp).
    destruct (Nat.eqb (fst p) k); exact Hf.
Qed.

Lemma NoDup_map_filter (A B : Type) (f : A -> B) (g : A -> bool) (l : list A) :
  NoDup (map f l) -> NoDup (map f (filter g l)).
Proof.
  induction l as [|a l IH]; cbn [map filter]; [auto|]. intros H.
  apply NoDup_cons_iff in H as [Hn Hd]. destruct (g a); [|apply IH, Hd].
  cbn [map]. constructor; [|apply IH, Hd]. intros Hin. apply Hn.
  apply in_map_iff in Hin as (x & E & Hx). apply filter_In in Hx as [Hx _].
  rewrite <- E. apply in_map. exact Hx.
Qed.

Lemma admins_ok_delete (k : nat) (sv : server) :
  admins_ok sv ->
  admins_ok {| core := core sv; admins := adm_delete k (admins sv);
               adminCount := adminCount sv |}.
Proof.
  intros [Hd Hf]. split; cbn [admins adminCount].
  - apply NoDup_map_filter. exact Hd.
  - rewrite Forall_forall in *. intros q Hq. apply filter_In in Hq as [Hq _].
    apply Hf, Hq.
Qed.

Lemma admins_ok_step (ev : server_event) (sv : server) :
  admins_ok sv -> admins_ok (fst (step ev sv)).
Proof.
  intros H. destruct ev as [e clock|a now|k e|k now|k now|k now|k];
    cbn [step].
  - destruct (handle e (core sv)). exact H.
  - apply admins_ok_connect, H.
  - unfold onAdminError. destruct (adm_get k (admins sv)); exact H.
  - unfold onAdminClose. destruct (adm_get k (admins sv)); [|exact H].
    apply admins_ok_delete, H.
  - unfold onAdminTimeout. destruct (adm_get k (admins sv)); [|exact H].
    apply admins_ok_update, H.
  - unfold onAdminEnd. destruct (adm_get k (admins sv)); exact H.
  - apply admins_ok_update, H.
Qed.

Lemma admins_ok_serve (evs : list server_event) :
  forall sv, admins_ok sv -> admins_ok (fst (serve evs sv)).
Proof.
  induction evs as [|ev evs IH]; intros sv H; [exact H|].
  cbn [serve]. pose proof (admins_ok_step ev H) as H1.
  destruct (step ev sv) as [sv1 out1]. cbn [fst] in H1.
  specialize (IH _ H1). destruct (serve evs sv1). exact IH.
Qed.

(** X18.  A new admin connection is added to the set before it is
    announced: the announcement goes to the console, to the admins that
    were there with a writable socket, and to the new admin itself.  The
    new admin comes last in the set, under a rank that no admin there
    has; the admins that were there and the sessions are left as they
    are. *)
Theorem admin_connection_announced (addr0 now : jstr) (sv : server) :
  admins_ok sv ->
  let sv' := fst (handleAdminConnection addr0 now sv) in
  let outs := snd (handleAdminConnection addr0 now sv) in
  let line := (str "[" ++ now ++ str "]") ++ str "[ADMIN CONN] " ++ addr0 in
  exists admin0,
    admins sv' = admins sv ++ [(adminCount sv, admin0)] /\
    adm_addr admin0 = addr0 /\ writable (adm_socket admin0) = true /\
    ~ In (adminCount sv) (map fst (admins sv)) /\
    admins_ok sv' /\ core sv' = core sv /\
    console outs = [line] /\
    sent (adminCount sv) outs = [line ++ nl] /\
    (forall k a, In (k, a) (admins sv) ->
       sent k outs = if writable (adm_socket a) then [line ++ nl] else []) /\
    device_ops outs = [].
Proof.
  intros Hok. cbv zeta. pose proof (admins_ok_connect addr0 now Hok) as Hok'.
  destruct Hok as [Hd Hf]. unfold handleAdminConnection in *. cbv zeta in *.
  cbn [fst snd admins core adm_addr] in *.
  eexists. split; [reflexivity|]. split; [reflexivity|].
  split; [reflexivity|].
  split.
  { intros Hin. rewrite Forall_forall in Hf.
    apply in_map_iff in Hin as (p & E & Hp). specialize (Hf _ Hp). lia. }
  split; [exact Hok'|]. split; [reflexivity|].
  split; [apply console_logToAdmins|].
  destruct Hok' as [Hd' _]. cbn [admins] in Hd'.
  split; [|split; [|apply device_ops_logToAdmins]].
  - match type of Hd' with
    | NoDup (map fst (_ ++ [?p])) =>
        assert (Hnew : In p (admins sv ++ [p]))
          by (apply in_or_app; right; left; reflexivity)
    end.
    rewrite (@sent_logToAdmins _ _ _ _ _ Hd' Hnew). reflexivity.
  - intros k a Hin.
    match type of Hd' with
    | NoDup (map fst (_ ++ [?p])) =>
        assert (Hold : In (k, a) (admins sv ++ [p]))
          by (apply in_or_app; left; exact Hin)
    end.
    rewrite (@sent_logToAdmins _ _ _ _ _ Hd' Hold). reflexivity.
Qed.

Lemma admin_connection_announced_witness :
  let outs := snd (handleAdminConnection (str "10.0.0.9") (str "T") demo_server)
  in
  sent 3 outs = [(str "[T]" ++ str "[ADMIN CONN] 10.0.0.9") ++ nl] /\
  sent 1 outs = [].
Proof.
  cbv zeta.
  destruct (@admin_connection_announced (str "10.0.0.9") (str "T") demo_server
              demo_server_ok)
    as (admin0 & _ & _ & _ & _ & _ & _ & _ & H1 & H2 & _).
  split; [exact H1|].
  apply (H2 1 (demo_admin "10.0.0.3" false)). right. left. reflexivity.
Defined.

Lemma adm_get_delete (k : nat) (l : list (nat * admin)) :
  adm_get k (adm_delete k l) = None.
Proof.
  induction l as [|[k' v] l IH]; [reflexivity|].
  unfold adm_delete in *. cbn [filter fst].
  destruct (Nat.eqb k' k) eqn:E; cbn [negb]; [exact IH|].
  cbn [adm_get]. rewrite E. exact IH.
Qed.

Lemma adm_get_update (k : nat) (f : admin -> admin) (l : list (nat * admin)) :
  adm_get k (adm_update k f l) = option_map f (adm_get k l).
Proof.
  induction l as [|[k' v] l IH]; [reflexivity|].
  unfold adm_update in *. cbn [map fst snd adm_get].
  destruct (Nat.eqb k' k) eqn:E; cbn [adm_get fst]; rewrite E;
    [reflexivity|exact IH].
Qed.

Lemma In_adm_delete (k k' : nat) (a : admin) (l : list (nat * admin)) :
  In (k', a) (adm_delete k l) <-> In (k', a) l /\ k' <> k.
Proof.
  unfold adm_delete. rewrite filter_In. cbn [fst].
  rewrite negb_true_iff, Nat.eqb_neq. tauto.
Qed.

Lemma In_adm_update (k k' : nat) (f : admin -> admin) (a : admin)
    (l : list (nat * admin)) :
  In (k', a) (adm_update k f l) ->
  (k' = k /\ exists a0, In (k, a0) l /\ a = f a0) \/ (k' <> k /\ In (k', a) l).
Proof.
  unfold adm_update. intros H. apply in_map_iff in H as ([k0 a0] & E & Hp).
  cbn [fst snd] in E. destruct (Nat.eqb k0 k) eqn:Ek.
  - apply Nat.eqb_eq in Ek. subst k0. injection E as <- <-.
    left. split; [reflexivity|]. exists a0. split; [exact Hp|reflexivity].
  - apply Nat.eqb_neq in Ek. injection E as <- <-. right. split; assumption.
Qed.

Lemma quiet_update (k k' : nat) (f : admin -> admin) (sv : server) :
  (forall a, writable (adm_socket (f a)) = false) ->
  quiet k sv ->
  quiet k {| core := core sv; admins := adm_update k' f (admins sv);
             adminCount := adminCount sv |}.
Proof.
  intros Hf [Hk Hq]. split; [exact Hk|]. cbn [admins]. intros a Ha.
  apply In_adm_update in Ha as [(_ & a0 & _ & ->)|[_ Ha]];
    [apply Hf|apply Hq, Ha].
Qed.

Lemma quiet_step (k : nat) (ev : server_event) (sv : server) :
  quiet k sv ->
  quiet k (fst (step ev sv)) /\ sent k (snd (step ev sv)) = [].
Proof.
  intros Hq. pose proof Hq as [Hk Hw].
  destruct ev as [e clock|a0 now|k' e|k' now|k' now|k' now|k']; cbn [step].
  - destruct (handle e (core sv)) as [st' eff]. cbn [fst snd].
    split; [exact Hq|]. apply deliver_sent_silent, Hw.
  - unfold handleAdminConnection. cbv zeta. cbn [fst snd].
    assert (Hw' : forall a,
               In (k, a)
                 (admins sv ++
                  [(adminCount sv,
                    {| adm_addr := a0;
                       adm_socket := {| writable := true; destroyed := false |};
                       adm_status := CONFIG.CONNECT |})]) ->
               writable (adm_socket a) = false).
    { intros a Ha. apply in_app_or in Ha as [Ha|[Ha|[]]]; [apply Hw, Ha|].
      injection Ha as E _. lia. }
    split; [split; [cbn [adminCount]; lia|exact Hw']|].
    apply sent_logToAdmins_silent, Hw'.
  - unfold onAdminError. destruct (adm_get k' (admins sv)) as [adm|];
      split; try exact Hq; reflexivity.
  - unfold onAdminClose. destruct (adm_get k' (admins sv)) as [adm|];
      [|split; [exact Hq|reflexivity]].
    cbn [fst snd].
    assert (Hw' : forall a, In (k, a) (adm_delete k' (admins sv)) ->
                            writable (adm_socket a) = false).
    { intros a Ha. apply In_adm_delete in Ha as [Ha _]. apply Hw, Ha. }
    split; [split; [exact Hk|exact Hw']|].
    change (sent k (ReadlineClose k' :: ?l)) with (sent k l).
    apply sent_logToAdmins_silent, Hw'.
  - unfold onAdminTimeout. destruct (adm_get k' (admins sv)) as [adm|];
      [|split; [exact Hq|reflexivity]].
    cbn [fst snd]. split.
    + apply quiet_update; [reflexivity|exact Hq].
    + rewrite sent_app, sent_logToAdmins_silent by exact Hw. reflexivity.
  - unfold onAdminEnd. destruct (adm_get k' (admins sv)) as [adm|];
      [|split; [exact Hq|reflexivity]].
    cbn [fst snd]. split; [exact Hq|]. apply sent_logToAdmins_silent, Hw.
  - cbn [fst snd]. split; [|reflexivity].
    apply quiet_update; [reflexivity|exact Hq].
Qed.

Lemma quiet_serve (k : nat) (evs : list server_event) :
  forall sv, quiet k sv -> sent k (snd (serve evs sv)) = [].
Proof.
  induction evs as [|ev evs IH]; intros sv Hq; [reflexivity|].
  cbn [serve]. destruct (quiet_step ev Hq) as [H1 H2].
  destruct (step ev sv) as [sv1 out1]. cbn [fst snd] in *.
  specialize (IH _ H1). destruct (serve evs sv1) as [sv2 out2].
  cbn [snd] in *. rewrite sent_app, H2, IH. reflexivity.
Qed.

Lemma registered_below_count (k : nat) (a : admin) (sv : server) :
  admins_ok sv -> adm_get k (admins sv) = Some a -> k < adminCount sv.
Proof.
  intros [_ Hf] H. apply adm_get_In in H. rewrite Forall_forall in Hf.
  apply (Hf _ H).
Qed.

(** X19.  When the connection of an admin closes, the admin is taken out
    of the set before the closing is announced: the announcement goes to
    the console and to the other admins with a writable socket, never to
    the admin that closed.  Its line reader is closed, the other admins
    and the sessions are left as they are, and whatever happens
    afterwards, nothing is written to the closed admin again. *)
Theorem admin_close_unregisters (k : nat) (now : jstr) (sv : server)
    (a : admin) (evs : list server_event) :
  admins_ok sv -> adm_get k (admins sv) = Some a ->
  let sv' := fst (onAdminClose k now sv) in
  let outs := snd (onAdminClose k now sv) in
  let line :=
    (str "[" ++ now ++ str "]") ++ str "[ADMIN CLOSE] " ++ adm_addr a in
  adm_get k (admins sv') = None /\
  (forall k' a', k' <> k ->
     (In (k', a') (admins sv') <-> In (k', a') (admins sv))) /\
  core sv' = core sv /\
  console outs = [line] /\
  sent k outs = [] /\
  (forall k' a', k' <> k -> In (k', a') (admins sv) ->
     sent k' outs = if writable (adm_socket a') then [line ++ nl] else []) /\
  In (ReadlineClose k) outs /\
  sent k (snd (serve evs sv')) = [].
Proof.
  intros Hok Hg. cbv zeta. pose proof (@registered_below_count _ _ _ Hok Hg) as Hk.
  pose proof (@admins_ok_delete k _ Hok) as [Hd' _]. cbn [admins] in Hd'.
  unfold onAdminClose. rewrite Hg. cbn [fst snd admins core].
  assert (Hq : forall a0, In (k, a0) (adm_delete k (admins sv)) ->
                          writable (adm_socket a0) = false).
  { intros a0 Ha. apply In_adm_delete in Ha as [_ Ha]. congruence. }
  split; [apply adm_get_delete|].
  split; [intros k' a' Hne; rewrite In_adm_delete; tauto|].
  split; [reflexivity|].
  split; [apply console_logToAdmins|].
  split; [apply (@sent_logToAdmins_silent _ _ _ _ Hq)|].
  split; [|split; [left; reflexivity|]].
  - intros k' a' Hne Hin.
    change (sent k' (ReadlineClose k :: ?l)) with (sent k' l).
    assert (Hin' : In (k', a') (adm_delete k (admins sv)))
      by (apply In_adm_delete; split; assumption).
    rewrite (@sent_logToAdmins _ _ _ _ _ Hd' Hin'). reflexivity.
  - apply quiet_serve. split; [exact Hk|exact Hq].
Qed.

Lemma admin_close_unregisters_witness :
  let sv' := fst (onAdminClose 0 (str "T") demo_server) in
  let outs := snd (onAdminClose 0 (str "T") demo_server) in
  sent 0 outs = [] /\
  sent 0 (snd (serve [Core (AdminLine 0 (str "ls")) (fun _ => str "T")] sv'))
  = [].
Proof.
  cbv zeta.
  destruct (@admin_close_unregisters 0 (str "T") demo_server
              (demo_admin "10.0.0.2" true)
              [Core (AdminLine 0 (str "ls")) (fun _ => str "T")]
              demo_server_ok eq_refl)
    as (_ & _ & _ & _ & H1 & _ & _ & H2).
  split; [exact H1|exact H2].
Defined.

(** X20.  When the socket of an admin times out, the time-out is
    announced to the console and to every admin with a writable socket,
    the one that timed out among them; then its socket is ended with a
    notice and destroyed.  The admin stays in the set, at its place, until
    its connection closes, but whatever happens afterwards, nothing is
    written to it again. *)
Theorem admin_timeout_ends_socket (k : nat) (now : jstr) (sv : server)
    (a : admin) (evs : list server_event) :
  admins_ok sv -> adm_get k (admins sv) = Some a ->
  let sv' := fst (onAdminTimeout k now sv) in
  let outs := snd (onAdminTimeout k now sv) in
  let line :=
    (str "[" ++ now ++ str "]") ++ str "[ADMIN TIMEOUT] " ++ adm_addr a in
  console outs = [line] /\
  (forall k' a', In (k', a') (admins sv) ->
     sent k' outs = if writable (adm_socket a') then [line ++ nl] else []) /\
  (exists pre,
     outs = pre ++ [AdmEnd k (str "Admin Idle Timeout" ++ nl); AdmDestroy k]
     /\ forall o, In o pre ->
          match o with AdmEnd _ _ | AdmDestroy _ => False | _ => True end) /\
  map fst (admins sv') = map fst (admins sv) /\
  adm_get k (admins sv') =
    Some (adm_set_socket {| writable := false; destroyed := true |} a) /\
  core sv' = core sv /\
  sent k (snd (serve evs sv')) = [].
Proof.
  intros Hok Hg. cbv zeta. pose proof (@registered_below_count _ _ _ Hok Hg) as Hk.
  destruct Hok as [Hd Hf].
  unfold onAdminTimeout. rewrite Hg. cbn [fst snd admins core].
  split; [rewrite console_app, console_logToAdmins; reflexivity|].
  split.
  { intros k' a' Hin. rewrite sent_app.
    rewrite (@sent_logToAdmins _ _ _ _ _ Hd Hin). cbn [sent flat_map app].
    rewrite app_nil_r. reflexivity. }
  split.
  { eexists. split; [reflexivity|]. intros o Ho. unfold logToAdmins in Ho.
    cbv zeta in Ho. destruct Ho as [<-|Ho]; [exact I|].
    apply in_flat_map in Ho as (p & _ & Ho).
    destruct (writable (adm_socket (snd p))); [|destruct Ho].
    destruct Ho as [<-|[]]. exact I. }
  split; [apply adm_update_keys|].
  split; [rewrite adm_get_update, Hg; reflexivity|].
  split; [reflexivity|].
  apply quiet_serve. split; [exact Hk|]. cbn [admins]. intros a0 Ha.
  apply In_adm_update in Ha as [(_ & a1 & _ & ->)|[Hne _]];
    [reflexivity|congruence].
Qed.

Lemma admin_timeout_ends_socket_witness :
  let sv' := fst (onAdminTimeout 2 (str "T") demo_server) in
  let outs := snd (onAdminTimeout 2 (str "T") demo_server) in
  sent 2 outs = [(str "[T]" ++ str "[ADMIN TIMEOUT] 10.0.0.2") ++ nl] /\
  sent 2 (snd (serve [Core (AdminLine 0 (str "ls")) (fun _ => str "T")] sv'))
  = [].
Proof.
  cbv zeta.
  destruct (@admin_timeout_ends_socket 2 (str "T") demo_server
              (demo_admin "10.0.0.2" true)
              [Core (AdminLine 0 (str "ls")) (fun _ => str "T")]
              demo_server_ok eq_refl)
    as (_ & H1 & _ & _ & _ & _ & H2).
  split; [|exact H2].
  apply (H1 2 (demo_admin "10.0.0.2" true)). right. right. left. reflexivity.
Defined.

(** ** The two sides of the server *)

Lemma step_core (ev : server_event) (sv : server) :
  core (fst (step ev sv)) =
    match ev with
    | Core e _ => fst (handle e (core sv))
    | _ => core sv
    end /\
  device_ops (snd (step ev sv)) =
    match ev with
    | Core e _ => filter (fun x => negb (is_log x)) (snd (handle e (core sv)))
    | _ => []
    end.
Proof.
  destruct ev as [e clock|a0 now|k e|k now|k now|k now|k]; cbn [step].
  - destruct (handle e (core sv)) as [st' eff]. cbn [fst snd core].
    split; [reflexivity|apply deliver_device_ops].
  - split; [reflexivity|apply device_ops_logToAdmins].
  - unfold onAdminError. destruct (adm_get k (admins sv)); split; reflexivity.
  - unfold onAdminClose. destruct (adm_get k (admins sv));
      [|split; reflexivity].
    split; [reflexivity|]. cbn [snd].
    change (device_ops (ReadlineClose k :: ?l)) with (device_ops l).
    apply device_ops_logToAdmins.
  - unfold onAdminTimeout. destruct (adm_get k (admins sv));
      [|split; reflexivity].
    split; [reflexivity|]. cbn [snd].
    rewrite device_ops_app, device_ops_logToAdmins. reflexivity.
  - unfold onAdminEnd. destruct (adm_get k (admins sv));
      [|split; reflexivity].
    split; [reflexivity|apply device_ops_logToAdmins].
  - split; reflexivity.
Qed.

(** X21.  The admin connections have no part in what happens to the
    devices: the sessions that the server holds after any run of events,
    and the operations it has carried out on the device sockets, are those
    of the device events and command lines of the run alone, whichever
    admins came, went, timed out or failed in between.  What has been
    shown of the runs of the handlers thus holds of the server. *)
Theorem admins_do_not_touch_devices (evs : list server_event) (sv : server) :
  core (fst (serve evs sv)) = fst (run (core_events evs) (core sv)) /\
  device_ops (snd (serve evs sv)) =
    filter (fun x => negb (is_log x)) (snd (run (core_events evs) (core sv))).
Proof.
  revert sv. induction evs as [|ev evs IH]; intros sv; [split; reflexivity|].
  cbn [serve]. destruct (step_core ev sv) as [H1 H2].
  destruct (step ev sv) as [sv1 out1]. cbn [fst snd] in H1, H2.
  specialize (IH sv1). destruct (serve evs sv1) as [sv2 out2].
  cbn [fst snd] in *. rewrite device_ops_app, H2.
  destruct IH as [I1 I2]. rewrite I1, I2, H1.
  destruct ev as [e clock|a0 now|k e|k now|k now|k now|k];
    cbn [core_events flat_map app]; fold (core_events evs);
    try (split; reflexivity).
  cbn [run]. destruct (handle e (core sv)) as [st1 eff1]. cbn [fst snd].
  destruct (run (core_events evs) st1) as [st2 eff2]. cbn [fst snd].
  split; [reflexivity|]. symmetry. apply filter_app.
Qed.

(** * The words of a pattern *)

Lemma mstar_sound (ic : bool) (r : re) (body : matcher) :
  sound ic r body ->
  forall fuel, sound ic (Star r) (fun s i cs k => mstar fuel body s i cs k).
Proof.
  intros Hb fuel. induction fuel as [|f IH]; intros s i cs k x H.
  - simpl in H. exists [], s, cs. cbn [app List.length].
    rewrite Nat.add_0_r. repeat split; [constructor|exact H].
  - rewrite mstar_S in H.
    destruct (body s i cs
                (fun s' i' cs' =>
                   if Nat.eqb i' i then None else mstar f body s' i' cs' k))
      as [y|] eqn:E.
    + injection H as ->. apply Hb in E as (w1 & s1 & cs1 & E1 & W1 & K1).
      destruct (Nat.eqb (i + List.length w1) i); [discriminate|].
      apply IH in K1 as (w2 & s2 & cs2 & E2 & W2 & K2).
      exists (w1 ++ w2), s2, cs2. repeat split.
      * rewrite E1, E2, app_assoc. reflexivity.
      * rewrite E2 in W1. apply M_star_cons; assumption.
      * rewrite length_app, Nat.add_assoc. exact K2.
    + exists [], s, cs. cbn [app List.length].
      rewrite Nat.add_0_r. repeat split; [constructor|exact H].
Qed.

Lemma m_sound (ic : bool) (r : re) : sound ic r (m ic r).
Proof.
  induction r as [|c|p| | |r1 IH1 r2 IH2|r1 IH1 r2 IH2|r1 IH1|n r1 IH1];
    intros s i cs k x H.
  - exists [], s, cs. cbn [app List.length]. rewrite Nat.add_0_r.
    repeat split; [constructor|exact H].
  - destruct s as [|a s]; [discriminate|]. rewrite m_chr_cons in H.
    destruct (chr_eq ic c a) eqn:E; [|discriminate].
    exists [a], s, cs. cbn [app List.length].
    repeat split; [constructor; exact E|]. rewrite Nat.add_1_r. exact H.
  - destruct s as [|a s]; [discriminate|]. rewrite m_cls_cons in H.
    destruct (cls_in ic p a) eqn:E; [|discriminate].
    exists [a], s, cs. cbn [app List.length].
    repeat split; [constructor; exact E|]. rewrite Nat.add_1_r. exact H.
  - simpl in H. destruct (Nat.eqb i 0); [|discriminate].
    exists [], s, cs. cbn [app List.length]. rewrite Nat.add_0_r.
    repeat split; [constructor|exact H].
  - simpl in H. destruct s; [|discriminate].
    exists [], [], cs. cbn [app List.length]. rewrite Nat.add_0_r.
    repeat split; [constructor|exact H].
  - rewrite m_seq in H. apply IH1 in H as (w1 & s1 & cs1 & E1 & W1 & K1).
    apply IH2 in K1 as (w2 & s2 & cs2 & E2 & W2 & K2).
    exists (w1 ++ w2), s2, cs2. repeat split.
    + rewrite E1, E2, app_assoc. reflexivity.
    + rewrite E2 in W1. constructor; assumption.
    + rewrite length_app, Nat.add_assoc. exact K2.
  - simpl in H. destruct (m ic r1 s i cs k) as [y|] eqn:E.
    + injection H as ->. apply IH1 in E as (w1 & s1 & cs1 & E1 & W1 & K1).
      exists w1, s1, cs1. repeat split; [exact E1| |exact K1].
      apply M_alt_l. exact W1.
    + apply IH2 in H as (w1 & s1 & cs1 & E1 & W1 & K1).
      exists w1, s1, cs1. repeat split; [exact E1| |exact K1].
      apply M_alt_r. exact W1.
  - rewrite m_star in H.
    apply (mstar_sound IH1) in H. exact H.
  - rewrite m_grp in H. apply IH1 in H as (w1 & s1 & cs1 & E1 & W1 & K1).
    eexists w1, s1, _. repeat split; [exact E1| |exact K1].
    constructor. exact W1.
Qed.

(** A line that an anchored pattern matches begins with a word of the
    pattern. *)
Lemma exec_bol_sound (ic : bool) (r : re) (line : jstr) (mt : match_result) :
  exec {| pattern := Seq Bol r; ignoreCase := ic |} line = Some mt ->
  exists w rest, line = w ++ rest /\ matches ic r w rest.
Proof.
  rewrite exec_bol. intros H.
  destruct (m ic r line 0 [] k0) as [[e cs]|] eqn:E; [|discriminate].
  apply m_sound in E as (w & s' & cs' & E1 & W & _).
  exists w, s'. split; assumption.
Qed.

(** A match anywhere in a line. *)
Lemma exec_from_sound (ic : bool) (r : re) (s : jstr) :
  forall i mt,
    exec_from ic r s i = Some mt ->
    exists pre rest,
      s = pre ++ m_text mt ++ rest /\ matches ic r (m_text mt) rest.
Proof.
  induction s as [|a s IH]; intros i mt H; simpl in H.
  - destruct (m ic r [] i [] (fun _ i' cs => Some (i', cs))) as [[e cs]|] eqn:E;
      [|discriminate].
    injection H as <-. cbn [m_text]. rewrite firstn_nil.
    apply m_sound in E as (w & s' & cs' & E1 & W & _).
    destruct w; [|discriminate]. destruct s'; [|discriminate].
    exists [], []. split; [reflexivity|exact W].
  - destruct (m ic r (a :: s) i [] (fun _ i' cs => Some (i', cs)))
      as [[e cs]|] eqn:E.
    + injection H as <-.
      apply m_sound in E as (w & s' & cs' & E1 & W & K).
      injection K as <- <-. cbn [m_text]. rewrite E1, firstn_span.
      exists [], s'. split; [reflexivity|exact W].
    + apply IH in H as (pre & rest & E1 & W).
      exists (a :: pre), rest. rewrite E1 at 1. split; [reflexivity|exact W].
Qed.

(** *** Words of the forms that the patterns are made of *)

Lemma matches_seq (ic : bool) (r1 r2 : re) (w rest : jstr) :
  matches ic (Seq r1 r2) w rest ->
  exists w1 w2,
    w = w1 ++ w2 /\ matches ic r1 w1 (w2 ++ rest) /\ matches ic r2 w2 rest.
Proof. intros H. inversion H; subst. eauto. Qed.

Lemma matches_grp (ic : bool) (n : nat) (r : re) (w rest : jstr) :
  matches ic (Grp n r) w rest -> matches ic r w rest.
Proof. intros H. inversion H; subst. assumption. Qed.

Lemma matches_eps (ic : bool) (w rest : jstr) :
  matches ic Eps w rest -> w = [].
Proof. intros H. inversion H; subst. reflexivity. Qed.

Lemma matches_eol (ic : bool) (w rest : jstr) :
  matches ic Eol w rest -> w = [] /\ rest = [].
Proof. intros H. inversion H; subst. split; reflexivity. Qed.

Lemma matches_cls (ic : bool) (p : ascii -> bool) (w rest : jstr) :
  matches ic (Cls p) w rest -> exists a, w = [a] /\ cls_in ic p a = true.
Proof. intros H. inversion H; subst. eauto. Qed.

Lemma matches_chr (ic : bool) (c : ascii) (w rest : jstr) :
  matches ic (Chr c) w rest -> exists a, w = [a] /\ chr_eq ic c a = true.
Proof. intros H. inversion H; subst. eauto. Qed.

Lemma matches_star_cls (ic : bool) (p : ascii -> bool) (w rest : jstr) :
  matches ic (Star (Cls p)) w rest -> forallb (cls_in ic p) w = true.
Proof.
  intros H. remember (Star (Cls p)) as r eqn:Er.
  induction H; try discriminate; [reflexivity|].
  injection Er as ->. apply matches_cls in H as (a & -> & Ha).
  cbn [app forallb]. rewrite Ha. apply IHmatches2. reflexivity.
Qed.

Lemma matches_plus_cls (ic : bool) (p : ascii -> bool) (w rest : jstr) :
  matches ic (plus (Cls p)) w rest ->
  w <> [] /\ forallb (cls_in ic p) w = true.
Proof.
  intros H. apply matches_seq in H as (w1 & w2 & -> & H1 & H2).
  apply matches_cls in H1 as (a & -> & Ha).
  apply matches_star_cls in H2. cbn [app forallb]. rewrite Ha, H2.
  split; [discriminate|reflexivity].
Qed.

Lemma matches_lit (ic : bool) (K : jstr) :
  forall w rest,
    matches ic (lit_chars K) w rest -> List.length w = List.length K.
Proof.
  induction K as [|c K IH]; intros w rest H; cbn [lit_chars] in H.
  - apply matches_eps in H. subst. reflexivity.
  - apply matches_seq in H as (w1 & w2 & -> & H1 & H2).
    apply matches_chr in H1 as (a & -> & _). apply IH in H2.
    cbn [app List.length]. rewrite H2. reflexivity.
Qed.

(** *** MAC addresses *)

Section Groups.

Variable sep : ascii -> bool.
Hypothesis hex_not_sep : forall c, is_hex c = true -> sep c = false.

Lemma groups_head (n : nat) (t : jstr) :
  groups sep n t = true -> exists a t', t = a :: t' /\ is_hex a = true.
Proof.
  destruct n; cbn [groups].
  - destruct t as [|a [|b [|]]]; try discriminate. intros H.
    apply andb_true_iff in H as [Ha _]. eauto.
  - destruct t as [|a [|b [|c t']]]; try discriminate. intros H.
    apply andb_true_iff in H as [H _]. apply andb_true_iff in H as [Ha _].
    eauto.
Qed.

Lemma groups_alphabet (n : nat) :
  forall t, groups sep n t = true ->
            forallb (fun c => is_hex c || sep c) t = true.
Proof.
  induction n as [|n IH]; intros t H; cbn [groups] in H.
  - destruct t as [|a [|b [|]]]; try discriminate.
    apply andb_true_iff in H as [Ha Hb]. cbn [forallb].
    rewrite Ha, Hb. reflexivity.
  - destruct t as [|a [|b [|c t']]]; try discriminate.
    apply andb_true_iff in H as [H Hr]. apply andb_true_iff in H as [Ha Hb].
    cbn [forallb]. rewrite Ha, Hb. cbn [orb andb].
    destruct (sep c) eqn:Ec.
    + rewrite orb_true_r. apply IH, Hr.
    + apply IH in Hr. cbn [forallb] in Hr. rewrite Ec in Hr. exact Hr.
Qed.

(** Without its separators a word is its [2n+2] digits. *)
Lemma groups_digits (n : nat) :
  forall t, groups sep n t = true ->
            forallb is_hex (filter (fun c => negb (sep c)) t) = true /\
            List.length (filter (fun c => negb (sep c)) t) = 2 * n + 2.
Proof.
  induction n as [|n IH]; intros t H; cbn [groups] in H.
  - destruct t as [|a [|b [|]]]; try discriminate.
    apply andb_true_iff in H as [Ha Hb]. cbn [filter].
    rewrite (hex_not_sep _ Ha), (hex_not_sep _ Hb). cbn [negb forallb].
    rewrite Ha, Hb. split; reflexivity.
  - destruct t as [|a [|b [|c t']]]; try discriminate.
    apply andb_true_iff in H as [H Hr]. apply andb_true_iff in H as [Ha Hb].
    assert (Hr' : groups sep n (if sep c then t' else c :: t') = true)
      by (destruct (sep c); exact Hr).
    destruct (IH _ Hr') as [I1 I2].
    match type of I1 with
    | forallb _ ?X = _ =>
        assert (E : filter (fun c => negb (sep c)) (c :: t') = X)
          by (destruct (sep c) eqn:Ec; cbn [filter]; rewrite Ec; reflexivity)
    end.
    rewrite <- E in I1, I2.
    assert (E2 : filter (fun c => negb (sep c)) (a :: b :: c :: t') =
                 a :: b :: filter (fun c => negb (sep c)) (c :: t')).
    { cbn [filter]. rewrite (hex_not_sep _ Ha), (hex_not_sep _ Hb).
      reflexivity. }
    rewrite E2. cbn [forallb List.length]. rewrite Ha, Hb, I1, I2.
    split; [reflexivity|lia].
Qed.

(** A run of digits is a word exactly when it has [2n+2] of them. *)
Lemma groups_hex_run (n : nat) :
  forall t, forallb is_hex t = true ->
            groups sep n t = Nat.eqb (List.length t) (2 * n + 2).
Proof.
  induction n as [|n IH]; intros t H; cbn [groups].
  - destruct t as [|a [|b [|c t']]]; try reflexivity.
    cbn [forallb] in H. apply andb_true_iff in H as [Ha H].
    apply andb_true_iff in H as [Hb _]. rewrite Ha, Hb. reflexivity.
  - replace (2 * S n + 2) with (S (S (S (S (2 * n))))) by lia.
    destruct t as [|a [|b [|c t']]]; try reflexivity.
    cbn [forallb] in H. apply andb_true_iff in H as [Ha H].
    apply andb_true_iff in H as [Hb H]. pose proof H as H'.
    cbn [forallb] in H'. apply andb_true_iff in H' as [Hc _].
    rewrite Ha, Hb, (hex_not_sep _ Hc). cbn [andb].
    rewrite (IH (c :: t') H). cbn [List.length].
    replace (2 * n + 2) with (S (S (2 * n))) by lia. reflexivity.
Qed.

Variable ic : bool.
Variables G L : re.

Hypothesis G_words :
  forall w rest,
    matches ic G w rest ->
    exists a b sp,
      w = a :: b :: sp /\ is_hex a = true /\ is_hex b = true /\
      (sp = [] \/ exists c, sp = [c] /\ sep c = true).

Hypothesis L_words :
  forall w rest,
    matches ic L w rest ->
    exists a b, w = [a; b] /\ is_hex a = true /\ is_hex b = true.

(** The words of the pattern are those of [groups]. *)
Lemma matches_groups (n : nat) :
  forall w rest,
    matches ic (Seq (rep n G) L) w rest -> groups sep n w = true.
Proof.
  induction n as [|n IH]; intros w rest H.
  - apply matches_seq in H as (w1 & w2 & -> & H1 & H2).
    rewrite rep_0 in H1. apply matches_eps in H1. subst w1.
    apply L_words in H2 as (a & b & -> & Ha & Hb).
    cbn [app groups]. rewrite Ha, Hb. reflexivity.
  - apply matches_seq in H as (w12 & w2 & -> & H1 & H2).
    rewrite rep_S in H1.
    apply matches_seq in H1 as (g & w' & -> & Hg & Hr).
    assert (I : groups sep n (w' ++ w2) = true).
    { apply (IH _ rest). constructor; assumption. }
    apply G_words in Hg as (a & b & sp & -> & Ha & Hb & Hsp).
    rewrite <- !app_assoc. cbn [app].
    destruct Hsp as [->|(c & -> & Hc)]; cbn [app groups].
    + destruct (groups_head _ _ I) as (c & t' & E & Hc). rewrite E in *.
      rewrite Ha, Hb, (hex_not_sep _ Hc). exact I.
    + rewrite Ha, Hb, Hc. exact I.
Qed.

End Groups.

Lemma hex_not_colon c : is_hex c = true -> is_colon c = false.
Proof.
  intros H. apply negb_true_iff. revert H. apply implb_elim. revert c.
  all_chars.
Qed.

Lemma colon_dash_not_hex c :
  CONFIG.COMMANDS.is_colon_dash c = true -> is_hex c = false.
Proof.
  intros H. apply negb_true_iff. revert H. apply implb_elim. revert c.
  all_chars.
Qed.

(** No character of a MAC address is white space or a comma. *)
Lemma mac_char_plain c :
  is_hex c || CONFIG.COMMANDS.is_colon_dash c = true ->
  is_ws c = false /\ Ascii.eqb c "," = false /\ chr_eq true "," c = false.
Proof.
  intros H.
  assert (A : negb (is_ws c) && negb (Ascii.eqb c ",")
              && negb (chr_eq true "," c) = true).
  { revert H. apply implb_elim. revert c. all_chars. }
  apply andb_true_iff in A as [A A3]. apply andb_true_iff in A as [A1 A2].
  apply negb_true_iff in A1, A2, A3. repeat split; assumption.
Qed.

Lemma comma_ci c : chr_eq true "," c = true -> c = ","%char.
Proof.
  intros H.
  assert (A : Ascii.eqb c "," = true).
  { revert H. apply implb_elim. revert c. all_chars. }
  apply Ascii.eqb_eq in A. exact A.
Qed.

Lemma matches_pair (ic : bool) (w rest : jstr) :
  matches ic (rep 2 (Cls is_hex)) w rest ->
  exists a b, w = [a; b] /\ is_hex a = true /\ is_hex b = true.
Proof.
  intros H. rewrite rep_S in H.
  apply matches_seq in H as (w1 & w2 & -> & H1 & H2).
  rewrite rep_S in H2. apply matches_seq in H2 as (w3 & w4 & -> & H3 & H4).
  rewrite rep_0 in H4. apply matches_eps in H4. subst w4.
  apply matches_cls in H1 as (a & -> & Ha).
  apply matches_cls in H3 as (b & -> & Hb).
  rewrite cls_in_hex in Ha, Hb. exists a, b. repeat split; assumption.
Qed.

Lemma matches_opt (ic : bool) (r : re) (w rest : jstr) :
  matches ic (opt r) w rest -> w = [] \/ matches ic r w rest.
Proof.
  intros H. unfold opt in H. inversion H; subst.
  - right. assumption.
  - left. eapply matches_eps. eassumption.
Qed.

(** The words of the MAC pattern of the commands. *)
Lemma matches_mac_target (w rest : jstr) :
  matches true CONFIG.COMMANDS.mac_target w rest -> mac_word w = true.
Proof.
  unfold CONFIG.COMMANDS.mac_target, mac_word. intros H0.
  refine (@matches_groups _ hex_not_colon_dash true _ _ _ _ 5 w rest H0).
  - intros g r H. apply matches_seq in H as (w1 & w2 & -> & H1 & H2).
    apply matches_pair in H1 as (a & b & -> & Ha & Hb).
    exists a, b, w2. repeat split; try assumption.
    apply matches_opt in H2 as [->|H2]; [left; reflexivity|].
    apply matches_cls in H2 as (c & -> & Hc). rewrite cls_in_colon_dash in Hc.
    right. exists c. split; [reflexivity|exact Hc].
  - intros g r H. apply matches_pair in H. exact H.
Qed.

(** The words of the MAC pattern of the device lines. *)
Lemma matches_mac_report (w rest : jstr) :
  matches false (pattern patterns.mac) w rest -> mac_report w = true.
Proof.
  unfold patterns.mac, mac_report. cbn [pattern]. intros H0.
  refine (@matches_groups _ hex_not_colon false _ _ _ _ 5 w rest H0).
  - intros g r H. apply matches_grp in H.
    apply matches_seq in H as (w1 & w2 & -> & H1 & H2).
    apply matches_pair in H1 as (a & b & -> & Ha & Hb).
    exists a, b, w2. repeat split; try assumption.
    apply matches_opt in H2 as [->|H2]; [left; reflexivity|].
    apply matches_chr in H2 as (c & -> & Hc). unfold chr_eq in Hc.
    right. exists c. split; [reflexivity|].
    unfold is_colon. rewrite Ascii.eqb_sym. exact Hc.
  - intros g r H. apply matches_grp in H. apply matches_pair in H. exact H.
Qed.

(** *** The matcher on a MAC address *)

Section MacWords.

Import CONFIG.COMMANDS.

Lemma m_alt (ic : bool) (r1 r2 : re) (s : jstr) (i : nat) (cs : caps)
    (k : cont) :
  m ic (Alt r1 r2) s i cs k =
  match m ic r1 s i cs k with Some x => Some x | None => m ic r2 s i cs k end.
Proof. reflexivity. Qed.

Lemma m_groups_needs_hex (n : nat) (c : ascii) (s : jstr) (i : nat)
    (cs : caps) (k : cont) :
  is_hex c = false ->
  m true (Seq (rep n mac_group) (rep 2 hex)) (c :: s) i cs k = None.
Proof.
  intros H. unfold hex. destruct n.
  - rewrite m_seq, rep_0, m_eps, (rep_S 1), m_seq, m_cls_cons, cls_in_hex, H.
    reflexivity.
  - rewrite m_seq, rep_S, m_seq. unfold mac_group at 1. unfold hex.
    rewrite m_seq, (rep_S 1), m_seq, m_cls_cons, cls_in_hex, H.
    reflexivity.
Qed.

Lemma m_groups (n : nat) :
  forall t s i cs k,
    groups is_colon_dash n t = true ->
    m true (Seq (rep n mac_group) (rep 2 hex)) (t ++ s) i cs k =
    k s (i + List.length t) cs.
Proof.
  induction n as [|n IH]; intros t s i cs k H; cbn [groups] in H.
  - destruct t as [|a [|b [|]]]; try discriminate.
    apply andb_true_iff in H as [Ha Hb].
    rewrite m_seq, rep_0, m_eps. cbn [app].
    rewrite m_pair_last by assumption. f_equal. cbn [List.length]. lia.
  - destruct t as [|a [|b [|c t']]]; try discriminate.
    apply andb_true_iff in H as [H Hr]. apply andb_true_iff in H as [Ha Hb].
    replace (i + List.length (a :: b :: c :: t'))
      with (S (S (S i)) + List.length t') by (cbn [List.length]; lia).
    rewrite m_seq, rep_S, m_seq. unfold mac_group at 1. rewrite m_seq. cbn [app].
    rewrite m_pair_last by assumption.
    change (fun s' i' cs' =>
              m true (rep n mac_group) s' i' cs'
                (fun s'' i'' cs'' => m true (rep 2 hex) s'' i'' cs'' k))
      with (fun s' i' cs' =>
              m true (Seq (rep n mac_group) (rep 2 hex)) s' i' cs' k).
    destruct (is_colon_dash c) eqn:Ec.
    + unfold opt. rewrite m_alt, m_cls_cons, cls_in_colon_dash, Ec.
      rewrite (IH t' s (S (S (S i))) cs k Hr).
      destruct (k s (S (S (S i)) + List.length t') cs) as [x|] eqn:Ek;
        [reflexivity|].
      rewrite m_eps. apply m_groups_needs_hex.
      apply colon_dash_not_hex. exact Ec.
    + rewrite m_opt_skip
        by (rewrite m_cls_cons, cls_in_colon_dash, Ec; reflexivity).
      cbv beta. change (c :: t' ++ s) with ((c :: t') ++ s).
      rewrite (IH (c :: t') s (S (S i)) cs k Hr). f_equal.
      cbn [List.length]. lia.
Qed.

Lemma m_mac_word (t s : jstr) (i : nat) (cs : caps) (k : cont) :
  mac_word t = true ->
  m true mac_target (t ++ s) i cs k = k s (i + List.length t) cs.
Proof. intros H. unfold mac_target. apply (m_groups 5). exact H. Qed.

Lemma mac_word_chars (t : jstr) :
  mac_word t = true ->
  forallb (fun c => is_hex c || is_colon_dash c) t = true.
Proof. apply (@groups_alphabet is_colon_dash 5). Qed.

Lemma mac_word_head (t rest : jstr) :
  mac_word t = true ->
  match t ++ rest with [] => true | c :: _ => negb (is_ws c) end = true.
Proof.
  intros H. destruct (groups_head _ _ _ H) as (a & t' & -> & Ha).
  cbn [app]. rewrite (hex_not_ws _ Ha). reflexivity.
Qed.

(** After a MAC address, every further [,MAC] is taken by the star, which
    stops at what is not a comma. *)
Lemma mstar_more_words (ts : list jstr) :
  forall (rest : jstr) (fuel i : nat) (cs : caps) (k : cont) x,
    forallb mac_word ts = true ->
    List.length ts <= fuel ->
    match rest with [] => true | c :: _ => negb (chr_eq true "," c) end = true ->
    k rest (i + List.length (more_targets ts)) cs = Some x ->
    mstar fuel (m true (Chr "," +++ mac_target)%re) (more_targets ts ++ rest)
      i cs k = Some x.
Proof.
  induction ts as [|t ts IH]; intros rest fuel i cs k x Hts Hf Hr Hk.
  - cbn [more_targets map List.concat app]. cbn [more_targets map List.concat
      List.length] in Hk.
    rewrite Nat.add_0_r in Hk.
    rewrite mstar_skip; [exact Hk|]. intros k'. apply m_chr_mismatch. exact Hr.
  - cbn [forallb] in Hts. apply andb_true_iff in Hts as [Ht Hts].
    destruct fuel as [|fuel]; [cbn [List.length] in Hf; lia|].
    assert (Em : more_targets (t :: ts) = ","%char :: t ++ more_targets ts)
      by reflexivity.
    rewrite Em in Hk |- *. rewrite <- app_comm_cons.
    rewrite mstar_S, m_seq, m_chr_cons.
    change (chr_eq true "," ",") with true. cbv iota.
    rewrite <- app_assoc, m_mac_word by exact Ht.
    assert (Lt : 0 < List.length t).
    { destruct (groups_head _ _ _ Ht) as (a & t' & -> & _). cbn. lia. }
    replace (Nat.eqb (S i + List.length t) i) with false
      by (symmetry; apply Nat.eqb_neq; lia).
    rewrite (IH rest fuel (S i + List.length t) cs k x); try assumption;
      try reflexivity.
    + cbn [List.length] in Hf. lia.
    + rewrite <- Hk. f_equal. cbn [List.length app].
      rewrite length_app. lia.
Qed.

Lemma split_free_then (t r : jstr) :
  forallb (fun c => negb (Ascii.eqb c ",")) t = true ->
  split "," (t ++ ","%char :: r) = t :: split "," r.
Proof.
  induction t as [|c t IH]; intros H.
  - reflexivity.
  - cbn [forallb] in H. apply andb_true_iff in H as [Hc Ht].
    apply negb_true_iff in Hc.
    cbn [app split]. rewrite Hc, (IH Ht). reflexivity.
Qed.

Lemma split_free (t : jstr) :
  forallb (fun c => negb (Ascii.eqb c ",")) t = true -> split "," t = [t].
Proof.
  induction t as [|c t IH]; intros H; [reflexivity|].
  cbn [forallb] in H. apply andb_true_iff in H as [Hc Ht].
  apply negb_true_iff in Hc. cbn [split]. rewrite Hc, (IH Ht). reflexivity.
Qed.

Lemma mac_word_comma_free (t : jstr) :
  mac_word t = true -> forallb (fun c => negb (Ascii.eqb c ",")) t = true.
Proof.
  intros H. apply mac_word_chars in H. rewrite forallb_forall in *.
  intros c Hc. destruct (mac_char_plain _ (H _ Hc)) as (_ & E & _).
  rewrite E. reflexivity.
Qed.

(** [split] undoes [join] on MAC addresses. *)
Lemma split_join_words (ts : list jstr) :
  forall t,
    forallb mac_word (t :: ts) = true ->
    split "," (join_targets t ts) = t :: ts.
Proof.
  induction ts as [|u ts IH]; intros t H; cbn [forallb] in H;
    apply andb_true_iff in H as [Ht Hts];
    apply mac_word_comma_free in Ht.
  - unfold join_targets, more_targets. cbn [map List.concat].
    rewrite app_nil_r. apply split_free. exact Ht.
  - unfold join_targets, more_targets. cbn [map List.concat].
    fold (more_targets ts). rewrite <- app_comm_cons.
    rewrite split_free_then by exact Ht. f_equal. apply (IH u). exact Hts.
Qed.

Lemma join_targets_chars (ts : list jstr) :
  forall t,
    forallb mac_word (t :: ts) = true ->
    forallb (fun c => negb (is_ws c)) (join_targets t ts) = true.
Proof.
  assert (W : forall u, mac_word u = true ->
                        forallb (fun c => negb (is_ws c)) u = true).
  { intros u H. apply mac_word_chars in H. rewrite forallb_forall in *.
    intros c Hc. destruct (mac_char_plain _ (H _ Hc)) as (E & _).
    rewrite E. reflexivity. }
  induction ts as [|u ts IH]; intros t H; cbn [forallb] in H;
    apply andb_true_iff in H as [Ht Hts]; unfold join_targets, more_targets;
    cbn [map List.concat].
  - rewrite app_nil_r. apply W, Ht.
  - fold (more_targets ts). rewrite forallb_app, (W _ Ht). cbn [andb].
    rewrite <- app_comm_cons. cbn [forallb].
    change (negb (is_ws ",")) with true. cbn [andb]. apply (IH u). exact Hts.
Qed.

(** The shape of a [cmd] line whose targets are MAC addresses. *)
Lemma exec_CMD_MAC_words (kw w1 t : jstr) (ts : list jstr) (w2 p : jstr) :
  map to_upper kw = str "CMD" ->
  w1 <> [] -> forallb is_ws w1 = true ->
  forallb mac_word (t :: ts) = true ->
  w2 <> [] -> forallb is_ws w2 = true ->
  p <> [] -> forallb dot p = true ->
  match p with [] => true | c :: _ => negb (is_ws c) end = true ->
  exec CMD_MAC (kw ++ w1 ++ join_targets t ts ++ w2 ++ p) =
  Some {| m_text := kw ++ w1 ++ join_targets t ts ++ w2 ++ p;
          m_caps := [(2, p); (1, join_targets t ts)] |}.
Proof.
  intros Hkw Hn1 Hw1 Hts Hn2 Hw2 Hnp Hp Hhp.
  pose proof Hts as Hts0.
  cbn [forallb] in Hts. apply andb_true_iff in Hts as [Ht Hts].
  unfold CMD_MAC. rewrite exec_bol.
  assert (E : m true
                (lit "cmd" +++ plus ws
                 +++ Grp 1 (mac_target +++ Star (Chr "," +++ mac_target))
                 +++ plus ws +++ Grp 2 (plus any) +++ Eol)%re
                (kw ++ w1 ++ join_targets t ts ++ w2 ++ p) 0 [] k0 =
              Some (List.length (kw ++ w1 ++ join_targets t ts ++ w2 ++ p),
                    [(2, p); (1, join_targets t ts)])).
  { rewrite m_seq. unfold lit. rewrite m_lit_ci by exact Hkw.
    rewrite m_seq. apply m_plus_run; auto using cls_in_ws.
    { unfold join_targets. rewrite <- !app_assoc.
      apply mac_word_head. exact Ht. }
    unfold join_targets at 1. rewrite <- !app_assoc.
    rewrite m_seq, m_grp, m_seq, m_mac_word by exact Ht.
    rewrite m_star. apply mstar_more_words; try assumption.
    { rewrite length_app. clear. induction ts as [|u ts IH]; [cbn; lia|].
      unfold more_targets in *. cbn [map List.concat List.length].
      rewrite length_app. cbn [List.length]. lia. }
    { destruct w2 as [|a w2]; [congruence|]. cbn [forallb] in Hw2.
      apply andb_true_iff in Hw2 as [Ha _]. cbn [app].
      rewrite (ws_not_comma _ Ha). reflexivity. }
    rewrite m_seq. apply m_plus_run; auto using cls_in_ws.
    rewrite m_seq, m_grp. apply m_plus_run_end; auto using cls_in_dot.
    cbn [m]. unfold k0. rewrite firstn_span_end.
    set (i0 := 0 + List.length (str "cmd") + List.length w1).
    replace (i0 + List.length t + List.length (more_targets ts) - i0)
      with (i0 + List.length (join_targets t ts) - i0)
      by (unfold join_targets; rewrite length_app; lia).
    replace (t ++ more_targets ts ++ w2 ++ p)
      with (join_targets t ts ++ w2 ++ p)
      by (unfold join_targets; rewrite <- app_assoc; reflexivity).
    rewrite firstn_span.
    do 2 f_equal. unfold i0. rewrite !length_app.
    unfold join_targets. rewrite length_app.
    apply (f_equal (@List.length ascii)) in Hkw. rewrite length_map in Hkw.
    simpl in Hkw. simpl. lia. }
  rewrite E. rewrite firstn_whole by reflexivity. reflexivity.
Qed.

End MacWords.

(** *** What a [cmd] line must look like *)

Lemma app_eq_length (A : Type) (a b x y : list A) :
  a ++ x = b ++ y -> List.length a = List.length b -> a = b /\ x = y.
Proof.
  revert b. induction a as [|c a IH]; intros [|d b] E L;
    try discriminate L.
  - split; [reflexivity|exact E].
  - cbn [app] in E. injection E as -> E. cbn [List.length] in L.
    injection L as L. destruct (IH _ E L) as [-> ->]. split; reflexivity.
Qed.

(** Two runs of characters of the same kind that end where a character of
    another kind, or nothing, follows are the same run. *)
Lemma span_eq (p : ascii -> bool) (a b x y : jstr) :
  forallb p a = true -> forallb p b = true ->
  match x with [] => true | c :: _ => negb (p c) end = true ->
  match y with [] => true | c :: _ => negb (p c) end = true ->
  x <> [] -> y <> [] ->
  a ++ x = b ++ y -> a = b /\ x = y.
Proof.
  revert b. induction a as [|c a IH]; intros [|d b] Ha Hb Hx Hy Nx Ny E.
  - split; [reflexivity|exact E].
  - cbn [app] in E. subst x. cbn [forallb] in Hb.
    apply andb_true_iff in Hb as [Hd _]. rewrite Hd in Hx. discriminate.
  - cbn [app] in E. subst y. cbn [forallb] in Ha.
    apply andb_true_iff in Ha as [Hc _]. rewrite Hc in Hy. discriminate.
  - cbn [app] in E. injection E as -> E. cbn [forallb] in Ha, Hb.
    apply andb_true_iff in Ha as [_ Ha]. apply andb_true_iff in Hb as [_ Hb].
    destruct (IH b Ha Hb Hx Hy Nx Ny E) as [-> ->]. split; reflexivity.
Qed.

Section CmdShape.

Import CONFIG.COMMANDS.

Variables (X R : re).

Hypothesis X_words :
  forall x r,
    matches true X x r ->
    x <> [] /\ forallb (fun c => negb (is_ws c)) x = true.

(** In a line that a [cmd] pattern takes, the text between the two runs
    of white space is a word of the part of the pattern that stands
    there. *)
Lemma cmd_target_field (kw w1 T w2 p W rest : jstr) :
  map to_upper kw = str "CMD" ->
  w1 <> [] -> forallb is_ws w1 = true ->
  T <> [] -> forallb (fun c => negb (is_ws c)) T = true ->
  w2 <> [] -> forallb is_ws w2 = true ->
  kw ++ w1 ++ T ++ w2 ++ p = W ++ rest ->
  matches true (lit "cmd" +++ plus ws +++ Grp 1 X +++ plus ws +++ R)%re W rest ->
  exists r, matches true X T r.
Proof.
  intros Hkw Hn1 Hw1 HnT HT Hn2 Hw2 E H.
  apply matches_seq in H as (c1 & W1 & -> & H1 & H).
  apply matches_seq in H as (c2 & W2 & -> & H2 & H).
  apply matches_seq in H as (c3 & W3 & -> & H3 & H).
  apply matches_seq in H as (c4 & c5 & -> & H4 & _).
  apply matches_lit in H1. apply matches_plus_cls in H2 as [N2 A2].
  apply matches_grp in H3. apply matches_plus_cls in H4 as [N4 A4].
  destruct (X_words H3) as [N3 A3].
  assert (B2 : forallb is_ws c2 = true).
  { rewrite <- A2. apply forallb_same. intros c. symmetry. apply cls_in_ws. }
  assert (B4 : forallb is_ws c4 = true).
  { rewrite <- A4. apply forallb_same. intros c. symmetry. apply cls_in_ws. }
  rewrite <- !app_assoc in E.
  apply app_eq_length in E as [-> E].
  2:{ apply (f_equal (@List.length ascii)) in Hkw.
      rewrite length_map in Hkw. rewrite Hkw, H1. reflexivity. }
  apply (span_eq is_ws) in E as [-> E]; try assumption.
  - apply (span_eq (fun c => negb (is_ws c))) in E as [-> _];
      try assumption.
    + eexists. exact H3.
    + destruct w2 as [|a w2]; [congruence|]. cbn [forallb] in Hw2.
      apply andb_true_iff in Hw2 as [Ha _]. cbn [app]. rewrite Ha.
      reflexivity.
    + destruct c4 as [|a c4]; [congruence|]. cbn [forallb] in B4.
      apply andb_true_iff in B4 as [Ha _]. cbn [app]. rewrite Ha.
      reflexivity.
    + destruct w2; [congruence|discriminate].
    + destruct c4; [congruence|discriminate].
  - destruct T as [|a T]; [congruence|]. cbn [forallb] in HT.
    apply andb_true_iff in HT as [Ha _]. exact Ha.
  - destruct c3 as [|a c3]; [congruence|]. cbn [forallb] in A3.
    apply andb_true_iff in A3 as [Ha _]. exact Ha.
  - destruct T; [congruence|discriminate].
  - destruct c3; [congruence|discriminate].
Qed.

End CmdShape.

Lemma matches_more (w rest : jstr) :
  matches true (Star (Chr "," +++ CONFIG.COMMANDS.mac_target))%re w rest ->
  exists ts, w = more_targets ts /\ forallb mac_word ts = true.
Proof.
  intros H.
  remember (Star (Chr "," +++ CONFIG.COMMANDS.mac_target))%re as r eqn:Er.
  induction H; try discriminate.
  - exists []. split; reflexivity.
  - injection Er as ->.
    destruct (IHmatches2 eq_refl) as (ts & -> & Hts).
    apply matches_seq in H as (c & t & -> & Hc & Ht).
    apply matches_chr in Hc as (a & -> & Ha). apply comma_ci in Ha. subst a.
    apply matches_mac_target in Ht.
    exists (t :: ts). split; [|cbn [forallb]; rewrite Ht, Hts; reflexivity].
    change (more_targets (t :: ts)) with (","%char :: t ++ more_targets ts).
    reflexivity.
Qed.

Lemma matches_macs (w rest : jstr) :
  matches true
    (CONFIG.COMMANDS.mac_target
     +++ Star (Chr "," +++ CONFIG.COMMANDS.mac_target))%re w rest ->
  exists t ts, w = join_targets t ts /\ forallb mac_word (t :: ts) = true.
Proof.
  intros H. apply matches_seq in H as (t & u & -> & Ht & Hu).
  apply matches_mac_target in Ht.
  apply matches_more in Hu as (ts & -> & Hts).
  exists t, ts. split; [reflexivity|]. cbn [forallb]. rewrite Ht, Hts.
  reflexivity.
Qed.

(** A [cmd] line that the MAC pattern takes has MAC addresses for all its
    targets. *)
Lemma CMD_MAC_only_macs (kw w1 T w2 p : jstr) (mm : match_result) :
  map to_upper kw = str "CMD" ->
  w1 <> [] -> forallb is_ws w1 = true ->
  T <> [] -> forallb (fun c => negb (is_ws c)) T = true ->
  w2 <> [] -> forallb is_ws w2 = true ->
  exec CONFIG.COMMANDS.CMD_MAC (kw ++ w1 ++ T ++ w2 ++ p) = Some mm ->
  forallb mac_word (split "," T) = true.
Proof.
  intros Hkw Hn1 Hw1 HnT HT Hn2 Hw2 H.
  apply exec_bol_sound in H as (W & rest & E & H).
  apply (cmd_target_field (X := (CONFIG.COMMANDS.mac_target
                                 +++ Star (Chr "," +++ CONFIG.COMMANDS.mac_target))%re))
    with (kw := kw) (w1 := w1) (T := T) (w2 := w2) (p := p) in H;
    try assumption.
  - destruct H as (r & H). apply matches_macs in H as (t & ts & -> & Hts).
    rewrite split_join_words by exact Hts. exact Hts.
  - intros x r Hx. apply matches_macs in Hx as (t & ts & -> & Hts).
    split; [|apply join_targets_chars; exact Hts].
    cbn [forallb] in Hts. apply andb_true_iff in Hts as [Ht _].
    destruct (groups_head _ _ _ Ht) as (a & t' & -> & _). discriminate.
Qed.

(** A [cmd] line that the ID pattern takes has hexadecimal digits and
    commas for its targets. *)
Lemma CMD_ID_only_hex (kw w1 T w2 p : jstr) (im : match_result) :
  map to_upper kw = str "CMD" ->
  w1 <> [] -> forallb is_ws w1 = true ->
  T <> [] -> forallb (fun c => negb (is_ws c)) T = true ->
  w2 <> [] -> forallb is_ws w2 = true ->
  exec CONFIG.COMMANDS.CMD_ID (kw ++ w1 ++ T ++ w2 ++ p) = Some im ->
  forallb CONFIG.COMMANDS.is_hex_comma T = true.
Proof.
  intros Hkw Hn1 Hw1 HnT HT Hn2 Hw2 H.
  apply exec_bol_sound in H as (W & rest & E & H).
  assert (Hx : forall x r,
             matches true (plus (Cls CONFIG.COMMANDS.is_hex_comma)) x r ->
             x <> [] /\ forallb CONFIG.COMMANDS.is_hex_comma x = true).
  { intros x r Hx. apply matches_plus_cls in Hx as [N A]. split; [exact N|].
    rewrite <- A. apply forallb_same. intros c. symmetry.
    apply cls_in_hex_comma. }
  apply (cmd_target_field (X := plus (Cls CONFIG.COMMANDS.is_hex_comma)))
    with (kw := kw) (w1 := w1) (T := T) (w2 := w2) (p := p) in H;
    try assumption.
  - destruct H as (r & H). apply Hx in H as [_ H]. exact H.
  - intros x r H0. destruct (Hx _ _ H0) as [N A]. split; [exact N|].
    rewrite forallb_forall in *. intros c Hc.
    rewrite (hex_comma_not_ws _ (A _ Hc)). reflexivity.
Qed.

(** [join] undoes [split]. *)
Lemma join_split (T : jstr) :
  exists t ts, split "," T = t :: ts /\ T = join_targets t ts.
Proof.
  induction T as [|c T (t & ts & E & J)].
  - exists [], []. split; reflexivity.
  - cbn [split]. destruct (Ascii.eqb c ",") eqn:Ec.
    + apply Ascii.eqb_eq in Ec. subst c. exists [], (t :: ts).
      rewrite E. split; [reflexivity|].
      unfold join_targets in *.
      change (more_targets (t :: ts)) with (","%char :: t ++ more_targets ts).
      rewrite <- J. reflexivity.
    + rewrite E. exists (c :: t), ts. split; [reflexivity|].
      unfold join_targets in *. rewrite <- app_comm_cons, <- J. reflexivity.
Qed.

(** The elements that the reading by kind takes as MAC addresses are the
    words of [mac_word]. *)
Lemma is_mac_shaped_spec (t : jstr) : is_mac_shaped t = mac_word t.
Proof.
  unfold is_mac_shaped. destruct (mac_word t) eqn:Hw.
  - rewrite exec_bol. rewrite <- (app_nil_r t) at 1.
    rewrite m_seq, m_mac_word by exact Hw. reflexivity.
  - destruct (exec _ t) as [mt|] eqn:E; [|reflexivity].
    apply exec_bol_sound in E as (W & rest & E & H).
    apply matches_seq in H as (w & e & -> & H1 & H2).
    apply matches_eol in H2 as [-> ->]. rewrite !app_nil_r in E. subst w.
    apply matches_mac_target in H1. congruence.
Qed.

(** How a [cmd] line is taken: as a list of MAC addresses if every
    element is one; failing that as a list of identifiers if it is made
    of hexadecimal digits and commas; and not at all otherwise. *)
Lemma cmd_line_dispatch (now : Z) (kw w1 T w2 p : jstr) (st : state) :
  map to_upper kw = str "CMD" ->
  w1 <> [] -> forallb is_ws w1 = true ->
  T <> [] -> forallb (fun c => negb (is_ws c)) T = true ->
  w2 <> [] -> forallb is_ws w2 = true ->
  p <> [] -> forallb dot p = true ->
  match p with [] => true | c :: _ => negb (is_ws c) end = true ->
  processAdminCommand now (kw ++ w1 ++ T ++ w2 ++ p) st =
    (st,
     if forallb mac_word (split "," T)
     then flat_map (cmdByMac p st) (split "," T)
     else if forallb CONFIG.COMMANDS.is_hex_comma T
          then flat_map (cmdById p st) (split "," T)
          else []).
Proof.
  intros Hkw Hn1 Hw1 HnT HT Hn2 Hw2 Hnp Hp Hhp. unfold processAdminCommand.
  rewrite (LS_other_kw (c' := "C") (K' := str "MD") _ _ Hkw eq_refl).
  destruct (forallb mac_word (split "," T)) eqn:Hm.
  - destruct (join_split T) as (t & ts & Es & ->). rewrite Es in Hm |- *.
    rewrite exec_CMD_MAC_words by assumption.
    unfold group. cbn [lookup m_caps Nat.eqb]. rewrite Es. reflexivity.
  - destruct (exec CONFIG.COMMANDS.CMD_MAC (kw ++ w1 ++ T ++ w2 ++ p))
      as [mm|] eqn:Em.
    { apply CMD_MAC_only_macs in Em; try assumption. congruence. }
    destruct (forallb CONFIG.COMMANDS.is_hex_comma T) eqn:Hh.
    + rewrite exec_CMD_ID by assumption. reflexivity.
    + destruct (exec CONFIG.COMMANDS.CMD_ID (kw ++ w1 ++ T ++ w2 ++ p))
        as [im|] eqn:Ei.
      { apply CMD_ID_only_hex in Ei; try assumption. congruence. }
      assert (EA : exec CONFIG.COMMANDS.CMDALL
                     (kw ++ w1 ++ T ++ w2 ++ p) = None).
      { destruct w1 as [|c w1]; [congruence|].
        rewrite <- app_comm_cons. apply CMDALL_cmd_then; [exact Hkw|].
        cbn [forallb] in Hw1. apply andb_true_iff in Hw1 as [Hc _].
        apply not_letter_a. left. exact Hc. }
      rewrite EA.
      destruct (kw_head _ Hkw) as (a & kw' & -> & Ha & _).
      rewrite <- app_comm_cons.
      rewrite (@DROP_first a _); [reflexivity|].
      rewrite chr_eq_upper, Ha. reflexivity.
Qed.

(** * What a command writes *)

Lemma payload_cmd (kw w1 T w2 p cmd : jstr) :
  map to_upper kw = str "CMD" ->
  w1 <> [] -> forallb is_ws w1 = true ->
  T <> [] -> forallb (fun c => negb (is_ws c)) T = true ->
  w2 <> [] -> forallb is_ws w2 = true ->
  p <> [] -> forallb dot p = true ->
  match p with [] => true | c :: _ => negb (is_ws c) end = true ->
  payload (kw ++ w1 ++ T ++ w2 ++ p) = Some cmd -> cmd = p.
Proof.
  intros Hkw Hn1 Hw1 HnT HT Hn2 Hw2 Hnp Hp Hhp. unfold payload.
  rewrite (LS_other_kw (c' := "C") (K' := str "MD") _ _ Hkw eq_refl).
  destruct (exec CONFIG.COMMANDS.CMD_MAC (kw ++ w1 ++ T ++ w2 ++ p))
    as [mm|] eqn:Em.
  { pose proof Em as Hm. apply CMD_MAC_only_macs in Hm; try assumption.
    destruct (join_split T) as (t & ts & Es & ->). rewrite Es in Hm.
    rewrite exec_CMD_MAC_words in Em by assumption.
    injection Em as <-. intros [= <-]. reflexivity. }
  destruct (exec CONFIG.COMMANDS.CMD_ID (kw ++ w1 ++ T ++ w2 ++ p))
    as [im|] eqn:Ei.
  { pose proof Ei as Hh. apply CMD_ID_only_hex in Hh; try assumption.
    rewrite exec_CMD_ID in Ei by assumption.
    injection Ei as <-. intros [= <-]. reflexivity. }
  assert (EA : exec CONFIG.COMMANDS.CMDALL (kw ++ w1 ++ T ++ w2 ++ p) = None).
  { destruct w1 as [|c w1]; [congruence|].
    rewrite <- app_comm_cons. apply CMDALL_cmd_then; [exact Hkw|].
    cbn [forallb] in Hw1. apply andb_true_iff in Hw1 as [Hc _].
    apply not_letter_a. left. exact Hc. }
  rewrite EA. discriminate.
Qed.

Lemma payload_cmdall (kw w p : jstr) :
  map to_upper kw = str "CMDALL" ->
  w <> [] -> forallb is_ws w = true ->
  p <> [] -> forallb dot p = true ->
  match p with [] => true | c :: _ => negb (is_ws c) end = true ->
  payload (kw ++ w ++ p) = Some p.
Proof.
  intros Hkw Hn Hw Hnp Hp Hhp. unfold payload.
  rewrite (LS_other_kw (c' := "C") (K' := str "MDALL") _ _ Hkw eq_refl).
  rewrite CMD_MAC_cmdall, CMD_ID_cmdall by exact Hkw.
  rewrite exec_CMDALL by assumption. reflexivity.
Qed.

(** X3.  A command writes to the socket of a device only when that
    device is registered and its socket is writable, and what it writes is
    the payload of the line, as the pattern of the command captures it,
    followed by a new line.  On a [cmd] line the payload is the text after
    the target list and the white space behind it, on a [cmdall] line the
    text after the keyword and the white space behind it. *)
Theorem command_writes_to_writable_only (now : Z) (line : jstr) (st : state)
    (sid : Z) (data : jstr) :
  In (SockWrite sid data) (snd (processAdminCommand now line st)) ->
  exists s cmd,
    In s (values (sessions st)) /\ id s = sid /\
    writable (socket s) = true /\
    payload line = Some cmd /\ data = cmd ++ nl /\
    (forall kw w1 T w2 p : jstr,
        line = kw ++ w1 ++ T ++ w2 ++ p ->
        map to_upper kw = str "CMD" ->
        w1 <> [] -> forallb is_ws w1 = true ->
        T <> [] -> forallb (fun c => negb (is_ws c)) T = true ->
        w2 <> [] -> forallb is_ws w2 = true ->
        p <> [] -> forallb dot p = true ->
        match p with [] => true | c :: _ => negb (is_ws c) end = true ->
        cmd = p) /\
    (forall kw w p : jstr,
        line = kw ++ w ++ p ->
        map to_upper kw = str "CMDALL" ->
        w <> [] -> forallb is_ws w = true ->
        p <> [] -> forallb dot p = true ->
        match p with [] => true | c :: _ => negb (is_ws c) end = true ->
        cmd = p).
Proof.
  intros H.
  assert (K : exists s cmd,
             In s (values (sessions st)) /\ id s = sid /\
             writable (socket s) = true /\
             payload line = Some cmd /\ data = cmd ++ nl).
  { revert H. unfold processAdminCommand, payload.
    destruct (exec CONFIG.COMMANDS.LS line) as [lm|].
    { cbn [snd]. intros H. apply in_flat_map in H as (s & _ & H).
      destruct (is_empty (group 1 lm)
                || includes (group 1 lm) (sess_line now s));
        in_effects H. }
    destruct (exec CONFIG.COMMANDS.CMD_MAC line) as [mm|].
    { cbn [snd]. intros H. apply in_flat_map in H as (t & _ & H).
      unfold cmdByMac in H.
      destruct (findSessionByMac (trim t) st) as [s|] eqn:E; [|in_effects H].
      apply find_some in E as [Hin _].
      destruct (writable (socket s)) eqn:W; in_effects H.
      injection H as <- <-.
      exists s, (group 2 mm). repeat split; assumption || reflexivity. }
    destruct (exec CONFIG.COMMANDS.CMD_ID line) as [im|].
    { cbn [snd]. intros H. apply in_flat_map in H as (t & _ & H).
      unfold cmdById in H. destruct (parseId t) as [k|]; [|in_effects H].
      destruct (findSessionById k st) as [s|] eqn:E; [|in_effects H].
      apply map_get_value in E.
      destruct (writable (socket s)) eqn:W; in_effects H.
      injection H as <- <-.
      exists s, (group 2 im). repeat split; assumption || reflexivity. }
    destruct (exec CONFIG.COMMANDS.CMDALL line) as [am|].
    { cbn [snd]. intros H. apply in_flat_map in H as (s & Hin & H).
      destruct (writable (socket s)) eqn:W; in_effects H.
      injection H as <- <-.
      exists s, (group 1 am). repeat split; assumption || reflexivity. }
    destruct (exec CONFIG.COMMANDS.DROP line) as [dm|]; [|intros []].
    unfold dropById. destruct (parseId (group 1 dm)) as [k|]; [|intros []].
    destruct (findSessionById k st) as [s|]; [|intros []].
    cbn [snd]. intros H. in_effects H. }
  destruct K as (s & cmd & Hin & Hid & Hw & Hp & Hd).
  exists s, cmd. repeat split; try assumption.
  - intros kw w1 T w2 p -> Hkw Hn1 Hw1 HnT HT Hn2 Hw2 Hnp Hpp Hhp.
    revert Hp. apply payload_cmd; assumption.
  - intros kw w p -> Hkw Hn1 Hw1 Hnp Hpp Hhp.
    rewrite payload_cmdall in Hp by assumption. congruence.
Qed.

Lemma command_writes_to_writable_only_witness :
  snd (processAdminCommand 0 (str "cmdall PING") unwritable_state) =
    [Log (str "[CMD] 1002 10.0.0.7 PING"); SockWrite 1002 (line_of "PING")] /\
  payload (str "cmdall PING") = Some (str "PING") /\
  exists s cmd,
    In s (values (sessions unwritable_state)) /\ id s = 1002%Z /\
    writable (socket s) = true /\
    payload (str "cmdall PING") = Some cmd /\
    line_of "PING" = cmd ++ nl /\
    (forall kw w1 T w2 p : jstr,
        str "cmdall PING" = kw ++ w1 ++ T ++ w2 ++ p ->
        map to_upper kw = str "CMD" ->
        w1 <> [] -> forallb is_ws w1 = true ->
        T <> [] -> forallb (fun c => negb (is_ws c)) T = true ->
        w2 <> [] -> forallb is_ws w2 = true ->
        p <> [] -> forallb dot p = true ->
        match p with [] => true | c :: _ => negb (is_ws c) end = true ->
        cmd = p) /\
    (forall kw w p : jstr,
        str "cmdall PING" = kw ++ w ++ p ->
        map to_upper kw = str "CMDALL" ->
        w <> [] -> forallb is_ws w = true ->
        p <> [] -> forallb dot p = true ->
        match p with [] => true | c :: _ => negb (is_ws c) end = true ->
        cmd = p).
Proof.
  split; [vm_compute; reflexivity|].
  split; [vm_compute; reflexivity|].
  apply (@command_writes_to_writable_only 0%Z (str "cmdall PING")
           unwritable_state 1002%Z (line_of "PING")).
  vm_compute. right. left. reflexivity.
Defined.

(** * The first address of a device *)

Lemma remove_all_without (c : ascii) (s : jstr) :
  without c s (remove_all c s).
Proof.
  induction s as [|a s IH]; [constructor|].
  unfold remove_all in *. cbn [filter].
  destruct (Ascii.eqb a c) eqn:E; cbn [negb].
  - apply Ascii.eqb_eq in E. subst a. constructor. exact IH.
  - apply Ascii.eqb_neq in E. constructor; assumption.
Qed.

Lemma without_unique (c : ascii) (s t u : jstr) :
  without c s t -> without c s u -> t = u.
Proof.
  intros H. revert u.
  induction H as [|s t H IH|a s t Ha H IH]; intros u Hu; inversion Hu; subst;
    try congruence.
  - apply IH. assumption.
  - f_equal. apply IH. assumption.
Qed.

Lemma mac_match_shape (line : jstr) (mt : match_result) :
  exec patterns.mac line = Some mt ->
  (exists a b, line = a ++ m_text mt ++ b) /\
  mac_report (m_text mt) = true /\
  forallb is_hex (remove_all ":" (m_text mt)) = true /\
  List.length (remove_all ":" (m_text mt)) = 12.
Proof.
  intros H. unfold exec in H.
  apply exec_from_sound in H as (a & b & E & H).
  apply matches_mac_report in H.
  split; [exists a, b; exact E|]. split; [exact H|].
  apply (@groups_digits is_colon hex_not_colon 5). exact H.
Qed.

(** C2.  On a connection whose session is still unidentified, let [c] be
    the first line that matches the MAC pattern, after lines [pre] that do
    not, and followed by any lines [post].  The text matched is a piece of
    [c] made of six pairs of hexadecimal digits, each of the first five
    followed by a colon or not.  After all the lines [mac] is that text,
    [token] is that text with its colons taken out and nothing else
    changed, twelve hexadecimal digits, and the validation timer is
    cleared; apart from the echoes of the lines, the whole run broadcasts
    one identification event and writes the two replies, in that order, and
    nothing else: no later line adds to it. *)
Theorem first_mac_identifies (sid : Z) (st : state) (s : session)
    (pre post : list jstr) (c : jstr) (mt : match_result) :
  findSessionById sid st = Some s ->
  mac s = CONFIG.SESSION_DEFAULTS.MAC ->
  (forall c', In c' pre -> exec patterns.mac (trim c') = None) ->
  exec patterns.mac (trim c) = Some mt ->
  let r := run (data_events sid (pre ++ c :: post)) st in
  exists s',
    findSessionById sid (fst r) = Some s' /\
    (exists a b, trim c = a ++ m_text mt ++ b) /\
    mac_report (m_text mt) = true /\
    mac s' = m_text mt /\
    without ":" (m_text mt) (token s') /\
    (forall t, without ":" (m_text mt) t -> t = token s') /\
    forallb is_hex (token s') = true /\
    List.length (token s') = 12 /\
    timer s' = false /\
    beyond_echo (snd r) =
      [Log (CONFIG.LOG_PREFIX.MAC ++ sp ++ m_text mt ++ sp ++ addr s);
       SockWrite sid (str "SYS " ++ nl);
       SockWrite sid (str "SYS DBG " ++ nl);
       ClearTimeout sid].
Proof.
  intros Hs Hm Hpre Hc. cbv zeta.
  destruct (mac_match_shape _ Hc) as (Hpiece & Hrep & Hhex & Hlen).
  destruct (@unidentified_stays sid pre st s Hs Hpre)
    as (s1 & F1 & M1 & K1 & A1 & T1 & B1).
  assert (Hm1 : mac s1 = CONFIG.SESSION_DEFAULTS.MAC) by congruence.
  unfold data_events. rewrite map_app, run_app. fold (data_events sid pre).
  destruct (run (data_events sid pre) st) as [st1 eff1]. cbn [fst snd] in *.
  destruct (@onData_identifies sid c st1 s1 mt F1 Hm1 Hc)
    as (s2 & F2 & M2 & K2 & A2 & T2 & B2).
  assert (Hm2 : mac s2 <> CONFIG.SESSION_DEFAULTS.MAC).
  { rewrite M2. eapply mac_match_not_sentinel. exact Hc. }
  cbn [map run]. change (handle (Data sid c) st1) with (onData sid c st1).
  destruct (onData sid c st1) as [st2 eff2]. cbn [fst snd] in *.
  destruct (@identified_stays sid post st2 s2 F2 Hm2)
    as (s3 & F3 & M3 & K3 & A3 & T3 & B3).
  fold (data_events sid post).
  destruct (run (data_events sid post) st2) as [st3 eff3]. cbn [fst snd] in *.
  exists s3. unfold beyond_echo in *.
  rewrite !filter_app, B1, B2, B3. rewrite A1. cbn [app].
  assert (Et : token s3 = remove_all ":" (m_text mt)) by congruence.
  split; [exact F3|]. split; [exact Hpiece|]. split; [exact Hrep|].
  split; [congruence|].
  split; [rewrite Et; apply remove_all_without|].
  split.
  { intros t Ht. rewrite Et.
    eapply without_unique; [exact Ht|apply remove_all_without]. }
  split; [rewrite Et; exact Hhex|].
  split; [rewrite Et; exact Hlen|].
  split; [congruence|reflexivity].
Qed.

Lemma first_mac_identifies_witness :
  let lines :=
    [line_of "hello"] ++ line_of "id AA:BB:CC:DD:EE:FF ok"
      :: [line_of "11:22:33:44:55:66"] in
  option_map (fun s' => (mac s', token s'))
    (findSessionById 1001 (fst (run (data_events 1001 lines) fresh_state))) =
    Some (str "AA:BB:CC:DD:EE:FF", str "AABBCCDDEEFF") /\
  let r := run (data_events 1001 lines) fresh_state in
  exists s',
    findSessionById 1001 (fst r) = Some s' /\
    (exists a b,
        trim (line_of "id AA:BB:CC:DD:EE:FF ok") =
        a ++ str "AA:BB:CC:DD:EE:FF" ++ b) /\
    mac_report (str "AA:BB:CC:DD:EE:FF") = true /\
    mac s' = str "AA:BB:CC:DD:EE:FF" /\
    without ":" (str "AA:BB:CC:DD:EE:FF") (token s') /\
    (forall t, without ":" (str "AA:BB:CC:DD:EE:FF") t -> t = token s') /\
    forallb is_hex (token s') = true /\
    List.length (token s') = 12 /\
    timer s' = false /\
    beyond_echo (snd r) =
      [Log (CONFIG.LOG_PREFIX.MAC ++ sp ++ str "AA:BB:CC:DD:EE:FF" ++ sp
            ++ addr fresh_session);
       SockWrite 1001 (str "SYS " ++ nl);
       SockWrite 1001 (str "SYS DBG " ++ nl);
       ClearTimeout 1001].
Proof.
  cbv zeta. split; [vm_compute; reflexivity|].
  apply (@first_mac_identifies 1001%Z fresh_state fresh_session
           [line_of "hello"] [line_of "11:22:33:44:55:66"]
           (line_of "id AA:BB:CC:DD:EE:FF ok")
           {| m_text := str "AA:BB:CC:DD:EE:FF";
              m_caps := [(2, str "FF"); (1, str "EE:"); (1, str "DD:");
                         (1, str "CC:"); (1, str "BB:"); (1, str "AA:")] |}).
  - reflexivity.
  - reflexivity.
  - intros c' [<-|[]]. vm_compute. reflexivity.
  - vm_compute. reflexivity.
Defined.

(** * The target list of a [cmd] line *)

Lemma cmdByMac_some (cmd : jstr) (st : state) (t : jstr) :
  cmdByMac cmd st t <> [].
Proof.
  unfold cmdByMac. destruct (findSessionByMac (trim t) st) as [s|];
    [destruct (writable (socket s))|]; discriminate.
Qed.

Lemma cmdById_some (cmd : jstr) (st : state) (t : jstr) :
  cmdById cmd st t <> [].
Proof.
  unfold cmdById. destruct (parseId t) as [k|]; [|discriminate].
  destruct (findSessionById k st) as [s|];
    [destruct (writable (socket s))|]; discriminate.
Qed.

Lemma cmdByKind_some (cmd : jstr) (st : state) (t : jstr) :
  cmdByKind cmd st t <> [].
Proof.
  unfold cmdByKind. destruct (is_mac_shaped t);
    [apply cmdByMac_some|apply cmdById_some].
Qed.

Lemma by_kind_some (cmd : jstr) (st : state) (T : jstr) :
  flat_map (cmdByKind cmd st) (split "," T) <> [].
Proof.
  destruct (join_split T) as (t & ts & -> & _). cbn [flat_map].
  intros H. apply app_eq_nil in H as [H _]. revert H. apply cmdByKind_some.
Qed.

Lemma by_kind_all_macs (cmd : jstr) (st : state) (ts : list jstr) :
  forallb mac_word ts = true ->
  flat_map (cmdByKind cmd st) ts = flat_map (cmdByMac cmd st) ts.
Proof.
  induction ts as [|t ts IH]; [reflexivity|]. cbn [forallb flat_map].
  intros H. apply andb_true_iff in H as [Ht Hts].
  rewrite IH by exact Hts. unfold cmdByKind.
  rewrite is_mac_shaped_spec, Ht. reflexivity.
Qed.

Lemma by_kind_no_mac (cmd : jstr) (st : state) (ts : list jstr) :
  existsb mac_word ts = false ->
  flat_map (cmdByKind cmd st) ts = flat_map (cmdById cmd st) ts.
Proof.
  induction ts as [|t ts IH]; [reflexivity|]. cbn [existsb flat_map].
  intros H. apply orb_false_iff in H as [Ht Hts].
  rewrite IH by exact Hts. unfold cmdByKind.
  rewrite is_mac_shaped_spec, Ht. reflexivity.
Qed.

(** C1.  What a [cmd] line does with its target list.  The list is split
    at its commas and taken as a whole by one grammar: when every element
    is a MAC address each one is looked up as a MAC address; otherwise,
    when the list is made of hexadecimal digits and commas, each element is
    parsed as an identifier, a MAC address without separators among them;
    otherwise the line has no effect at all.  Reading each element by its
    own kind gives the same effects when the elements are all of one kind.
    It gives other effects on a list that mixes the kinds: with a
    separated MAC address or a malformed element beside an identifier the
    line is dropped without any error broadcast although the reading
    asks for at least one effect, and a bare MAC address beside an
    identifier is parsed as an identifier.  Inside a branch the elements
    are handled one by one, each adding its effects between those of its
    neighbours; an element that is not found or does not parse adds one
    error broadcast. *)
Theorem cmd_list_taken_by_one_grammar (now : Z) (kw w1 T w2 p : jstr)
    (st : state) :
  map to_upper kw = str "CMD" ->
  w1 <> [] -> forallb is_ws w1 = true ->
  T <> [] -> forallb (fun c => negb (is_ws c)) T = true ->
  w2 <> [] -> forallb is_ws w2 = true ->
  p <> [] -> forallb dot p = true ->
  match p with [] => true | c :: _ => negb (is_ws c) end = true ->
  let ts := split "," T in
  let r := processAdminCommand now (kw ++ w1 ++ T ++ w2 ++ p) st in
  r = (st,
       if forallb mac_word ts then flat_map (cmdByMac p st) ts
       else if forallb CONFIG.COMMANDS.is_hex_comma T
            then flat_map (cmdById p st) ts
            else []) /\
  (forall t,
      cmdByKind p st t =
      if mac_word t then cmdByMac p st t else cmdById p st t) /\
  (forallb mac_word ts = true -> snd r = flat_map (cmdByKind p st) ts) /\
  (existsb mac_word ts = false ->
   forallb CONFIG.COMMANDS.is_hex_comma T = true ->
   snd r = flat_map (cmdByKind p st) ts) /\
  (forallb mac_word ts = false ->
   forallb CONFIG.COMMANDS.is_hex_comma T = false ->
   snd r = [] /\ flat_map (cmdByKind p st) ts <> []) /\
  (forallb mac_word ts = false ->
   forallb CONFIG.COMMANDS.is_hex_comma T = true ->
   forall pre t post,
     ts = pre ++ t :: post -> mac_word t = true ->
     snd r = flat_map (cmdById p st) pre ++ cmdById p st t
             ++ flat_map (cmdById p st) post /\
     cmdByKind p st t = cmdByMac p st t) /\
  (forall pre t post,
      flat_map (cmdByMac p st) (pre ++ t :: post) =
      flat_map (cmdByMac p st) pre ++ cmdByMac p st t
      ++ flat_map (cmdByMac p st) post) /\
  (forall pre t post,
      flat_map (cmdById p st) (pre ++ t :: post) =
      flat_map (cmdById p st) pre ++ cmdById p st t
      ++ flat_map (cmdById p st) post) /\
  (forall t,
      findSessionByMac (trim t) st = None ->
      cmdByMac p st t =
        [Log (CONFIG.LOG_PREFIX.CMD_ERROR ++ str " Device MAC " ++ trim t
              ++ str " not found.")]) /\
  (forall t,
      parseId t = None ->
      cmdById p st t =
        [Log (CONFIG.LOG_PREFIX.CMD_ERROR ++ str " Invalid ID format: " ++ t)]) /\
  (forall t k,
      parseId t = Some k -> findSessionById k st = None ->
      cmdById p st t =
        [Log (CONFIG.LOG_PREFIX.CMD_ERROR ++ str " Device ID " ++ dec k
              ++ str " not found.")]).
Proof.
  intros Hkw Hn1 Hw1 HnT HT Hn2 Hw2 Hnp Hp Hhp. cbv zeta.
  rewrite (@cmd_line_dispatch now kw w1 T w2 p st) by assumption.
  cbn [snd].
  split; [reflexivity|].
  split.
  { intros t. unfold cmdByKind. rewrite is_mac_shaped_spec. reflexivity. }
  split.
  { intros H. rewrite H. symmetry. apply by_kind_all_macs. exact H. }
  split.
  { intros H1 H2. rewrite H2.
    destruct (forallb mac_word (split "," T)) eqn:E.
    - symmetry. apply by_kind_all_macs. exact E.
    - symmetry. apply by_kind_no_mac. exact H1. }
  split.
  { intros H1 H2. rewrite H1, H2. split; [reflexivity|apply by_kind_some]. }
  split.
  { intros H1 H2 pre t post E Ht. rewrite H1, H2, E. split.
    - apply flat_map_middle.
    - unfold cmdByKind. rewrite is_mac_shaped_spec, Ht. reflexivity. }
  split.
  { intros pre t post. apply flat_map_middle. }
  split.
  { intros pre t post. apply flat_map_middle. }
  split.
  { intros t H. unfold cmdByMac. rewrite H. reflexivity. }
  split.
  { intros t H. unfold cmdById. rewrite H. reflexivity. }
  intros t k H1 H2. unfold cmdById. rewrite H1, H2. reflexivity.
Qed.

Lemma cmd_list_taken_by_one_grammar_witness :
  processAdminCommand 0 (str "cmd 1001,1002,AABBCCDDEEFF SYS") readme_state =
    (readme_state,
     [Log (str "[CMD] SYS"); SockWrite 1001 (line_of "SYS");
      Log (str "[CMD] SYS"); SockWrite 1002 (line_of "SYS");
      Log (str "[CMD ERROR] Device ID 187723572702975 not found.")]) /\
  flat_map (cmdByKind (str "SYS") readme_state)
    [str "1001"; str "1002"; str "AABBCCDDEEFF"] =
    [Log (str "[CMD] SYS"); SockWrite 1001 (line_of "SYS");
     Log (str "[CMD] SYS"); SockWrite 1002 (line_of "SYS");
     Log (str "[CMD] SYS"); SockWrite 1003 (line_of "SYS")] /\
  processAdminCommand 0 (str "cmd 1001,11:22:33:44:55:66 SYS") readme_state =
    (readme_state, []) /\
  flat_map (cmdByKind (str "SYS") readme_state)
    [str "1001"; str "11:22:33:44:55:66"] =
    [Log (str "[CMD] SYS"); SockWrite 1001 (line_of "SYS");
     Log (str "[CMD] SYS"); SockWrite 1001 (line_of "SYS")].
Proof.
  assert (A := @cmd_list_taken_by_one_grammar 0%Z (str "cmd") (str " ")
                 (str "1001,1002,AABBCCDDEEFF") (str " ") (str "SYS")
                 readme_state eq_refl ltac:(discriminate) eq_refl
                 ltac:(discriminate) eq_refl ltac:(discriminate) eq_refl
                 ltac:(discriminate) eq_refl eq_refl).
  assert (B := @cmd_list_taken_by_one_grammar 0%Z (str "cmd") (str " ")
                 (str "1001,11:22:33:44:55:66") (str " ") (str "SYS")
                 readme_state eq_refl ltac:(discriminate) eq_refl
                 ltac:(discriminate) eq_refl ltac:(discriminate) eq_refl
                 ltac:(discriminate) eq_refl eq_refl).
  cbv zeta in A, B. destruct A as (A & _). destruct B as (B & _).
  split; [|split; [vm_compute; reflexivity|split; [|vm_compute; reflexivity]]].
  - etransitivity; [exact A|]. vm_compute. reflexivity.
  - etransitivity; [exact B|]. vm_compute. reflexivity.
Defined.

(** * A MAC address without separators in a target list *)

Lemma bare_mac_word (t : jstr) : bare_mac t = true -> mac_word t = true.
Proof.
  intros H. apply bare_mac_spec in H as [L X]. unfold mac_word.
  rewrite (@groups_hex_run _ hex_not_colon_dash 5 t X), L. reflexivity.
Qed.

Lemma forallb_middle (A : Type) (f : A -> bool) (pre post : list A) (t : A) :
  f t = true -> forallb f (pre ++ t :: post) = forallb f (pre ++ post).
Proof.
  intros H. rewrite !forallb_app. cbn [forallb]. rewrite H. reflexivity.
Qed.

(** C10.  What a [cmd] line does with a target of twelve hexadecimal
    digits and no separator.  When every other element of the list is a MAC
    address too, with or without separators, the MAC grammar takes the line
    and the element is looked up by [findSessionByMac] on its digits.  When
    another element is not a MAC address and the list is made of
    hexadecimal digits and commas, the ID grammar takes the line and the
    element is looked up by [findSessionById] on the number its digits
    spell, in base 16 when a letter is among them and in base 10 when not:
    the session of that number is written to, if there is one, and the
    session of that MAC address is not looked for.  With any other element
    beside it the line has no effect. *)
Theorem bare_mac_target_resolution (now : Z) (kw w1 T w2 p : jstr)
    (st : state) (pre post : list jstr) (t : jstr) :
  map to_upper kw = str "CMD" ->
  w1 <> [] -> forallb is_ws w1 = true ->
  T <> [] -> forallb (fun c => negb (is_ws c)) T = true ->
  w2 <> [] -> forallb is_ws w2 = true ->
  p <> [] -> forallb dot p = true ->
  match p with [] => true | c :: _ => negb (is_ws c) end = true ->
  split "," T = pre ++ t :: post ->
  bare_mac t = true ->
  let r := processAdminCommand now (kw ++ w1 ++ T ++ w2 ++ p) st in
  let k := JS.to_double
             (numeral (if existsb is_hex_letter t then 16 else 10) t) in
  fst r = st /\
  (forallb mac_word (pre ++ post) = true ->
   snd r = flat_map (cmdByMac p st) pre ++ cmdByMac p st t
           ++ flat_map (cmdByMac p st) post) /\
  (forallb mac_word (pre ++ post) = false ->
   forallb CONFIG.COMMANDS.is_hex_comma T = true ->
   snd r = flat_map (cmdById p st) pre ++ cmdById p st t
           ++ flat_map (cmdById p st) post) /\
  (forallb mac_word (pre ++ post) = false ->
   forallb CONFIG.COMMANDS.is_hex_comma T = false ->
   snd r = []) /\
  cmdByMac p st t =
    match findSessionByMac t st with
    | Some s =>
        if writable (socket s) then
          [Log (CONFIG.LOG_PREFIX.CMD ++ sp ++ p); SockWrite (id s) (p ++ nl)]
        else
          [Log (CONFIG.LOG_PREFIX.CMD_ERROR ++ str " Device MAC " ++ t
                ++ str " socket not writable.")]
    | None =>
        [Log (CONFIG.LOG_PREFIX.CMD_ERROR ++ str " Device MAC " ++ t
              ++ str " not found.")]
    end /\
  cmdById p st t =
    match findSessionById k st with
    | Some s =>
        if writable (socket s) then
          [Log (CONFIG.LOG_PREFIX.CMD ++ sp ++ p); SockWrite (id s) (p ++ nl)]
        else
          [Log (CONFIG.LOG_PREFIX.CMD_ERROR ++ str " Device ID " ++ JS.dec k
                ++ str " socket not writable.")]
    | None =>
        [Log (CONFIG.LOG_PREFIX.CMD_ERROR ++ str " Device ID " ++ JS.dec k
              ++ str " not found.")]
    end.
Proof.
  intros Hkw Hn1 Hw1 HnT HT Hn2 Hw2 Hnp Hp Hhp Hs Ht. cbv zeta.
  rewrite (@cmd_line_dispatch now kw w1 T w2 p st) by assumption.
  cbn [fst snd]. rewrite Hs.
  rewrite (forallb_middle mac_word pre post t (bare_mac_word t Ht)).
  destruct (bare_mac_spec t Ht) as [L X].
  assert (N : t <> []) by (destruct t; [discriminate|discriminate]).
  split; [reflexivity|].
  split; [intros H; rewrite H; apply flat_map_middle|].
  split; [intros H1 H2; rewrite H1, H2; apply flat_map_middle|].
  split; [intros H1 H2; rewrite H1, H2; reflexivity|].
  split.
  - unfold cmdByMac. rewrite (trim_hex t X). reflexivity.
  - unfold cmdById. rewrite (parseId_hex_run N X). reflexivity.
Qed.

Lemma bare_mac_target_resolution_witness :
  processAdminCommand 0 (str "cmd AABBCCDDEEFF,1 PING") id_lookalike_state =
    (id_lookalike_state,
     [Log (str "[CMD] PING"); SockWrite 187723572702975 (line_of "PING");
      Log (str "[CMD ERROR] Device ID 1 not found.")]) /\
  cmdByMac (str "PING") id_lookalike_state (str "AABBCCDDEEFF") =
    [Log (str "[CMD ERROR] Device MAC AABBCCDDEEFF not found.")].
Proof.
  assert (A := @bare_mac_target_resolution 0%Z (str "cmd") (str " ")
                 (str "AABBCCDDEEFF,1") (str " ") (str "PING")
                 id_lookalike_state [] [str "1"] (str "AABBCCDDEEFF")
                 eq_refl ltac:(discriminate) eq_refl
                 ltac:(discriminate) eq_refl ltac:(discriminate) eq_refl
                 ltac:(discriminate) eq_refl eq_refl eq_refl eq_refl).
  cbv zeta in A. destruct A as (A1 & _ & A2 & _ & A3 & A4).
  split.
  - rewrite (surjective_pairing (processAdminCommand _ _ _)).
    change (str "cmd AABBCCDDEEFF,1 PING")
      with (str "cmd" ++ str " " ++ str "AABBCCDDEEFF,1" ++ str " "
            ++ str "PING").
    rewrite A1, (A2 eq_refl eq_refl), A4. vm_compute. reflexivity.
  - rewrite A3. vm_compute. reflexivity.
Defined.

(** * The base of an identifier *)

(** A [drop] line that the pattern takes has a run of hexadecimal digits
    for its target. *)
Lemma DROP_only_hex (kw w T : jstr) (dm : match_result) :
  map to_upper kw = str "DROP" ->
  w <> [] -> forallb is_ws w = true ->
  match T with [] => false | c :: _ => negb (is_ws c) end = true ->
  exec CONFIG.COMMANDS.DROP (kw ++ w ++ T) = Some dm ->
  forallb is_hex T = true.
Proof.
  intros Hkw Hn Hw HT H.
  apply exec_bol_sound in H as (W & rest & E & H).
  apply matches_seq in H as (c1 & W1 & -> & H1 & H).
  apply matches_seq in H as (c2 & W2 & -> & H2 & H).
  apply matches_seq in H as (c3 & c4 & -> & H3 & H4).
  apply matches_eol in H4 as [-> ->].
  apply matches_lit in H1. apply matches_plus_cls in H2 as [N2 A2].
  apply matches_grp in H3. apply matches_plus_cls in H3 as [N3 A3].
  assert (B2 : forallb is_ws c2 = true).
  { rewrite <- A2. apply forallb_same. intros c. symmetry. apply cls_in_ws. }
  assert (B3 : forallb is_hex c3 = true).
  { rewrite <- A3. apply forallb_same. intros c. symmetry. apply cls_in_hex. }
  rewrite !app_nil_r in E. rewrite <- ?app_assoc in E.
  apply app_eq_length in E as [-> E].
  2:{ apply (f_equal (@List.length ascii)) in Hkw.
      rewrite length_map in Hkw. rewrite Hkw, H1. reflexivity. }
  apply (span_eq is_ws) in E as [_ ->]; try assumption.
  - destruct T as [|a T]; [discriminate|exact HT].
  - destruct c3 as [|a c3]; [congruence|]. cbn [forallb] in B3.
    apply andb_true_iff in B3 as [Ha _]. rewrite (hex_not_ws _ Ha).
    reflexivity.
  - destruct T; [discriminate|discriminate].
Qed.

Lemma drop_line_dispatch (now : Z) (kw w T : jstr) (st : state) :
  map to_upper kw = str "DROP" ->
  w <> [] -> forallb is_ws w = true ->
  match T with [] => false | c :: _ => negb (is_ws c) end = true ->
  processAdminCommand now (kw ++ w ++ T) st =
    if forallb is_hex T then dropById T st else (st, []).
Proof.
  intros Hkw Hn Hw HT. destruct (forallb is_hex T) eqn:Hh.
  - apply drop_line; try assumption. destruct T; discriminate.
  - unfold processAdminCommand.
    rewrite (LS_other_kw (c' := "D") (K' := str "ROP") _ _ Hkw eq_refl).
    rewrite (CMD_MAC_other_kw (c' := "D") (K' := str "ROP") _ _ Hkw eq_refl).
    rewrite (CMD_ID_other_kw (c' := "D") (K' := str "ROP") _ _ Hkw eq_refl).
    rewrite (CMDALL_other_kw (c' := "D") (K' := str "ROP") _ _ Hkw eq_refl).
    destruct (exec CONFIG.COMMANDS.DROP (kw ++ w ++ T)) as [dm|] eqn:E;
      [|reflexivity].
    apply DROP_only_hex in E; try assumption. congruence.
Qed.

Lemma hex_run_no_mac_word (s : jstr) :
  forallb is_hex s = true -> List.length s <> 12 -> mac_word s = false.
Proof.
  intros X L. unfold mac_word.
  rewrite (@groups_hex_run _ hex_not_colon_dash 5 s X).
  apply Nat.eqb_neq. exact L.
Qed.

Lemma forallb_imp (A : Type) (f g : A -> bool) (l : list A) :
  (forall a, f a = true -> g a = true) ->
  forallb f l = true -> forallb g l = true.
Proof.
  intros H. rewrite !forallb_forall. intros Hf a Ha. apply H, Hf, Ha.
Qed.

Lemma hex_run_no_ws (s : jstr) :
  forallb is_hex s = true -> forallb (fun c => negb (is_ws c)) s = true.
Proof.
  apply forallb_imp. intros a H. rewrite (hex_not_ws _ H). reflexivity.
Qed.

Lemma hex_run_hex_comma (s : jstr) :
  forallb is_hex s = true -> forallb CONFIG.COMMANDS.is_hex_comma s = true.
Proof.
  apply forallb_imp. intros a H. unfold CONFIG.COMMANDS.is_hex_comma.
  rewrite H. reflexivity.
Qed.

(** C6.  How the targets of [cmd] and [drop] are read as identifiers.  A
    target that the patterns let through is a run of hexadecimal digits: it
    is read in base 16 when a letter is among its digits and in base 10
    when not, as the Number nearest to what the digits spell, and both
    commands look up the session of that number.  The one target that the
    patterns let through and that does not parse is the empty element of a
    [cmd] list, which adds an Invalid ID broadcast; any other target that
    is no run of hexadecimal digits makes the line match no pattern, so
    that [drop] and [cmd] alike pass the line over without a broadcast.
    That holds of the 0x prefix too: [parseId] reads a prefixed identifier
    in base 16, and the DROP branch would drop the session of that number,
    but a line whose target begins with 0x or 0X matches no pattern and is
    passed over. *)
Theorem id_base_and_prefix (now : Z) (kd kc w w2 s p : jstr) (st : state) :
  map to_upper kd = str "DROP" ->
  map to_upper kc = str "CMD" ->
  w <> [] -> forallb is_ws w = true ->
  w2 <> [] -> forallb is_ws w2 = true ->
  s <> [] -> forallb is_hex s = true ->
  p <> [] -> forallb dot p = true ->
  match p with [] => true | c :: _ => negb (is_ws c) end = true ->
  let k := JS.to_double
             (numeral (if existsb is_hex_letter s then 16 else 10) s) in
  let k16 := JS.to_double (numeral 16 s) in
  parseId s = Some k /\
  processAdminCommand now (kd ++ w ++ s) st = dropped k st /\
  (List.length s <> 12 ->
   processAdminCommand now (kc ++ w ++ s ++ w2 ++ p) st =
     (st, cmdById p st s)) /\
  cmdById p st s =
    match findSessionById k st with
    | Some x =>
        if writable (socket x) then
          [Log (CONFIG.LOG_PREFIX.CMD ++ sp ++ p); SockWrite (id x) (p ++ nl)]
        else
          [Log (CONFIG.LOG_PREFIX.CMD_ERROR ++ str " Device ID " ++ JS.dec k
                ++ str " socket not writable.")]
    | None =>
        [Log (CONFIG.LOG_PREFIX.CMD_ERROR ++ str " Device ID " ++ JS.dec k
              ++ str " not found.")]
    end /\
  processAdminCommand now (kc ++ w ++ (s ++ str ",") ++ w2 ++ p) st =
    (st,
     cmdById p st s
     ++ [Log (CONFIG.LOG_PREFIX.CMD_ERROR ++ str " Invalid ID format: ")]) /\
  (forall T,
      match T with [] => false | c :: _ => negb (is_ws c) end = true ->
      forallb is_hex T = false ->
      processAdminCommand now (kd ++ w ++ T) st = (st, [])) /\
  (forall T,
      T <> [] -> forallb (fun c => negb (is_ws c)) T = true ->
      forallb mac_word (split "," T) = false ->
      forallb CONFIG.COMMANDS.is_hex_comma T = false ->
      processAdminCommand now (kc ++ w ++ T ++ w2 ++ p) st = (st, [])) /\
  parseId (str "0x" ++ s) = Some k16 /\
  dropById (str "0x" ++ s) st = dropped k16 st /\
  (forall x rest,
      to_upper x = "X"%char ->
      processAdminCommand now (kd ++ w ++ "0"%char :: x :: rest) st = (st, []) /\
      processAdminCommand now (kc ++ w ++ "0"%char :: x :: rest) st = (st, [])).
Proof.
  intros Hkd Hkc Hn Hw Hn2 Hw2 Hs Hx Hnp Hp Hhp. cbv zeta.
  pose proof (parseId_hex_run Hs Hx) as Hk.
  split; [exact Hk|].
  split.
  { rewrite drop_line by assumption. unfold dropById, dropped.
    rewrite Hk. reflexivity. }
  split.
  { intros L.
    rewrite (@cmd_line_dispatch now kc w s w2 p st)
      by (try assumption; apply hex_run_no_ws; exact Hx).
    rewrite (split_hex s Hx). cbn [forallb flat_map].
    rewrite (hex_run_no_mac_word s Hx L). cbn [andb].
    rewrite (hex_run_hex_comma s Hx), app_nil_r. reflexivity. }
  split.
  { unfold cmdById. rewrite Hk. reflexivity. }
  split.
  { assert (Hc : forallb CONFIG.COMMANDS.is_hex_comma (s ++ str ",") = true).
    { rewrite forallb_app, (hex_run_hex_comma s Hx). reflexivity. }
    rewrite (@cmd_line_dispatch now kc w (s ++ str ",") w2 p st);
      try assumption.
    - rewrite Hc. change (str ",") with (","%char :: []).
      rewrite (split_hex_then s [] Hx). cbn [split forallb flat_map].
      change (mac_word []) with false. rewrite andb_false_r.
      reflexivity.
    - destruct s; discriminate.
    - revert Hc. apply forallb_imp. intros a H.
      rewrite (hex_comma_not_ws _ H). reflexivity. }
  split.
  { intros T HT Hh. rewrite drop_line_dispatch by assumption.
    rewrite Hh. reflexivity. }
  split.
  { intros T HnT HT Hm Hh.
    rewrite (@cmd_line_dispatch now kc w T w2 p st) by assumption.
    rewrite Hm, Hh. reflexivity. }
  split; [apply parseId_0x; assumption|].
  split.
  { unfold dropById, dropped. rewrite (parseId_0x Hs Hx). reflexivity. }
  intros x rest Hxx. split.
  - apply prefixed_line_passed_over; [left; exact Hkd|exact Hw|exact Hxx].
  - apply prefixed_line_passed_over; [right; exact Hkc|exact Hw|exact Hxx].
Qed.

Lemma id_base_and_prefix_witness :
  processAdminCommand 0 (str "drop 0x3E9") demo_state = (demo_state, []) /\
  dropById (str "0x3E9") demo_state =
    (update 1001 end_destroy demo_state,
     [Log (str "[DROP] 1001");
      SockEnd 1001 (line_of "Connection dropped by admin.");
      SockDestroy 1001]) /\
  processAdminCommand 0 (str "drop 3E9") demo_state =
    (update 1001 end_destroy demo_state,
     [Log (str "[DROP] 1001");
      SockEnd 1001 (line_of "Connection dropped by admin.");
      SockDestroy 1001]) /\
  processAdminCommand 0 (str "cmd 0x3E9 PING") demo_state = (demo_state, []) /\
  processAdminCommand 0 (str "cmd 3E9 PING") demo_state =
    (demo_state, [Log (str "[CMD] PING"); SockWrite 1001 (line_of "PING")]) /\
  parseId (str "3E8") = Some 1000%Z /\ parseId (str "1000") = Some 1000%Z.
Proof.
  assert (A := @id_base_and_prefix 0%Z (str "drop") (str "cmd") (str " ")
                 (str " ") (str "3E9") (str "PING") demo_state
                 eq_refl eq_refl ltac:(discriminate) eq_refl
                 ltac:(discriminate) eq_refl ltac:(discriminate) eq_refl
                 ltac:(discriminate) eq_refl eq_refl).
  cbv zeta in A.
  destruct A as (_ & A2 & A3 & A4 & _ & _ & _ & _ & A9 & A10).
  destruct (A10 "x"%char (str "3E9") eq_refl) as [D C].
  destruct (A10 "x"%char (str "3E9 PING") eq_refl) as [_ C'].
  split; [exact D|].
  split.
  { change (str "0x3E9") with (str "0x" ++ str "3E9").
    rewrite A9. vm_compute. reflexivity. }
  split.
  { change (str "drop 3E9") with (str "drop" ++ str " " ++ str "3E9").
    rewrite A2. vm_compute. reflexivity. }
  split; [exact C'|].
  split.
  { change (str "cmd 3E9 PING")
      with (str "cmd" ++ str " " ++ str "3E9" ++ str " " ++ str "PING").
    rewrite (A3 ltac:(discriminate)), A4. vm_compute. reflexivity. }
  split; vm_compute; reflexivity.
Defined.
